(** * AWS automations: the Cold-Tier Migrator and the Profile Provisioner

    A shallow embedding of [glacier_to_standard.py] and
    [generate_aws_profiles_sso_vpc.py].

    The storage service is an interface ([Service]): one transition
    function from a request to a new service state and either a response
    or a raised exception.  The scripts are written in a small monad that
    threads the service state, collects every request (with its outcome),
    every log line and every sleep in program order, and propagates
    exceptions to the nearest handler, as Python's [try]/[except] does.
    The [while] loop of the restore polling is unrolled by a fuel
    argument.  [size / PART_SIZE] is the correctly rounded binary64
    quotient of two integers, and [math.ceil] its exact ceiling.

    The provisioner works on the parsed configuration, a map from
    section names to maps from option names to values; the endpoint
    enumeration of a profile is a parameter. *)

From Stdlib Require Import ZArith Lia String Ascii List Bool.
From stdpp Require Import gmap strings list fin_maps.

Open Scope Z_scope.

(** ** Python strings *)

(** [sub in s] on [str]: [sub] occurs somewhere in [s]. *)
Fixpoint str_in (sub s : string) : bool :=
  String.prefix sub s ||
  match s with
  | EmptyString => false
  | String _ rest => str_in sub rest
  end.

Definition dquote : string := String "034"%char EmptyString.
Definition newline : string := String "010"%char EmptyString.

(** ** Python numbers: [int / int] and [math.ceil] *)

(** A finite binary64 value, [fmant * 2 ^ fexp]. *)
Record float := { fmant : Z; fexp : Z }.

Inductive exn :=
| ClientError (code : string)
| KeyError (k : string)
| IndexError
| NameError (name : string)
| ZeroDivisionError
| OverflowError
| NoSectionError (section : string)
| ParamValidationError (report : string).

Inductive result (A : Type) :=
| Ok (a : A)
| Raise (e : exn).
Arguments Ok {A} a.
Arguments Raise {A} e.

(** Nearest integer to [n / d], ties to even ([d > 0]). *)
Definition round_half_even (n d : Z) : Z :=
  let q := n / d in
  let r := n mod d in
  if 2 * r <? d then q
  else if d <? 2 * r then q + 1
  else if Z.even q then q else q + 1.

(** [floor (log2 (a / b))] for positive [a], [b]. *)
Definition floor_log2_ratio (a b : Z) : Z :=
  let d := Z.log2 a - Z.log2 b in
  if b * 2 ^ Z.max d 0 <=? a * 2 ^ Z.max (- d) 0 then d else d - 1.

(** True division of two integers: the quotient correctly rounded to
    53 significant bits (to the subnormal grid below [2 ^ -1022]). *)
Definition int_truediv (a b : Z) : result float :=
  if b =? 0 then Raise ZeroDivisionError
  else if a =? 0 then Ok {| fmant := 0; fexp := 0 |}
  else
    let n := Z.abs a in
    let d := Z.abs b in
    let sh := Z.max (floor_log2_ratio n d - 52) (-1074) in
    let m := round_half_even (n * 2 ^ Z.max (- sh) 0) (d * 2 ^ Z.max sh 0) in
    if (0 <=? sh) && (2 ^ 1024 <=? m * 2 ^ sh) then Raise OverflowError
    else Ok {| fmant := Z.sgn a * Z.sgn b * m; fexp := sh |}.

Definition math_ceil (x : float) : Z :=
  if 0 <=? fexp x then fmant x * 2 ^ fexp x
  else - ((- fmant x) / 2 ^ (- fexp x)).

(** ** The storage service *)

Record s3_object := { Key : string; StorageClass : option string }.
Record page := { Contents : option (list s3_object) }.
Record head := { Restore : option string; ContentLength : Z }.
Record part := { ETag : string; PartNumber : Z }.
Record version := {
  VKey : string;
  VersionId : string;
  IsLatest : bool;
  VStorageClass : option string
}.

Inductive call :=
| ListObjectsV2 (bucket : string)
| HeadObject (bucket key : string)
| RestoreObject (bucket key : string) (days : Z) (tier : string)
| CopyObject (bucket key src_bucket src_key storage_class directive : string)
| CreateMultipartUpload (bucket key storage_class directive : string)
| UploadPartCopy (bucket key : string) (part_number : Z) (upload_id : string)
    (src_bucket src_key : string) (first_byte last_byte : Z)
| CompleteMultipartUpload (bucket key upload_id : string) (parts : list part)
| AbortMultipartUpload (bucket key upload_id : string)
| ListObjectVersions (bucket prefix : string)
| DeleteObject (bucket key version_id : string).

Inductive payload :=
| PNone
| PPages (pages : list page)
| PHead (h : head)
| PUpload (upload_id : string)
| PCopyPart (etag : string)
| PVersions (versions : option (list version)).

(** The external collaborators: the storage client and the clock. *)
Class Service (St : Type) := {
  perform : call -> St -> St * result payload;
  sleep : Z -> St -> St
}.

(** ** Log lines *)

Inductive level := INFO | WARNING | ERROR.

Inductive message :=
| MsgScanning
| MsgFound (n : nat)
| MsgRestoreInProgress (key : string)
| MsgAlreadyRestored (key : string)
| MsgRestoreInitiated (key : string)
| MsgErrorRestoring (key : string) (e : exn)
| MsgWaiting
| MsgRestored (key : string) (size : Z)
| MsgErrorChecking (key : string) (e : exn)
| MsgProgress (restored total : nat)
| MsgMultipartCopying (key : string) (size : Z)
| MsgCopiedPart (number total : Z) (key : string)
| MsgCompletedMultipart (key : string)
| MsgMultipartFailed (key : string) (e : exn)
| MsgCouldNotAbort (key : string)
| MsgDeletedVersion (key version_id : string)
| MsgErrorCleaning (key : string) (e : exn)
| MsgTransitioning
| MsgStandardCopyComplete (key : string)
| MsgFailedTransition (key : string) (e : exn)
| MsgStarting (bucket : string)
| MsgNoGlacier
| MsgAllDone.

Inductive entry :=
| Called (c : call) (r : result payload)
| Logged (l : level) (m : message)
| Slept (seconds : Z).

(** ** Insertion-ordered dictionaries *)

Fixpoint dict_get {V : Type} (k : string) (d : list (string * V)) : option V :=
  match d with
  | [] => None
  | (k', v) :: rest => if String.eqb k k' then Some v else dict_get k rest
  end.

Definition dict_mem {V : Type} (k : string) (d : list (string * V)) : bool :=
  match dict_get k d with Some _ => true | None => false end.

(** [d[k] = v]: an existing key keeps its position, a new one goes last. *)
Fixpoint dict_set {V : Type} (k : string) (v : V) (d : list (string * V))
  : list (string * V) :=
  match d with
  | [] => [(k, v)]
  | (k', v') :: rest =>
      if String.eqb k k' then (k', v) :: rest else (k', v') :: dict_set k v rest
  end.

(** ** Configuration of the migrator *)

Definition BUCKET_NAME : string := "your-bucket-name".
Definition PART_SIZE : Z := 500 * 1024 * 1024.

Definition ONGOING_TRUE : string :=
  "ongoing-request=" +:+ dquote +:+ "true" +:+ dquote.
Definition ONGOING_FALSE : string :=
  "ongoing-request=" +:+ dquote +:+ "false" +:+ dquote.

(** ["Restore" in head and marker in head["Restore"]] *)
Definition restore_has (marker : string) (h : head) : bool :=
  match Restore h with
  | Some r => str_in marker r
  | None => false
  end.

(** [v.get("StorageClass") in ["GLACIER", "DEEP_ARCHIVE"]] *)
Definition is_cold (sc : option string) : bool :=
  match sc with
  | Some c => String.eqb c "GLACIER" || String.eqb c "DEEP_ARCHIVE"
  | None => false
  end.

Definition is_glacier (sc : option string) : bool :=
  match sc with
  | Some c => String.eqb c "GLACIER"
  | None => false
  end.

(** ** The migrator *)

Section Migrator.
Context {St : Type} `{Service St}.

(** State, output and exceptions. *)
Definition M (A : Type) : Type := St -> St * list entry * result A.

Definition ret {A} (a : A) : M A := fun s => (s, [], Ok a).

Definition bind {A B} (m : M A) (f : A -> M B) : M B :=
  fun s =>
    match m s with
    | (s1, o1, Ok a) =>
        match f a s1 with
        | (s2, o2, r) => (s2, o1 ++ o2, r)
        end
    | (s1, o1, Raise e) => (s1, o1, Raise e)
    end.

Definition raise {A} (e : exn) : M A := fun s => (s, [], Raise e).

(** [try: m  except Exception as e: handler e] *)
Definition try_except {A} (m : M A) (handler : exn -> M A) : M A :=
  fun s =>
    match m s with
    | (s1, o1, Ok a) => (s1, o1, Ok a)
    | (s1, o1, Raise e) =>
        match handler e s1 with
        | (s2, o2, r) => (s2, o1 ++ o2, r)
        end
    end.

Definition request (c : call) : M payload :=
  fun s =>
    match perform c s with
    | (s1, r) => (s1, [Called c r], r)
    end.

Definition logging (l : level) (m : message) : M unit :=
  fun s => (s, [Logged l m], Ok tt).

Definition time_sleep (seconds : Z) : M unit :=
  fun s => (sleep seconds s, [Slept seconds], Ok tt).

Definition lift {A} (r : result A) : M A := fun s => (s, [], r).

(** Run [m] and hand its outcome, value or exception, to the caller. *)
Definition attempt {A} (m : M A) : M (result A) :=
  fun s =>
    match m s with
    | (s1, o1, r) => (s1, o1, Ok r)
    end.

Notation "x <- m ;; k" := (bind m (fun x => k))
  (at level 100, m at next level, right associativity).
Notation "m ;; k" := (bind m (fun _ => k))
  (at level 100, right associativity).

(** [for x in xs: body x] *)
Fixpoint for_each {A} (xs : list A) (body : A -> M unit) : M unit :=
  match xs with
  | [] => ret tt
  | x :: rest => body x ;; for_each rest body
  end.

(** Typed views of the responses; a missing field is a [KeyError]. *)
Definition paginate (bucket : string) : M (list page) :=
  p <- request (ListObjectsV2 bucket) ;;
  match p with PPages ps => ret ps | _ => raise (KeyError "Contents") end.

Definition head_object (bucket key : string) : M head :=
  p <- request (HeadObject bucket key) ;;
  match p with PHead h => ret h | _ => raise (KeyError "ContentLength") end.

Definition create_multipart_upload (bucket key sc md : string) : M string :=
  p <- request (CreateMultipartUpload bucket key sc md) ;;
  match p with PUpload u => ret u | _ => raise (KeyError "UploadId") end.

Definition upload_part_copy (bucket key : string) (pn : Z) (u : string)
    (sb sk : string) (first last : Z) : M string :=
  p <- request (UploadPartCopy bucket key pn u sb sk first last) ;;
  match p with PCopyPart t => ret t | _ => raise (KeyError "CopyPartResult") end.

Definition list_object_versions (bucket prefix : string)
  : M (option (list version)) :=
  p <- request (ListObjectVersions bucket prefix) ;;
  match p with PVersions vs => ret vs | _ => ret None end.

(** *** Discovery *)

Fixpoint scan_contents (objs : list s3_object) (glacier_objects : list string)
  : list string :=
  match objs with
  | [] => glacier_objects
  | obj :: rest =>
      scan_contents rest
        (if is_glacier (StorageClass obj)
         then glacier_objects ++ [Key obj]
         else glacier_objects)
  end.

Fixpoint scan_pages (pages : list page) (glacier_objects : list string)
  : list string :=
  match pages with
  | [] => glacier_objects
  | p :: rest =>
      scan_pages rest (scan_contents (default [] (Contents p)) glacier_objects)
  end.

Definition get_glacier_objects : M (list string) :=
  logging INFO MsgScanning ;;
  pages <- paginate BUCKET_NAME ;;
  let glacier_objects := scan_pages pages [] in
  logging INFO (MsgFound (length glacier_objects)) ;;
  ret glacier_objects.

(** *** Restore initiation *)

Definition initiate_restore_key (key : string) : M unit :=
  try_except
    (h <- head_object BUCKET_NAME key ;;
     if restore_has ONGOING_TRUE h then
       logging INFO (MsgRestoreInProgress key)
     else if restore_has ONGOING_FALSE h then
       logging INFO (MsgAlreadyRestored key)
     else
       request (RestoreObject BUCKET_NAME key 1 "Standard") ;;
       logging INFO (MsgRestoreInitiated key))
    (fun e => logging ERROR (MsgErrorRestoring key e)).

Definition initiate_restore (keys : list string) : M unit :=
  for_each keys initiate_restore_key.

(** *** Restore polling *)

Definition poll_key (key : string) (restored : list (string * Z))
  : M (list (string * Z)) :=
  if dict_mem key restored then ret restored
  else
    try_except
      (h <- head_object BUCKET_NAME key ;;
       if restore_has ONGOING_FALSE h then
         let size := ContentLength h in
         let restored' := dict_set key size restored in
         logging INFO (MsgRestored key size) ;;
         ret restored'
       else ret restored)
      (fun e => logging ERROR (MsgErrorChecking key e) ;; ret restored).

(** One pass of [for key in keys] inside the [while]. *)
Fixpoint sweep (keys : list string) (restored : list (string * Z))
  : M (list (string * Z)) :=
  match keys with
  | [] => ret restored
  | key :: rest =>
      restored' <- poll_key key restored ;;
      sweep rest restored'
  end.

(** The [while] loop, unrolled at most [fuel] times; [None] when the
    loop condition still holds after [fuel] iterations. *)
Fixpoint wait_loop (fuel : nat) (keys : list string)
    (restored : list (string * Z)) : M (option (list (string * Z))) :=
  if (length restored <? length keys)%nat then
    match fuel with
    | O => ret None
    | S fuel' =>
        restored' <- sweep keys restored ;;
        logging INFO (MsgProgress (length restored') (length keys)) ;;
        (if (length restored' <? length keys)%nat
         then time_sleep 60 else ret tt) ;;
        wait_loop fuel' keys restored'
    end
  else ret (Some restored).

Definition wait_for_restore (fuel : nat) (keys : list string)
  : M (option (list (string * Z))) :=
  logging INFO MsgWaiting ;;
  wait_loop fuel keys [].

(** *** Multipart copy *)

(** The body of [for i in range(part_count)], from index list [idxs]. *)
Fixpoint copy_parts (key : string) (size : Z) (upload_id : string)
    (part_count : Z) (idxs : list Z) (parts : list part) : M (list part) :=
  match idxs with
  | [] => ret parts
  | i :: rest =>
      let start := i * PART_SIZE in
      let end_ := Z.min (start + PART_SIZE - 1) (size - 1) in
      etag <- upload_part_copy BUCKET_NAME key (i + 1) upload_id
                BUCKET_NAME key start end_ ;;
      let parts' := parts ++ [{| ETag := etag; PartNumber := i + 1 |}] in
      logging INFO (MsgCopiedPart (i + 1) part_count key) ;;
      copy_parts key size upload_id part_count rest parts'
  end.

(** The [try] block after [upload] has been bound. *)
Definition multipart_body (key : string) (size : Z) (upload_id : string)
  : M unit :=
  q <- lift (int_truediv size PART_SIZE) ;;
  let part_count := math_ceil q in
  parts <- copy_parts key size upload_id part_count (seqZ 0 part_count) [] ;;
  request (CompleteMultipartUpload BUCKET_NAME key upload_id parts) ;;
  logging INFO (MsgCompletedMultipart key).

(** The handler: with [upload] unbound the abort itself raises
    [NameError], which the bare [except] turns into the warning. *)
Definition multipart_failed (key : string) (upload : option string) (e : exn)
  : M unit :=
  logging ERROR (MsgMultipartFailed key e) ;;
  try_except
    (match upload with
     | Some upload_id =>
         request (AbortMultipartUpload BUCKET_NAME key upload_id) ;; ret tt
     | None => raise (NameError "upload")
     end)
    (fun _ => logging WARNING (MsgCouldNotAbort key)).

Definition multipart_copy (key : string) (size : Z) : M unit :=
  logging INFO (MsgMultipartCopying key size) ;;
  upload <- attempt (create_multipart_upload BUCKET_NAME key "STANDARD" "COPY") ;;
  match upload with
  | Raise e => multipart_failed key None e
  | Ok upload_id =>
      try_except
        (multipart_body key size upload_id)
        (multipart_failed key (Some upload_id))
  end.

(** *** Version cleanup *)

Definition cleanup_version (key : string) (v : version) : M unit :=
  if IsLatest v then ret tt
  else if is_cold (VStorageClass v) then
    let version_id := VersionId v in
    request (DeleteObject BUCKET_NAME key version_id) ;;
    logging INFO (MsgDeletedVersion key version_id)
  else ret tt.

Definition cleanup_glacier_versions (key : string) : M unit :=
  try_except
    (versions <- list_object_versions BUCKET_NAME key ;;
     for_each (default [] versions) (cleanup_version key))
    (fun e => logging ERROR (MsgErrorCleaning key e)).

(** *** Transition to standard *)

Definition transition_key (key : string) (size : Z) : M unit :=
  try_except
    ((if 5 * 1024 * 1024 * 1024 <? size then
        multipart_copy key size
      else
        request (CopyObject BUCKET_NAME key BUCKET_NAME key "STANDARD" "COPY") ;;
        logging INFO (MsgStandardCopyComplete key)) ;;
     cleanup_glacier_versions key)
    (fun e => logging ERROR (MsgFailedTransition key e)).

Definition transition_to_standard (restored_objects : list (string * Z))
  : M unit :=
  logging INFO MsgTransitioning ;;
  for_each restored_objects (fun item => transition_key item.1 item.2).

(** *** The controller; [None] while the polling loop is still running
    after [fuel] sweeps. *)
Definition main (fuel : nat) : M (option unit) :=
  logging INFO (MsgStarting BUCKET_NAME) ;;
  glacier_keys <- get_glacier_objects ;;
  match glacier_keys with
  | [] => logging INFO MsgNoGlacier ;; ret (Some tt)
  | _ =>
      initiate_restore glacier_keys ;;
      polled <- wait_for_restore fuel glacier_keys ;;
      match polled with
      | None => ret None
      | Some restored_objects =>
          transition_to_standard restored_objects ;;
          logging INFO MsgAllDone ;;
          ret (Some tt)
      end
  end.
End Migrator.

(** The output of a run, and its requests in order. *)
Definition output {St A} (r : St * list entry * result A) : list entry := r.1.2.
Definition outcome {St A} (r : St * list entry * result A) : result A := r.2.
Definition final {St A} (r : St * list entry * result A) : St := r.1.1.

Definition call_of (e : entry) : option call :=
  match e with Called c _ => Some c | _ => None end.

Definition calls (out : list entry) : list call := omap call_of out.

(** ** Two concrete services *)

(** A bucket as the list of its object versions: listing by prefix and
    version-scoped deletion act on it, every other request succeeds. *)
Definition bucket_perform (c : call) (b : list version)
  : list version * result payload :=
  match c with
  | ListObjectVersions _ prefix =>
      (b, Ok (PVersions (Some (filter (fun v => String.prefix prefix (VKey v) = true) b))))
  | DeleteObject _ key version_id =>
      (filter (fun v => ¬ (VKey v = key ∧ VersionId v = version_id)) b, Ok PNone)
  | CreateMultipartUpload _ _ _ _ => (b, Ok (PUpload "upload-1"))
  | UploadPartCopy _ _ _ _ _ _ _ _ => (b, Ok (PCopyPart "etag"))
  | _ => (b, Ok PNone)
  end.

Definition bucket_service : Service (list version) :=
  {| perform := bucket_perform; sleep := fun _ b => b |}.

(** A service that answers the [n]-th status check of [key] with
    [stream key n]; its state counts the checks made per key. *)
Definition poll_perform (stream : string -> nat -> result payload)
    (c : call) (polls : string -> nat) : (string -> nat) * result payload :=
  match c with
  | HeadObject _ key =>
      (fun k => if String.eqb k key then S (polls k) else polls k,
       stream key (polls key))
  | _ => (polls, Ok PNone)
  end.

Definition poll_service (stream : string -> nat -> result payload)
  : Service (string -> nat) :=
  {| perform := poll_perform stream; sleep := fun _ polls => polls |}.

(** A check that shows a completed restore. *)
Definition completed (r : result payload) : bool :=
  match r with
  | Ok (PHead h) => restore_has ONGOING_FALSE h
  | _ => false
  end.

Definition size_of (r : result payload) : Z :=
  match r with
  | Ok (PHead h) => ContentLength h
  | _ => 0
  end.

(** ** The profile provisioner *)

Record vpc_endpoint := {
  VpcEndpointType : string;
  ServiceName : string;
  DnsEntries : list string
}.

Record sso := {
  sso_start_url : string;
  sso_region : string;
  sso_account_id : string;
  sso_role_name : string;
  region : string
}.

Definition profile_names : list string := ["prod"; "dev"].

Definition sso_info : list (string * sso) :=
  [ ("prod", {| sso_start_url := "https://your-sso-portal.awsapps.com/start";
                sso_region := "us-east-1";
                sso_account_id := "123456789012";
                sso_role_name := "ProdAdmin";
                region := "us-east-1" |});
    ("dev", {| sso_start_url := "https://your-sso-portal.awsapps.com/start";
               sso_region := "us-west-2";
               sso_account_id := "210987654321";
               sso_role_name := "DevPowerUser";
               region := "us-west-2" |}) ].

Definition services : list string := ["s3"; "ec2"; "sts"].

(** [str.lower] on ASCII, the parser's [optionxform]. *)
Definition lower_ascii (c : ascii) : ascii :=
  let n := nat_of_ascii c in
  if ((65 <=? n) && (n <=? 90))%nat then ascii_of_nat (n + 32) else c.

Fixpoint optionxform (s : string) : string :=
  match s with
  | EmptyString => EmptyString
  | String c rest => String (lower_ascii c) (optionxform rest)
  end.

(** The parsed configuration: section name to (option name to value). *)
Definition has_section (section : string) (config : gmap string (gmap string string))
  : bool :=
  match config !! section with Some _ => true | None => false end.

Definition add_section (section : string) (config : gmap string (gmap string string))
  : gmap string (gmap string string) :=
  <[section := ∅]> config.

Definition config_set (section option value : string)
    (config : gmap string (gmap string string))
  : result (gmap string (gmap string string)) :=
  match config !! section with
  | Some sec => Ok (<[section := <[optionxform option := value]> sec]> config)
  | None => Raise (NoSectionError section)
  end.

Definition matches (ep : vpc_endpoint) (svc : string) : bool :=
  str_in ("." +:+ svc +:+ ".") (ServiceName ep).

(** [for svc in services] for one endpoint. *)
Fixpoint scan_services (ep : vpc_endpoint) (svcs : list string)
    (service_endpoints : list (string * string)) : result (list (string * string)) :=
  match svcs with
  | [] => Ok service_endpoints
  | svc :: rest =>
      if matches ep svc then
        match DnsEntries ep with
        | dns :: _ => scan_services ep rest (dict_set svc dns service_endpoints)
        | [] => Raise IndexError
        end
      else scan_services ep rest service_endpoints
  end.

(** [for ep in response["VpcEndpoints"]] *)
Fixpoint scan_endpoints (eps : list vpc_endpoint)
    (service_endpoints : list (string * string)) : result (list (string * string)) :=
  match eps with
  | [] => Ok service_endpoints
  | ep :: rest =>
      if String.eqb (VpcEndpointType ep) "Interface" then
        match scan_services ep services service_endpoints with
        | Ok service_endpoints' => scan_endpoints rest service_endpoints'
        | Raise e => Raise e
        end
      else scan_endpoints rest service_endpoints
  end.

(** [for svc in service_endpoints: config.set(section, svc, ...)] *)
Fixpoint set_overrides (section : string) (items : list (string * string))
    (config : gmap string (gmap string string))
  : result (gmap string (gmap string string)) :=
  match items with
  | [] => Ok config
  | (svc, host) :: rest =>
      match config_set section svc
              (newline +:+ "    endpoint_url = https://" +:+ host) config with
      | Ok config' => set_overrides section rest config'
      | Raise e => Raise e
      end
  end.

Section Provisioner.
(** [describe_vpc_endpoints] of the EC2 client of a profile's session in
    a region: the endpoint list, or the exception the session, the
    client or the request raised. *)
Variable describe_vpc_endpoints : string -> string -> result (list vpc_endpoint).

Definition and_then {A B} (r : result A) (f : A -> result B) : result B :=
  match r with
  | Ok a => f a
  | Raise e => Raise e
  end.

(** One iteration of [for profile in profile_names]. *)
Definition provision_profile (profile : string)
    (config : gmap string (gmap string string))
  : result (gmap string (gmap string string)) :=
  match dict_get profile sso_info with
  | None => Raise (KeyError profile)
  | Some info =>
      let region := region info in
      and_then (describe_vpc_endpoints profile region) (fun eps =>
      and_then (scan_endpoints eps []) (fun service_endpoints =>
      let section := "profile " +:+ profile in
      let config := if has_section section config then config
                    else add_section section config in
      and_then (config_set section "sso_start_url" (sso_start_url info) config) (fun config =>
      and_then (config_set section "sso_region" (sso_region info) config) (fun config =>
      and_then (config_set section "sso_account_id" (sso_account_id info) config) (fun config =>
      and_then (config_set section "sso_role_name" (sso_role_name info) config) (fun config =>
      and_then (config_set section "region" region config) (fun config =>
      and_then (config_set section "output" "json" config) (fun config =>
      set_overrides section service_endpoints config))))))))
  end.

Fixpoint provision (profiles : list string)
    (config : gmap string (gmap string string))
  : result (gmap string (gmap string string)) :=
  match profiles with
  | [] => Ok config
  | profile :: rest =>
      and_then (provision_profile profile config) (provision rest)
  end.

(** The script: the configuration written back to the file, or the
    exception that ended the run before the file was opened for writing. *)
Definition generate (config : gmap string (gmap string string))
  : result (gmap string (gmap string string)) :=
  provision profile_names config.
End Provisioner.

(** ** Observations on runs, and sample inputs *)

(** The key a request is about. *)
Definition call_key (c : call) : option string :=
  match c with
  | ListObjectsV2 _ => None
  | HeadObject _ k => Some k
  | RestoreObject _ k _ _ => Some k
  | CopyObject _ k _ _ _ _ => Some k
  | CreateMultipartUpload _ k _ _ => Some k
  | UploadPartCopy _ k _ _ _ _ _ _ => Some k
  | CompleteMultipartUpload _ k _ _ => Some k
  | AbortMultipartUpload _ k _ => Some k
  | ListObjectVersions _ k => Some k
  | DeleteObject _ k _ => Some k
  end.

(** The candidate keys a listing response yields. *)
Definition candidates (r : result payload) : list string :=
  match r with
  | Ok (PPages pages) => scan_pages pages []
  | _ => []
  end.

(** A computation all of whose output satisfies [P] and whose returned
    values satisfy [Q], from every service state. *)
Definition sat {St A} `{Service St} (P : entry -> Prop) (Q : A -> Prop)
    (m : @M St A) : Prop :=
  forall s, Forall P (output (m s)) /\ forall a, outcome (m s) = Ok a -> Q a.

(** Output that only concerns keys of [ks]. *)
Definition about (ks : list string) (e : entry) : Prop :=
  forall c k, call_of e = Some c -> call_key c = Some k -> k ∈ ks.

(** The same bucket behind a failing copy path: every copy request,
    single-call or range, raises. *)
Definition broken_copy_perform (c : call) (b : list version)
  : list version * result payload :=
  match c with
  | CopyObject _ _ _ _ _ _ => (b, Raise (ClientError "InternalError"))
  | UploadPartCopy _ _ _ _ _ _ _ _ => (b, Raise (ClientError "InternalError"))
  | _ => bucket_perform c b
  end.

Definition broken_copy_service : Service (list version) :=
  {| perform := broken_copy_perform; sleep := fun _ b => b |}.

(** The same bucket behind a client that checks the arguments of a
    request against the parameters of the operation before it sends
    anything, as the SDK's client does.  [MetadataDirective] is a
    parameter of the single-call copy and not of the creation of a
    multipart upload, so the creation request, which the script makes
    with that argument whatever the key, is refused. *)
Definition unknown_parameter : exn :=
  ParamValidationError "Unknown parameter in input: MetadataDirective".

Definition validating_perform (c : call) (b : list version)
  : list version * result payload :=
  match c with
  | CreateMultipartUpload _ _ _ _ => (b, Raise unknown_parameter)
  | _ => bucket_perform c b
  end.

Definition validating_service : Service (list version) :=
  {| perform := validating_perform; sleep := fun _ b => b |}.

(** What restore initiation may put out for one key: the status check,
    then a log line only, or one restore request and its log line. *)
Inductive restore_step (key : string) : list entry -> Prop :=
| step_in_progress h :
    restore_has ONGOING_TRUE h = true ->
    restore_step key
      [Called (HeadObject BUCKET_NAME key) (Ok (PHead h));
       Logged INFO (MsgRestoreInProgress key)]
| step_already_restored h :
    restore_has ONGOING_TRUE h = false ->
    restore_has ONGOING_FALSE h = true ->
    restore_step key
      [Called (HeadObject BUCKET_NAME key) (Ok (PHead h));
       Logged INFO (MsgAlreadyRestored key)]
| step_requested h p :
    restore_has ONGOING_TRUE h = false ->
    restore_has ONGOING_FALSE h = false ->
    restore_step key
      [Called (HeadObject BUCKET_NAME key) (Ok (PHead h));
       Called (RestoreObject BUCKET_NAME key 1 "Standard") (Ok p);
       Logged INFO (MsgRestoreInitiated key)]
| step_request_failed h e :
    restore_has ONGOING_TRUE h = false ->
    restore_has ONGOING_FALSE h = false ->
    restore_step key
      [Called (HeadObject BUCKET_NAME key) (Ok (PHead h));
       Called (RestoreObject BUCKET_NAME key 1 "Standard") (Raise e);
       Logged ERROR (MsgErrorRestoring key e)]
| step_check_failed e :
    restore_step key
      [Called (HeadObject BUCKET_NAME key) (Raise e);
       Logged ERROR (MsgErrorRestoring key e)]
| step_check_malformed p :
    (forall h, p <> PHead h) ->
    restore_step key
      [Called (HeadObject BUCKET_NAME key) (Ok p);
       Logged ERROR (MsgErrorRestoring key (KeyError "ContentLength"))].

Definition is_multipart_call (c : call) : bool :=
  match c with
  | CreateMultipartUpload _ _ _ _ | UploadPartCopy _ _ _ _ _ _ _ _
  | CompleteMultipartUpload _ _ _ _ | AbortMultipartUpload _ _ _ => true
  | _ => false
  end.

Definition is_single_copy_call (c : call) : bool :=
  match c with
  | CopyObject _ _ _ _ _ _ => true
  | _ => false
  end.

(** The single-call path: the first thing done for the key is the
    in-place copy, and no multipart request is made. *)
Definition single_copy_path (key : string) (out : list entry) : Prop :=
  (exists r rest,
     out = Called (CopyObject BUCKET_NAME key BUCKET_NAME key "STANDARD" "COPY") r :: rest) /\
  forall c, c ∈ calls out -> is_multipart_call c = false.

(** The multipart path: the first request is the creation of a multipart
    upload for the key, and no single-call copy is made. *)
Definition multipart_path (key : string) (size : Z) (out : list entry) : Prop :=
  (exists r rest,
     out = Logged INFO (MsgMultipartCopying key size)
           :: Called (CreateMultipartUpload BUCKET_NAME key "STANDARD" "COPY") r :: rest) /\
  forall c, c ∈ calls out -> is_single_copy_call c = false.

(** A versioned bucket with one cold object, ["big"], and an older cold
    version of it. *)
Definition bucket_big : list version :=
  [ {| VKey := "big"; VersionId := "v2"; IsLatest := true;
       VStorageClass := Some "GLACIER" |};
    {| VKey := "big"; VersionId := "v1"; IsLatest := false;
       VStorageClass := Some "GLACIER" |} ].

(** A bucket in which key ["a"] is a prefix of key ["ab"], after ["a"]
    has been copied to STANDARD (version ["v3"]).  Both keys were first
    written before versioning was enabled, hence their ["null"] versions:
    that of ["a"] stayed in STANDARD, that of ["ab"] went to GLACIER. *)
Definition bucket_prefix_siblings : list version :=
  [ {| VKey := "a"; VersionId := "v3"; IsLatest := true;
       VStorageClass := Some "STANDARD" |};
    {| VKey := "a"; VersionId := "v2"; IsLatest := false;
       VStorageClass := Some "GLACIER" |};
    {| VKey := "a"; VersionId := "null"; IsLatest := false;
       VStorageClass := Some "STANDARD" |};
    {| VKey := "ab"; VersionId := "v5"; IsLatest := true;
       VStorageClass := Some "STANDARD" |};
    {| VKey := "ab"; VersionId := "null"; IsLatest := false;
       VStorageClass := Some "GLACIER" |} ].

(** The test the endpoint scan applies to an endpoint and a service. *)
Definition attributed (ep : vpc_endpoint) (svc : string) : Prop :=
  VpcEndpointType ep = "Interface" /\ svc ∈ services /\ matches ep svc = true.

(** Two interface endpoints of the same service. *)
Definition endpoint_first : vpc_endpoint :=
  {| VpcEndpointType := "Interface";
     ServiceName := "com.amazonaws.vpce.s3.first";
     DnsEntries := ["vpce-1.s3.us-east-1.vpce.amazonaws.com"] |}.

Definition endpoint_second : vpc_endpoint :=
  {| VpcEndpointType := "Interface";
     ServiceName := "com.amazonaws.vpce.s3.second";
     DnsEntries := ["vpce-2.s3.us-east-1.vpce.amazonaws.com"] |}.

(** Interface endpoints of the three probed services under the names
    the provider gives them, "com.amazonaws.<region>.<service>": the
    service identifier is the last component of the name. *)
Definition provider_endpoints : list vpc_endpoint :=
  [ {| VpcEndpointType := "Interface";
       ServiceName := "com.amazonaws.us-east-1.s3";
       DnsEntries := ["vpce-0a1.s3.us-east-1.vpce.amazonaws.com"] |};
    {| VpcEndpointType := "Interface";
       ServiceName := "com.amazonaws.us-east-1.ec2";
       DnsEntries := ["vpce-0b2.ec2.us-east-1.vpce.amazonaws.com"] |};
    {| VpcEndpointType := "Interface";
       ServiceName := "com.amazonaws.us-east-1.sts";
       DnsEntries := ["vpce-0c3.sts.us-east-1.vpce.amazonaws.com"] |} ].

(** A sample run: both profiles see the two "s3" endpoints, and the file
    already has a section of its own. *)
Definition sample_endpoints (profile region : string) : result (list vpc_endpoint) :=
  Ok [endpoint_first; endpoint_second].

Definition sample_config : gmap string (gmap string string) :=
  {[ "default" := {[ "region" := "eu-west-1" ]};
     "profile prod" := {[ "region" := "eu-west-1"; "cli_pager" := "less" ]} ]}.

Definition sample_written : gmap string (gmap string string) :=
  match generate sample_endpoints sample_config with
  | Ok config => config
  | Raise _ => sample_config
  end.

(** The range-copy request of part [i] (counted from 0) of an object of
    [size] bytes, as the loop of [multipart_copy] builds it. *)
Definition part_request (key : string) (size : Z) (upload_id : string) (i : Z) : call :=
  UploadPartCopy BUCKET_NAME key (i + 1) upload_id BUCKET_NAME key
    (i * PART_SIZE) (Z.min (i * PART_SIZE + PART_SIZE - 1) (size - 1)).

Definition part_entry (i : Z) (etag : string) : part :=
  {| ETag := etag; PartNumber := i + 1 |}.

(** The range-copy requests of an output, the integrity tags they
    returned, and the part lists handed to completion requests. *)
Definition part_call_of (e : entry) : option call :=
  match e with
  | Called (UploadPartCopy b k pn u sb sk first last) _ =>
      Some (UploadPartCopy b k pn u sb sk first last)
  | _ => None
  end.

Definition etag_of (e : entry) : option string :=
  match e with
  | Called (UploadPartCopy _ _ _ _ _ _ _ _) (Ok (PCopyPart etag)) => Some etag
  | _ => None
  end.

Definition completed_with (e : entry) : option (list part) :=
  match e with
  | Called (CompleteMultipartUpload _ _ _ parts) _ => Some parts
  | _ => None
  end.

Definition part_calls (out : list entry) : list call := omap part_call_of out.
Definition etags (out : list entry) : list string := omap etag_of out.
Definition completions (out : list entry) : list (list part) := omap completed_with out.

(** Output without range copies and completions. *)
Definition quiet (e : entry) : Prop :=
  part_call_of e = None /\ etag_of e = None /\ completed_with e = None.

(** A run of [m] from state [s] that ends in state [s'] and returns [a]. *)
Definition runs {St A} (m : @M St A) (s s' : St) (a : A) : Prop :=
  final (m s) = s' /\ outcome (m s) = Ok a.

(** The [n]-th status check of [k] is the first that shows a completed
    restore. *)
Definition first_completed (stream : string -> nat -> result payload)
    (k : string) (n : nat) : Prop :=
  completed (stream k n) = true /\
  forall m, (m < n)%nat -> completed (stream k m) = false.

(** A key still unrestored after [j] sweeps has been checked [j] times,
    without success. *)
Definition pending (stream : string -> nat -> result payload) (j : nat)
    (polls : string -> nat) (restored : list (string * Z)) (k : string) : Prop :=
  k ∉ restored.*1 ->
  polls k = j /\ forall n, (n < j)%nat -> completed (stream k n) = false.

(** Every recorded size was read off the first check that showed the
    restore completed. *)
Definition captured (stream : string -> nat -> result payload)
    (restored : list (string * Z)) : Prop :=
  forall k v, dict_get k restored = Some v ->
    exists n, first_completed stream k n /\ v = size_of (stream k n).

(** Every recorded key is a candidate whose restore was seen completed
    at some check, with the size read off that check. *)
Definition confirmed (stream : string -> nat -> result payload)
    (keys : list string) (restored : list (string * Z)) : Prop :=
  NoDup restored.*1 /\
  forall k v, dict_get k restored = Some v ->
    k ∈ keys /\ exists n, completed (stream k n) = true /\ v = size_of (stream k n).

(** Two status streams: restores that complete at the second and at the
    fourth check, and one that never does. *)
Definition head_ongoing : result payload :=
  Ok (PHead {| Restore := Some ONGOING_TRUE; ContentLength := 0 |}).

Definition head_restored (size : Z) : result payload :=
  Ok (PHead {| Restore := Some ONGOING_FALSE; ContentLength := size |}).

Definition stream_restoring (k : string) (n : nat) : result payload :=
  if String.eqb k "a" then (if (n <? 1)%nat then head_ongoing else head_restored 10)
  else (if (n <? 3)%nat then Raise (ClientError "SlowDown") else head_restored 20).

Definition stream_stalled (k : string) (n : nat) : result payload :=
  if String.eqb k "a" then head_restored 10 else head_ongoing.

(** The check counters after one more check of [key]. *)
Definition checked (key : string) (polls : string -> nat) : string -> nat :=
  fun k => if String.eqb k key then S (polls k) else polls k.

(** A whole bucket for a run of the controller: the object versions and
    the keys whose restore has been requested.  A restore is complete as
    soon as it has been requested, and a copy (single-call or completed
    multipart) writes a new current version in the requested class. *)
Record scenario := { versions : list version; requested : list string }.

Definition scenario_size (key : string) : Z :=
  if String.eqb key "small" then 10 * 1024 ^ 2 else 6 * 1024 ^ 3.

Definition listed (v : version) : list s3_object :=
  if IsLatest v then [{| Key := VKey v; StorageClass := VStorageClass v |}] else [].

Definition superseded (key : string) (v : version) : version :=
  if String.eqb (VKey v) key
  then {| VKey := VKey v; VersionId := VersionId v; IsLatest := false;
          VStorageClass := VStorageClass v |}
  else v.

Definition written (key storage_class : string) (vs : list version) : list version :=
  {| VKey := key; VersionId := "copy-of-" +:+ key; IsLatest := true;
     VStorageClass := Some storage_class |} :: map (superseded key) vs.

Definition scenario_perform (c : call) (st : scenario) : scenario * result payload :=
  match c with
  | ListObjectsV2 _ =>
      (st, Ok (PPages [{| Contents := Some (flat_map listed (versions st)) |}]))
  | HeadObject _ key =>
      (st, Ok (PHead {| Restore :=
                          if existsb (String.eqb key) (requested st)
                          then Some (ONGOING_FALSE +:+ ", expiry-date=tomorrow")
                          else None;
                        ContentLength := scenario_size key |}))
  | RestoreObject _ key _ _ =>
      ({| versions := versions st; requested := key :: requested st |}, Ok PNone)
  | CopyObject _ key _ _ storage_class _ =>
      ({| versions := written key storage_class (versions st);
          requested := requested st |}, Ok PNone)
  | CompleteMultipartUpload _ key _ _ =>
      ({| versions := written key "STANDARD" (versions st);
          requested := requested st |}, Ok PNone)
  | _ =>
      let (vs, r) := bucket_perform c (versions st) in
      ({| versions := vs; requested := requested st |}, r)
  end.

Definition scenario_service : Service scenario :=
  {| perform := scenario_perform; sleep := fun _ st => st |}.

(** One 10 MiB and one 6 GiB cold object, and an object in STANDARD. *)
Definition scenario_start : scenario :=
  {| versions :=
       [ {| VKey := "big"; VersionId := "b1"; IsLatest := true;
            VStorageClass := Some "GLACIER" |};
         {| VKey := "other"; VersionId := "o1"; IsLatest := true;
            VStorageClass := Some "STANDARD" |};
         {| VKey := "small"; VersionId := "s1"; IsLatest := true;
            VStorageClass := Some "GLACIER" |} ];
     requested := [] |}.

Definition is_restore_call (c : call) : bool :=
  match c with RestoreObject _ _ _ _ => true | _ => false end.

Definition is_delete_call (c : call) : bool :=
  match c with DeleteObject _ _ _ => true | _ => false end.

(** ** Further observations *)

(** The GLACIER keys of a listing, in listing order. *)
Definition glacier_keys_of (pages : list page) : list string :=
  flat_map (fun p =>
              flat_map (fun obj => if is_glacier (StorageClass obj) then [Key obj] else [])
                       (default [] (Contents p)))
           pages.

(** The abort requests of an output. *)
Definition abort_of (e : entry) : option call :=
  match e with
  | Called (AbortMultipartUpload b k u) _ => Some (AbortMultipartUpload b k u)
  | _ => None
  end.

Definition aborts (out : list entry) : list call := omap abort_of out.

(** A listed version that cleanup deletes: not the latest, and cold. *)
Definition eligible (v : version) : bool :=
  negb (IsLatest v) && is_cold (VStorageClass v).

(** What a delete that returned puts out: the request with its answer,
    and the log line. *)
Definition deleted (key : string) (item : version * payload) : list entry :=
  [Called (DeleteObject BUCKET_NAME key (VersionId item.1)) (Ok item.2);
   Logged INFO (MsgDeletedVersion key (VersionId item.1))].

(** [versions.get("Versions", [])] of a listing response. *)
Definition listed_versions (r : result payload) : list version :=
  match r with
  | Ok (PVersions (Some vs)) => vs
  | _ => []
  end.

(** Byte [b] lies in the range of part [i] of an object of [size] bytes. *)
Definition part_covers (size i b : Z) : Prop :=
  match part_request "" size "" i with
  | UploadPartCopy _ _ _ _ _ _ first_byte last_byte => first_byte <= b <= last_byte
  | _ => False
  end.

(** What the polling phase may put out: status checks of candidate
    keys, log lines and one-minute sleeps. *)
Definition is_status_check (keys : list string) (e : entry) : Prop :=
  match e with
  | Called c _ => exists k, c = HeadObject BUCKET_NAME k /\ k ∈ keys
  | Slept seconds => seconds = 60
  | Logged _ _ => True
  end.

(** No key is checked again after the line that logs it restored. *)
Fixpoint settled (out : list entry) : Prop :=
  match out with
  | [] => True
  | e :: rest =>
      match e with
      | Logged INFO (MsgRestored k _) => HeadObject BUCKET_NAME k ∉ calls rest
      | _ => True
      end /\ settled rest
  end.

(** A status check in [out] showed the restore of [k] completed. *)
Definition observed (out : list entry) (k : string) : Prop :=
  exists h, Called (HeadObject BUCKET_NAME k) (Ok (PHead h)) ∈ out /\
            restore_has ONGOING_FALSE h = true.

(** The requests of the transition phase. *)
Definition is_transition_call (c : call) : bool :=
  match c with
  | ListObjectsV2 _ | HeadObject _ _ | RestoreObject _ _ _ _ => false
  | _ => true
  end.

(** The static parameter the script sets under an option name. *)
Definition static_value (info : sso) (name : string) : option string :=
  if String.eqb name "sso_start_url" then Some (sso_start_url info)
  else if String.eqb name "sso_region" then Some (sso_region info)
  else if String.eqb name "sso_account_id" then Some (sso_account_id info)
  else if String.eqb name "sso_role_name" then Some (sso_role_name info)
  else if String.eqb name "region" then Some (region info)
  else if String.eqb name "output" then Some "json"
  else None.

(** A bucket that holds one object, in STANDARD. *)
Definition scenario_standard_only : scenario :=
  {| versions :=
       [ {| VKey := "doc"; VersionId := "d1"; IsLatest := true;
            VStorageClass := Some "STANDARD" |} ];
     requested := [] |}.

(** The configuration after the iteration for profile "prod". *)
Definition sample_prod_written : gmap string (gmap string string) :=
  match provision_profile sample_endpoints "prod" sample_config with
  | Ok config => config
  | Raise _ => sample_config
  end.

(** * Properties *)

(** ** The embedding on sample inputs *)

Example str_in_samples :
  str_in "b" "abc" = true /\ str_in "" "abc" = true /\ str_in "abc" "ab" = false /\
  str_in ".s3." "com.amazonaws.us-east-1.s3" = false /\
  str_in ONGOING_FALSE (ONGOING_FALSE +:+ ", expiry-date=tomorrow") = true /\
  str_in ONGOING_TRUE ONGOING_FALSE = false.
Proof. by vm_compute. Qed.

(** [1 / 3] is [0x1.5555555555555p-2], and a 6 GiB object has 13 parts. *)
Example int_truediv_samples :
  int_truediv 1 3 = Ok {| fmant := 6004799503160661; fexp := -54 |} /\
  int_truediv (-7) 2 = Ok {| fmant := -7881299347898368; fexp := -51 |} /\
  int_truediv 1 0 = Raise ZeroDivisionError /\
  int_truediv (2 ^ 1100) 3 = Raise OverflowError /\
  (exists q, int_truediv (6 * 1024 ^ 3) PART_SIZE = Ok q /\ math_ceil q = 13) /\
  (exists q, int_truediv (5 * 1024 ^ 3 + 1) PART_SIZE = Ok q /\ math_ceil q = 11).
Proof. repeat split; try by vm_compute. all: eexists; by vm_compute. Qed.

(** The run of the controller on the two cold objects: two restore
    requests, both restores seen on the first sweep, the small object
    copied in one call and the big one in 13 parts, both old cold
    versions deleted, the STANDARD object left alone. *)
Example main_scenario :
  outcome (main (H := scenario_service) 1 scenario_start) = Ok (Some tt) /\
  filter (fun c => is_restore_call c = true)
         (calls (output (main (H := scenario_service) 1 scenario_start))) =
    [ RestoreObject BUCKET_NAME "big" 1 "Standard";
      RestoreObject BUCKET_NAME "small" 1 "Standard" ] /\
  filter (fun c => is_single_copy_call c = true)
         (calls (output (main (H := scenario_service) 1 scenario_start))) =
    [ CopyObject BUCKET_NAME "small" BUCKET_NAME "small" "STANDARD" "COPY" ] /\
  length (part_calls (output (main (H := scenario_service) 1 scenario_start))) = 13%nat /\
  filter (fun c => is_delete_call c = true)
         (calls (output (main (H := scenario_service) 1 scenario_start))) =
    [ DeleteObject BUCKET_NAME "big" "b1"; DeleteObject BUCKET_NAME "small" "s1" ] /\
  versions (final (main (H := scenario_service) 1 scenario_start)) =
    [ {| VKey := "small"; VersionId := "copy-of-small"; IsLatest := true;
         VStorageClass := Some "STANDARD" |};
      {| VKey := "big"; VersionId := "copy-of-big"; IsLatest := true;
         VStorageClass := Some "STANDARD" |};
      {| VKey := "other"; VersionId := "o1"; IsLatest := true;
         VStorageClass := Some "STANDARD" |} ].
Proof. by vm_compute. Qed.

(** ** Strings and dictionaries *)

Lemma prefix_app (a post : string) : String.prefix a (a +:+ post) = true.
Proof.
  induction a as [|c a IH]; simpl.
  - by destruct post.
  - destruct (ascii_dec c c); [done | congruence].
Qed.

Lemma append_cancel_l (a p q : string) : a +:+ p = a +:+ q -> p = q.
Proof. induction a as [|c a IH]; simpl; [done | intros [= ?]; auto]. Qed.

Lemma prefix_split (a s : string) :
  String.prefix a s = true -> exists post, s = a +:+ post.
Proof.
  revert s. induction a as [|c a IH]; intros s Hp.
  - by exists s.
  - destruct s as [|c' s]; simpl in Hp; [done |].
    destruct (ascii_dec c c') as [-> |]; [| done].
    destruct (IH _ Hp) as [post ->]. by exists post.
Qed.

(** [str_in] is substring containment. *)
Lemma str_in_spec (sub s : string) :
  str_in sub s = true <-> exists pre post, s = pre +:+ sub +:+ post.
Proof.
  split.
  - induction s as [|c s IH]; cbn [str_in]; intros Hin.
    + rewrite orb_false_r in Hin. destruct (prefix_split _ _ Hin) as [post ->].
      by exists EmptyString, post.
    + apply orb_true_iff in Hin as [Hp | Hr].
      * destruct (prefix_split _ _ Hp) as [post ->]. by exists EmptyString, post.
      * destruct (IH Hr) as (pre & post & ->). by exists (String c pre), post.
  - intros (pre & post & ->). induction pre as [|c pre IH].
    + change (EmptyString +:+ sub +:+ post) with (sub +:+ post).
      destruct (sub +:+ post) eqn:E; cbn [str_in]; rewrite <- E, prefix_app; done.
    + change (String c pre +:+ sub +:+ post) with (String c (pre +:+ sub +:+ post)).
      cbn [str_in]. rewrite IH. apply orb_true_r.
Qed.

Lemma dict_get_set {V} (k k' : string) (v : V) (d : list (string * V)) :
  dict_get k (dict_set k' v d) = if String.eqb k k' then Some v else dict_get k d.
Proof.
  induction d as [|[k0 v0] d IH]; simpl.
  - done.
  - destruct (String.eqb k' k0) eqn:E0; simpl.
    + apply String.eqb_eq in E0 as ->. by destruct (String.eqb k k0).
    + destruct (String.eqb k k0) eqn:E1.
      * apply String.eqb_eq in E1 as ->.
        rewrite String.eqb_sym in E0. by rewrite E0.
      * done.
Qed.

Lemma dict_get_elem {V} (k : string) (v : V) (d : list (string * V)) :
  dict_get k d = Some v -> (k, v) ∈ d.
Proof.
  induction d as [|[k0 v0] d IH]; simpl; [done |].
  destruct (String.eqb k k0) eqn:E.
  - apply String.eqb_eq in E as ->. intros [= ->]. left.
  - intros Hd. right. auto.
Qed.

Lemma dict_get_None {V} (k : string) (d : list (string * V)) :
  dict_get k d = None <-> k ∉ d.*1.
Proof.
  induction d as [|[k0 v0] d IH]; simpl.
  - split; [intros _; apply not_elem_of_nil | done].
  - rewrite not_elem_of_cons. destruct (String.eqb k k0) eqn:E.
    + apply String.eqb_eq in E. split; [done | tauto].
    + apply String.eqb_neq in E. tauto.
Qed.

Lemma dict_mem_true {V} (k : string) (d : list (string * V)) :
  dict_mem k d = true <-> k ∈ d.*1.
Proof.
  unfold dict_mem. destruct (dict_get k d) eqn:E.
  - split; [intros _ | done].
    apply dict_get_elem in E. apply list_elem_of_fmap. by exists (k, v).
  - apply dict_get_None in E. split; [done | tauto].
Qed.

(** ** A program logic for the script monad *)

Section Logic.
Context {St : Type} `{Service St}.
Implicit Types P : entry -> Prop.

Lemma sat_ret {A} P (Q : A -> Prop) (a : A) : Q a -> sat P Q (ret a).
Proof. intros Ha s. split; [constructor | by intros ? [= <-]]. Qed.

Lemma sat_raise {A} P (Q : A -> Prop) e : sat P Q (raise e).
Proof. intros s. split; [constructor | done]. Qed.

Lemma sat_lift {A} P (Q : A -> Prop) (r : result A) :
  (forall a, r = Ok a -> Q a) -> sat P Q (lift r).
Proof. intros Hr s. split; [constructor | exact Hr]. Qed.

Lemma sat_logging P l m : P (Logged l m) -> sat P (fun _ => True) (logging l m).
Proof. intros Hp s. split; [by repeat constructor | done]. Qed.

Lemma sat_sleep P n : P (Slept n) -> sat P (fun _ => True) (time_sleep n).
Proof. intros Hp s. split; [by repeat constructor | done]. Qed.

Lemma sat_request P c :
  (forall r, P (Called c r)) -> sat P (fun _ => True) (request c).
Proof.
  intros Hp s. unfold request, output, outcome.
  destruct (perform c s) as [s1 r]. split; [by repeat constructor | done].
Qed.

Lemma sat_bind {A B} P (Q : A -> Prop) (R : B -> Prop) m (f : A -> M B) :
  sat P Q m -> (forall a, Q a -> sat P R (f a)) -> sat P R (bind m f).
Proof.
  intros Hm Hf s. destruct (Hm s) as [Ho Hq].
  unfold bind, output, outcome in *.
  destruct (m s) as [[s1 o1] [a | e]]; simpl in *; [| by split].
  destruct (Hf a (Hq a eq_refl) s1) as [Ho2 Hr]. unfold output, outcome in *.
  destruct (f a s1) as [[s2 o2] r]; simpl in *.
  split; [by apply Forall_app | done].
Qed.

Lemma sat_try_except {A} P (Q : A -> Prop) m (h : exn -> M A) :
  sat P Q m -> (forall e, sat P Q (h e)) -> sat P Q (try_except m h).
Proof.
  intros Hm Hh s. destruct (Hm s) as [Ho Hq].
  unfold try_except, output, outcome in *.
  destruct (m s) as [[s1 o1] [a | e]]; simpl in *; [by split |].
  destruct (Hh e s1) as [Ho2 Hr]. unfold output, outcome in *.
  destruct (h e s1) as [[s2 o2] r]; simpl in *.
  split; [by apply Forall_app | done].
Qed.

Lemma sat_attempt {A} P (Q : A -> Prop) (m : M A) :
  sat P Q m ->
  sat P (fun r => match r with Ok a => Q a | Raise _ => True end) (attempt m).
Proof.
  intros Hm s. destruct (Hm s) as [Ho Hq].
  unfold attempt, output, outcome in *.
  destruct (m s) as [[s1 o1] r]; simpl in *.
  split; [done |]. intros r' [= <-]. destruct r; auto.
Qed.

Lemma sat_for_each {A} P (xs : list A) (body : A -> M unit) :
  (forall x, x ∈ xs -> sat P (fun _ => True) (body x)) ->
  sat P (fun _ => True) (for_each xs body).
Proof.
  induction xs as [|x xs IH]; intros Hb; simpl.
  - by apply sat_ret.
  - eapply sat_bind; [apply Hb; left |].
    intros _ _. apply IH. intros y Hy. apply Hb. by right.
Qed.

(** [for_each] never raises when its body does not. *)
Lemma for_each_ok {A} (xs : list A) (body : A -> M unit) :
  (forall x (s : St), outcome (body x s) = Ok tt) ->
  forall s : St, outcome (for_each xs body s) = Ok tt.
Proof.
  intros Hb. induction xs as [|x xs IH]; intros s; simpl; [done |].
  specialize (Hb x s). unfold bind, outcome in *.
  destruct (body x s) as [[s1 o1] [[] | e]]; simpl in *; [| done].
  specialize (IH s1). by destruct (for_each xs body s1) as [[s2 o2] r].
Qed.
End Logic.

(** ** Discovery *)

Lemma is_glacier_spec (sc : option string) :
  is_glacier sc = true <-> sc = Some "GLACIER".
Proof.
  destruct sc as [c|]; simpl; [| done].
  rewrite String.eqb_eq. split; congruence.
Qed.

Lemma scan_contents_elem (objs : list s3_object) (acc : list string) (key : string) :
  key ∈ scan_contents objs acc <->
  key ∈ acc \/ exists obj, obj ∈ objs /\ Key obj = key /\ StorageClass obj = Some "GLACIER".
Proof.
  revert acc. induction objs as [|o objs IH]; intros acc; simpl.
  - split; [auto | intros [? | (? & Hel & _)]; [done | by apply elem_of_nil in Hel]].
  - rewrite IH. destruct (is_glacier (StorageClass o)) eqn:E.
    + apply is_glacier_spec in E. rewrite elem_of_app, list_elem_of_singleton. split.
      * intros [[? | ->] | (obj & ? & ?)]; [by left | right; exists o | right; exists obj];
          (split; [by constructor | done]).
      * intros [? | (obj & [-> | ?]%elem_of_cons & <- & ?)]; [tauto | tauto |].
        right. by exists obj.
    + split.
      * intros [? | (obj & ? & ?)]; [by left |]. right. exists obj.
        split; [by constructor | done].
      * intros [? | (obj & [-> | ?]%elem_of_cons & ? & Hg)]; [tauto | |].
        -- apply is_glacier_spec in Hg. congruence.
        -- right. by exists obj.
Qed.

Lemma scan_pages_elem (pages : list page) (acc : list string) (key : string) :
  key ∈ scan_pages pages acc <->
  key ∈ acc \/
  exists p obj, p ∈ pages /\ obj ∈ default [] (Contents p) /\
                Key obj = key /\ StorageClass obj = Some "GLACIER".
Proof.
  revert acc. induction pages as [|p pages IH]; intros acc; simpl.
  - split; [auto | intros [? | (? & ? & Hel & _)]; [done | by apply elem_of_nil in Hel]].
  - rewrite IH, scan_contents_elem. split.
    + intros [[? | (obj & ? & ?)] | (q & obj & ? & ?)]; [by left | |].
      * right. exists p, obj. split; [by constructor | done].
      * right. exists q, obj. split; [by constructor | done].
    + intros [? | (q & obj & [-> | ?]%elem_of_cons & ?)]; [tauto | |].
      * left. right. by exists obj.
      * right. by exists q, obj.
Qed.

Section MigratorTraces.
Context {St : Type} `{Service St}.

Lemma about_calls ks (out : list entry) c k :
  Forall (about ks) out -> c ∈ calls out -> call_key c = Some k -> k ∈ ks.
Proof.
  intros Hall Hc Hk. apply list_elem_of_omap in Hc as (e & He & Hce).
  rewrite Forall_forall in Hall. exact (Hall e He c k Hce Hk).
Qed.

Lemma about_logged ks l m : about ks (Logged l m).
Proof. by intros c k [=]. Qed.

Lemma about_slept ks n : about ks (Slept n).
Proof. by intros c k [=]. Qed.

Lemma about_called ks c r k :
  call_key c = Some k -> k ∈ ks -> about ks (Called c r).
Proof. intros Hk Hin c' k' [= <-] Hk'. congruence. Qed.

Lemma sat_head_object P bucket key :
  (forall r, P (Called (HeadObject bucket key) r)) ->
  sat P (fun _ => True) (head_object bucket key).
Proof.
  intros Hp. eapply sat_bind; [by apply sat_request |].
  intros [] _; first [by apply sat_ret | apply sat_raise].
Qed.

Lemma sat_create_multipart_upload P bucket key sc md :
  (forall r, P (Called (CreateMultipartUpload bucket key sc md) r)) ->
  sat P (fun _ => True) (create_multipart_upload bucket key sc md).
Proof.
  intros Hp. eapply sat_bind; [by apply sat_request |].
  intros [] _; first [by apply sat_ret | apply sat_raise].
Qed.

Lemma sat_upload_part_copy P bucket key pn u sb sk a b :
  (forall r, P (Called (UploadPartCopy bucket key pn u sb sk a b) r)) ->
  sat P (fun _ => True) (upload_part_copy bucket key pn u sb sk a b).
Proof.
  intros Hp. eapply sat_bind; [by apply sat_request |].
  intros [] _; first [by apply sat_ret | apply sat_raise].
Qed.

Lemma sat_list_object_versions P bucket prefix :
  (forall r, P (Called (ListObjectVersions bucket prefix) r)) ->
  sat P (fun _ => True) (list_object_versions bucket prefix).
Proof.
  intros Hp. eapply sat_bind; [by apply sat_request |].
  intros [] _; by apply sat_ret.
Qed.

(** Every function of the migrator only issues requests for the keys
    it is given. *)
Lemma initiate_restore_about ks keys :
  keys ⊆ ks -> sat (about ks) (fun _ => True) (initiate_restore keys).
Proof.
  intros Hsub. apply sat_for_each. intros key Hkey.
  apply sat_try_except; [| intros e; apply sat_logging, about_logged].
  eapply sat_bind.
  { apply sat_head_object. intros r. eapply about_called; [done | auto]. }
  intros h _. repeat case_match; try (apply sat_logging, about_logged).
  eapply sat_bind; [| intros; apply sat_logging, about_logged].
  apply sat_request. intros r. eapply about_called; [done | auto].
Qed.

Lemma dict_set_keys {V} (k k' : string) (v : V) (d : list (string * V)) :
  k ∈ (dict_set k' v d).*1 -> k = k' \/ k ∈ d.*1.
Proof.
  induction d as [|[k0 v0] d IH]; simpl.
  - rewrite list_elem_of_singleton. auto.
  - destruct (String.eqb k' k0) eqn:E; simpl; rewrite !elem_of_cons; [tauto |].
    intros [? | ?]; [tauto |]. destruct IH; tauto.
Qed.

Lemma poll_key_about ks key restored :
  key ∈ ks -> restored.*1 ⊆ ks ->
  sat (about ks) (fun r => r.*1 ⊆ ks) (poll_key key restored).
Proof.
  intros Hkey Hres. unfold poll_key. case_match; [by apply sat_ret |].
  apply sat_try_except.
  - eapply sat_bind.
    { apply sat_head_object. intros r. eapply about_called; [done | auto]. }
    intros h _. case_match; [| by apply sat_ret].
    eapply sat_bind; [apply sat_logging, about_logged |].
    intros _ _. apply sat_ret. intros k Hk.
    apply dict_set_keys in Hk as [-> | Hk]; auto.
  - intros e. eapply sat_bind; [apply sat_logging, about_logged |].
    intros _ _. by apply sat_ret.
Qed.

Lemma sweep_about ks keys restored :
  keys ⊆ ks -> restored.*1 ⊆ ks ->
  sat (about ks) (fun r => r.*1 ⊆ ks) (sweep keys restored).
Proof.
  revert restored. induction keys as [|key keys IH]; intros restored Hsub Hres; simpl.
  - by apply sat_ret.
  - eapply sat_bind.
    + apply poll_key_about; [apply Hsub; left | done].
    + intros r Hr. apply IH; [| done]. intros k Hk. apply Hsub. by right.
Qed.

Lemma wait_loop_about ks fuel keys restored :
  keys ⊆ ks -> restored.*1 ⊆ ks ->
  sat (about ks) (fun r => forall d, r = Some d -> d.*1 ⊆ ks)
      (wait_loop fuel keys restored).
Proof.
  revert restored. induction fuel as [|fuel IH]; intros restored Hsub Hres; simpl.
  - case_match; apply sat_ret; [done | by intros d [= <-]].
  - case_match; [| apply sat_ret; by intros d [= <-]].
    eapply sat_bind; [by apply sweep_about |].
    intros r Hr. eapply sat_bind; [apply sat_logging, about_logged |].
    intros _ _. eapply sat_bind.
    { instantiate (1 := fun _ => True).
      case_match; [apply sat_sleep, about_slept | by apply sat_ret]. }
    intros _ _. by apply IH.
Qed.

Lemma copy_parts_about ks key size u n idxs parts :
  key ∈ ks -> sat (about ks) (fun _ => True) (copy_parts key size u n idxs parts).
Proof.
  intros Hkey. revert parts. induction idxs as [|i idxs IH]; intros parts; simpl.
  - by apply sat_ret.
  - eapply sat_bind.
    { apply sat_upload_part_copy. intros r. eapply about_called; [done | auto]. }
    intros etag _. eapply sat_bind; [apply sat_logging, about_logged |].
    intros _ _. apply IH.
Qed.

Lemma multipart_failed_about ks key upload e :
  key ∈ ks -> sat (about ks) (fun _ => True) (multipart_failed key upload e).
Proof.
  intros Hkey. eapply sat_bind; [apply sat_logging, about_logged |].
  intros _ _. apply sat_try_except; [| intros; apply sat_logging, about_logged].
  destruct upload as [u|]; [| apply sat_raise].
  eapply sat_bind; [| intros; by apply sat_ret].
  apply sat_request. intros r. eapply about_called; [done | auto].
Qed.

Lemma multipart_copy_about ks key size :
  key ∈ ks -> sat (about ks) (fun _ => True) (multipart_copy key size).
Proof.
  intros Hkey. eapply sat_bind; [apply sat_logging, about_logged |].
  intros _ _. eapply sat_bind.
  { apply sat_attempt, sat_create_multipart_upload.
    intros r. eapply about_called; [done | auto]. }
  intros [u | e] _; [| by apply multipart_failed_about].
  apply sat_try_except; [| intros; by apply multipart_failed_about].
  eapply sat_bind; [by apply (sat_lift _ (fun _ => True)) |].
  intros q _. eapply sat_bind; [by apply copy_parts_about |].
  intros parts _. eapply sat_bind; [| intros; apply sat_logging, about_logged].
  apply sat_request. intros r. eapply about_called; [done | auto].
Qed.

Lemma cleanup_about ks key :
  key ∈ ks -> sat (about ks) (fun _ => True) (cleanup_glacier_versions key).
Proof.
  intros Hkey. apply sat_try_except; [| intros; apply sat_logging, about_logged].
  eapply sat_bind.
  { apply sat_list_object_versions. intros r. eapply about_called; [done | auto]. }
  intros vs _. apply sat_for_each. intros v _. unfold cleanup_version.
  repeat case_match; try by apply sat_ret.
  eapply sat_bind; [| intros; apply sat_logging, about_logged].
  apply sat_request. intros r. eapply about_called; [done | auto].
Qed.

Lemma transition_key_about ks key size :
  key ∈ ks -> sat (about ks) (fun _ => True) (transition_key key size).
Proof.
  intros Hkey. apply sat_try_except; [| intros; apply sat_logging, about_logged].
  eapply sat_bind; [| intros; by apply cleanup_about].
  instantiate (1 := fun _ => True).
  case_match; [by apply multipart_copy_about |].
  eapply sat_bind; [| intros; apply sat_logging, about_logged].
  apply sat_request. intros r. eapply about_called; [done | auto].
Qed.

Lemma transition_about ks (restored : list (string * Z)) :
  restored.*1 ⊆ ks ->
  sat (about ks) (fun _ => True) (transition_to_standard restored).
Proof.
  intros Hsub. eapply sat_bind; [apply sat_logging, about_logged |].
  intros _ _. apply sat_for_each. intros [k v] Hin. apply transition_key_about.
  apply Hsub. apply list_elem_of_fmap. by exists (k, v).
Qed.

Lemma get_glacier_objects_run (s : St) :
  exists s1 r,
    perform (ListObjectsV2 BUCKET_NAME) s = (s1, r) /\
    match r with
    | Ok (PPages pages) =>
        get_glacier_objects s =
          (s1, [Logged INFO MsgScanning; Called (ListObjectsV2 BUCKET_NAME) r;
                Logged INFO (MsgFound (length (scan_pages pages [])))],
           Ok (scan_pages pages []))
    | Ok _ =>
        get_glacier_objects s =
          (s1, [Logged INFO MsgScanning; Called (ListObjectsV2 BUCKET_NAME) r],
           Raise (KeyError "Contents"))
    | Raise e =>
        get_glacier_objects s =
          (s1, [Logged INFO MsgScanning; Called (ListObjectsV2 BUCKET_NAME) r],
           Raise e)
    end.
Proof.
  destruct (perform (ListObjectsV2 BUCKET_NAME) s) as [s1 r] eqn:E.
  exists s1, r. split; [done |].
  unfold get_glacier_objects, paginate, bind, logging, request, ret, raise.
  rewrite E. by destruct r as [[]|].
Qed.

Lemma output_bind {A B} (m : M A) (f : A -> M B) (s : St) :
  output (bind m f s) =
  output (m s) ++
  match outcome (m s) with
  | Ok a => output (f a (final (m s)))
  | Raise _ => []
  end.
Proof.
  unfold bind, output, outcome, final.
  destruct (m s) as [[s1 o1] [a | e]]; simpl; [| by rewrite app_nil_r].
  by destruct (f a s1) as [[s2 o2] r].
Qed.

Lemma output_try_except {A} (m : M A) (h : exn -> M A) (s : St) :
  output (try_except m h s) =
  output (m s) ++
  match outcome (m s) with
  | Ok _ => []
  | Raise e => output (h e (final (m s)))
  end.
Proof.
  unfold try_except, output, outcome, final.
  destruct (m s) as [[s1 o1] [a | e]]; simpl; [by rewrite app_nil_r |].
  by destruct (h e s1) as [[s2 o2] r].
Qed.

Lemma output_attempt {A} (m : M A) (s : St) :
  output (attempt m s) = output (m s).
Proof. unfold attempt, output. by destruct (m s) as [[s1 o1] r]. Qed.

Lemma output_create_multipart_upload bucket key sc md (s : St) :
  output (create_multipart_upload bucket key sc md s) =
  [Called (CreateMultipartUpload bucket key sc md)
          (perform (CreateMultipartUpload bucket key sc md) s).2].
Proof.
  unfold create_multipart_upload, bind, request, output.
  destruct (perform _ s) as [s1 [[] | e]]; done.
Qed.

Lemma multipart_copy_starts key size (s : St) :
  exists r rest,
    output (multipart_copy key size s) =
      Logged INFO (MsgMultipartCopying key size)
      :: Called (CreateMultipartUpload BUCKET_NAME key "STANDARD" "COPY") r :: rest.
Proof.
  unfold multipart_copy. rewrite output_bind. cbn [logging output outcome final fst snd].
  rewrite output_bind, output_attempt, output_create_multipart_upload.
  by eexists _, _.
Qed.

Lemma main_about fuel (s : St) c k :
  c ∈ calls (output (main fuel s)) -> call_key c = Some k ->
  k ∈ candidates (perform (ListObjectsV2 BUCKET_NAME) s).2.
Proof.
  intros Hc Hk. unfold main in Hc.
  rewrite output_bind in Hc. cbn [logging output outcome final fst snd] in Hc.
  match type of Hc with
  | context [bind get_glacier_objects ?f] => set (rest := f) in Hc
  end.
  assert (Hrest : forall keys, sat (about keys) (fun _ => True) (rest keys)).
  { intros keys. subst rest. cbv beta. destruct keys as [|k0 keys0].
    - eapply sat_bind; [apply sat_logging, about_logged | intros; by apply sat_ret].
    - set (keys := k0 :: keys0).
      eapply sat_bind; [by apply initiate_restore_about |].
      intros _ _. eapply sat_bind.
      { eapply sat_bind; [apply sat_logging, about_logged |].
        intros _ _. apply wait_loop_about; [done |].
        intros x Hx. by apply elem_of_nil in Hx. }
      intros [d|] Hd; [| by apply sat_ret].
      eapply sat_bind; [apply transition_about; by apply Hd |].
      intros _ _. eapply sat_bind; [apply sat_logging, about_logged |].
      intros _ _. by apply sat_ret. }
  rewrite output_bind in Hc.
  destruct (get_glacier_objects_run s) as (s1 & r & Hp & Hrun).
  rewrite Hp. cbn [snd]. unfold calls in Hc.
  rewrite !omap_app in Hc.
  apply elem_of_app in Hc as [Hc | [Hc | Hc]%elem_of_app].
  - by apply elem_of_nil in Hc.
  - assert (c = ListObjectsV2 BUCKET_NAME) as ->; [| done].
    destruct r as [[]|]; rewrite Hrun in Hc; cbn in Hc;
      by apply list_elem_of_singleton in Hc.
  - destruct r as [[]|]; rewrite Hrun in Hc; cbn [outcome final fst snd] in Hc;
      try (by apply elem_of_nil in Hc).
    destruct (Hrest (scan_pages pages []) s1) as [Hall _].
    eapply about_calls; done.
Qed.
End MigratorTraces.

(** ** Loops and handlers that never raise *)

Section NeverRaises.
Context {St : Type} `{Service St}.

Lemma try_except_ok (m : M unit) (h : exn -> M unit) :
  (forall e (s : St), outcome (h e s) = Ok tt) ->
  forall s : St, outcome (try_except m h s) = Ok tt.
Proof.
  intros Hh s. unfold try_except, outcome.
  destruct (m s) as [[s1 o1] [[] | e]]; simpl; [done |].
  specialize (Hh e s1). unfold outcome in Hh.
  by destruct (h e s1) as [[s2 o2] r].
Qed.

Lemma logging_ok l m (s : St) : outcome (logging l m s) = Ok tt.
Proof. done. Qed.

Lemma initiate_restore_key_ok key (s : St) :
  outcome (initiate_restore_key key s) = Ok tt.
Proof. apply try_except_ok. intros; apply logging_ok. Qed.

Lemma multipart_failed_ok key upload e (s : St) :
  outcome (multipart_failed key upload e s) = Ok tt.
Proof.
  unfold multipart_failed, bind at 1, logging at 1.
  pose proof (try_except_ok
    (match upload with
     | Some upload_id =>
         bind (request (AbortMultipartUpload BUCKET_NAME key upload_id))
              (fun _ => ret tt)
     | None => raise (NameError "upload")
     end)
    (fun _ => logging WARNING (MsgCouldNotAbort key))
    (fun _ s' => logging_ok _ _ s') s) as Hok.
  unfold outcome in *.
  by destruct (try_except _ _ s) as [[s2 o2] r].
Qed.

Lemma multipart_copy_ok key size (s : St) :
  outcome (multipart_copy key size s) = Ok tt.
Proof.
  unfold multipart_copy, bind at 1, logging at 1, bind at 1, attempt.
  destruct (create_multipart_upload _ _ _ _ s) as [[s1 o1] [u | e]].
  - pose proof (try_except_ok (multipart_body key size u)
                  (multipart_failed key (Some u))
                  (multipart_failed_ok key (Some u)) s1) as Hok.
    unfold outcome in *. by destruct (try_except _ _ s1) as [[s2 o2] r].
  - pose proof (multipart_failed_ok key None e s1) as Hok.
    unfold outcome in *. by destruct (multipart_failed _ _ _ s1) as [[s2 o2] r].
Qed.

Lemma cleanup_ok key (s : St) : outcome (cleanup_glacier_versions key s) = Ok tt.
Proof. apply try_except_ok. intros; apply logging_ok. Qed.

Lemma transition_key_ok key size (s : St) :
  outcome (transition_key key size s) = Ok tt.
Proof. apply try_except_ok. intros; apply logging_ok. Qed.

(** The output of a loop whose body never raises is the bodies'
    outputs, one per element, in order. *)
Lemma for_each_pieces {A} (xs : list A) (body : A -> M unit) :
  (forall x (s : St), outcome (body x s) = Ok tt) ->
  forall s : St, exists pieces,
    output (for_each xs body s) = concat pieces /\
    Forall2 (fun x o => exists s', o = output (body x s')) xs pieces.
Proof.
  intros Hb. induction xs as [|x xs IH]; intros s.
  - exists []. split; [done | constructor].
  - cbn [for_each]. rewrite output_bind, Hb.
    destruct (IH (final (body x s))) as (pieces & -> & Hall).
    exists (output (body x s) :: pieces). split; [done |].
    constructor; [by exists s | done].
Qed.
End NeverRaises.

(** ** Claims about the migrator's control flow *)

Section MigratorClaims.
Context {St : Type} `{Service St}.

Lemma initiate_restore_key_step key (s : St) :
  restore_step key (output (initiate_restore_key key s)).
Proof.
  unfold initiate_restore_key, head_object, try_except, bind, request,
    logging, ret, raise, output.
  destruct (perform (HeadObject BUCKET_NAME key) s) as [s1 [p | e]];
    cbn -[ONGOING_TRUE ONGOING_FALSE]; [| apply step_check_failed].
  destruct p as [ | | h | | | ]; cbn -[ONGOING_TRUE ONGOING_FALSE];
    try (by apply step_check_malformed).
  destruct (restore_has ONGOING_TRUE h) eqn:Et; cbn -[ONGOING_TRUE ONGOING_FALSE];
    [by apply step_in_progress |].
  destruct (restore_has ONGOING_FALSE h) eqn:Ef; cbn -[ONGOING_TRUE ONGOING_FALSE];
    [by apply step_already_restored |].
  destruct (perform (RestoreObject BUCKET_NAME key 1 "Standard") s1) as [s2 [p | e]];
    cbn; [by apply step_requested | by apply step_request_failed].
Qed.

(** C6. Restore initiation handles the keys one after the other and
    never raises: each key gets one status check, followed by a log
    line only when the check shows an ongoing or a completed restore,
    by exactly one restore request (1 day, tier Standard) otherwise,
    and by an error log line when the check or the request raised;
    the batch goes on with the next key in every case. *)
Theorem initiate_restore_per_key (keys : list string) (s : St) :
  outcome (initiate_restore keys s) = Ok tt /\
  exists steps,
    output (initiate_restore keys s) = concat steps /\
    Forall2 restore_step keys steps.
Proof.
  split; [apply for_each_ok, initiate_restore_key_ok |].
  destruct (for_each_pieces keys initiate_restore_key initiate_restore_key_ok s)
    as (pieces & Hout & Hall).
  exists pieces. split; [done |].
  eapply Forall2_impl; [exact Hall |].
  intros key o [s' ->]. apply initiate_restore_key_step.
Qed.

Lemma transition_key_single key size (s : St) :
  size <= 5 * 1024 * 1024 * 1024 ->
  single_copy_path key (output (transition_key key size s)).
Proof.
  intros Hsize. split.
  - unfold transition_key. destruct (5 * 1024 * 1024 * 1024 <? size) eqn:E;
      [apply Z.ltb_lt in E; lia |].
    unfold try_except, bind at 1, bind at 1, request, output.
    destruct (perform _ s) as [s1 [p | e]]; cbn [logging].
    + destruct (cleanup_glacier_versions key s1) as [[s2 o2] [[] | e]];
        [by eexists _, _ | ].
      cbn [logging]. by eexists _, _.
    + by eexists _, _.
  - assert (Hsat : sat (fun e => forall c, call_of e = Some c -> is_multipart_call c = false)
               (fun _ => True) (transition_key key size)).
    { unfold transition_key. destruct (5 * 1024 * 1024 * 1024 <? size) eqn:E;
        [apply Z.ltb_lt in E; lia |].
      apply sat_try_except; [| intros; by apply sat_logging].
      eapply sat_bind.
      { eapply sat_bind; [| intros; by apply sat_logging].
        apply sat_request. by intros r c [= <-]. }
      intros _ _. apply sat_try_except; [| intros; by apply sat_logging].
      eapply sat_bind.
      { apply sat_list_object_versions. by intros r c [= <-]. }
      intros vs _. apply sat_for_each. intros v _. unfold cleanup_version.
      repeat case_match; try by apply sat_ret.
      eapply sat_bind; [| intros; by apply sat_logging].
      apply sat_request. by intros r c [= <-]. }
    intros c Hc. apply list_elem_of_omap in Hc as (e & He & Hce).
    destruct (Hsat s) as [Hall _]. rewrite Forall_forall in Hall. eauto.
Qed.

Lemma transition_key_multipart key size (s : St) :
  5 * 1024 * 1024 * 1024 < size ->
  multipart_path key size (output (transition_key key size s)).
Proof.
  intros Hsize. split.
  - unfold transition_key. destruct (5 * 1024 * 1024 * 1024 <? size) eqn:E;
      [| apply Z.ltb_ge in E; lia].
    rewrite output_try_except, output_bind.
    destruct (multipart_copy_starts key size s) as (r & rest & ->).
    by eexists _, _.
  - assert (Hsat : sat (fun e => forall c, call_of e = Some c -> is_single_copy_call c = false)
               (fun _ => True) (transition_key key size)).
    { unfold transition_key. destruct (5 * 1024 * 1024 * 1024 <? size) eqn:E;
        [| apply Z.ltb_ge in E; lia].
      assert (forall upload e,
        sat (fun e => forall c, call_of e = Some c -> is_single_copy_call c = false)
            (fun _ => True) (multipart_failed key upload e)) as Hfail.
      { intros upload e. eapply sat_bind; [by apply sat_logging |].
        intros _ _. apply sat_try_except; [| intros; by apply sat_logging].
        destruct upload; [| apply sat_raise].
        eapply sat_bind; [| intros; by apply sat_ret].
        apply sat_request. by intros r c [= <-]. }
      apply sat_try_except; [| intros; by apply sat_logging].
      eapply sat_bind.
      { instantiate (1 := fun _ => True).
        eapply sat_bind; [by apply sat_logging |].
        intros _ _. eapply sat_bind.
        { apply sat_attempt, sat_create_multipart_upload. by intros r c [= <-]. }
        intros [u | e] _; [| apply Hfail].
        apply sat_try_except; [| intros; apply Hfail].
        eapply sat_bind; [by apply (sat_lift _ (fun _ => True)) |].
        intros q _. eapply sat_bind.
        { instantiate (1 := fun _ => True).
          generalize (@nil part). generalize (seqZ 0 (math_ceil q)).
          intros idxs. induction idxs as [|i idxs IH]; intros parts; cbn [copy_parts].
          - by apply sat_ret.
          - eapply sat_bind.
            { apply sat_upload_part_copy. by intros r c [= <-]. }
            intros etag _. eapply sat_bind; [by apply sat_logging |].
            intros _ _. apply IH. }
        intros parts _. eapply sat_bind; [| intros; by apply sat_logging].
        apply sat_request. by intros r c [= <-]. }
      intros _ _. apply sat_try_except; [| intros; by apply sat_logging].
      eapply sat_bind.
      { apply sat_list_object_versions. by intros r c [= <-]. }
      intros vs _. apply sat_for_each. intros v _. unfold cleanup_version.
      repeat case_match; try by apply sat_ret.
      eapply sat_bind; [| intros; by apply sat_logging].
      apply sat_request. by intros r c [= <-]. }
    intros c Hc. apply list_elem_of_omap in Hc as (e & He & Hce).
    destruct (Hsat s) as [Hall _]. rewrite Forall_forall in Hall. eauto.
Qed.

(** C3. The transition phase handles the restored objects one after
    the other; an object of at most 5 GiB (5 * 1024^3 bytes, the bound
    included) goes through the single-call in-place copy and no
    multipart request, an object of more than 5 GiB through the
    multipart copy and no single-call copy. *)
Theorem copy_path_by_size (restored_objects : list (string * Z)) (s : St) :
  exists pieces,
    output (transition_to_standard restored_objects s) =
      Logged INFO MsgTransitioning :: concat pieces /\
    Forall2 (fun item out =>
               (item.2 <= 5 * 1024 ^ 3 -> single_copy_path item.1 out) /\
               (5 * 1024 ^ 3 < item.2 -> multipart_path item.1 item.2 out))
            restored_objects pieces.
Proof.
  unfold transition_to_standard. rewrite output_bind. cbn [logging output outcome final fst snd].
  destruct (for_each_pieces restored_objects
              (fun item => transition_key item.1 item.2)
              (fun item s' => transition_key_ok item.1 item.2 s') s)
    as (pieces & -> & Hall).
  exists pieces. split; [done |].
  eapply Forall2_impl; [exact Hall |].
  intros [key size] o [s' ->]. cbn [fst snd]. split; intros Hsize.
  - apply transition_key_single. lia.
  - apply transition_key_multipart. lia.
Qed.

(** The single-call path does skip the cleanup when its copy raises. *)
Lemma single_copy_failure_skips_cleanup key size (s s1 : St) e :
  size <= 5 * 1024 * 1024 * 1024 ->
  perform (CopyObject BUCKET_NAME key BUCKET_NAME key "STANDARD" "COPY") s
    = (s1, Raise e) ->
  transition_key key size s =
    (s1, [Called (CopyObject BUCKET_NAME key BUCKET_NAME key "STANDARD" "COPY") (Raise e);
          Logged ERROR (MsgFailedTransition key e)], Ok tt).
Proof.
  intros Hsize Hp. unfold transition_key.
  destruct (5 * 1024 * 1024 * 1024 <? size) eqn:E; [apply Z.ltb_lt in E; lia |].
  unfold try_except, bind, request. by rewrite Hp.
Qed.

(** The multipart path lists the key's versions whatever became of
    the copy. *)
Lemma multipart_always_cleans_up key size (s : St) :
  5 * 1024 * 1024 * 1024 < size ->
  ListObjectVersions BUCKET_NAME key ∈ calls (output (transition_key key size s)).
Proof.
  intros Hsize. unfold transition_key.
  destruct (5 * 1024 * 1024 * 1024 <? size) eqn:E; [| apply Z.ltb_ge in E; lia].
  rewrite output_try_except, output_bind, multipart_copy_ok.
  unfold cleanup_glacier_versions at 1.
  rewrite output_try_except, output_bind.
  unfold list_object_versions at 1. rewrite output_bind.
  unfold calls. rewrite <- !app_assoc, !omap_app.
  apply elem_of_app. right. apply elem_of_app. left.
  unfold request, output. destruct (perform _ _) as [s2 r]. cbn. left.
Qed.

(** C10. Discovery selects exactly the keys listed with storage class
    GLACIER; a key listed only as DEEP_ARCHIVE is no candidate, every
    request a run makes about a key concerns a candidate, and yet
    cleanup deletes a non-current DEEP_ARCHIVE version. *)
Theorem discovery_selects_glacier_only :
  (forall pages key,
     key ∈ scan_pages pages [] <->
     exists p obj, p ∈ pages /\ obj ∈ default [] (Contents p) /\
                   Key obj = key /\ StorageClass obj = Some "GLACIER") /\
  (forall pages key,
     (forall p obj, p ∈ pages -> obj ∈ default [] (Contents p) ->
                    Key obj = key -> StorageClass obj = Some "DEEP_ARCHIVE") ->
     key ∉ scan_pages pages []) /\
  (forall (s : St) keys,
     outcome (get_glacier_objects s) = Ok keys ->
     keys = candidates (perform (ListObjectsV2 BUCKET_NAME) s).2) /\
  (forall fuel (s : St) c k,
     c ∈ calls (output (main fuel s)) -> call_key c = Some k ->
     k ∈ candidates (perform (ListObjectsV2 BUCKET_NAME) s).2) /\
  (forall key v (s : St),
     IsLatest v = false -> VStorageClass v = Some "DEEP_ARCHIVE" ->
     calls (output (cleanup_version key v s)) =
       [DeleteObject BUCKET_NAME key (VersionId v)]).
Proof.
  assert (Hmem : forall pages key,
     key ∈ scan_pages pages [] <->
     exists p obj, p ∈ pages /\ obj ∈ default [] (Contents p) /\
                   Key obj = key /\ StorageClass obj = Some "GLACIER").
  { intros pages key. rewrite scan_pages_elem. split; [| auto].
    intros [Hnil | ?]; [by apply elem_of_nil in Hnil | done]. }
  split; [exact Hmem |]. split; [| split; [| split]].
  - intros pages key Hdeep [p [obj (Hp & Ho & Hk & Hg)]]%Hmem.
    specialize (Hdeep p obj Hp Ho Hk). congruence.
  - intros s keys Hok.
    destruct (get_glacier_objects_run s) as (s1 & r & Hp & Hrun).
    rewrite Hp. cbn [snd]. destruct r as [[]|]; rewrite Hrun in Hok;
      cbn [outcome snd candidates] in *; congruence.
  - apply main_about.
  - intros key v s Hl Hc. unfold cleanup_version, bind, request, logging.
    rewrite Hl, Hc.
    change (is_cold (Some "DEEP_ARCHIVE")) with true. cbv iota.
    cbv beta.
    by destruct (perform (DeleteObject BUCKET_NAME key (VersionId v)) s)
      as [s1 [p | e]].
Qed.
End MigratorClaims.

(** ** Cleanup after a failed copy, and cleanup under a shared prefix *)

(** C1. With every copy request failing, the 6 GiB object ["big"] is
    not copied: its first range copy raises and the upload is aborted.
    The version cleanup runs all the same and deletes the older cold
    version.  The single-call path, on the same bucket and with the same
    failure, makes no cleanup request. *)
Theorem failed_multipart_copy_still_cleans_up :
  calls (output (transition_key (H := broken_copy_service) "big" (6 * 1024 ^ 3) bucket_big)) =
    [ CreateMultipartUpload BUCKET_NAME "big" "STANDARD" "COPY";
      UploadPartCopy BUCKET_NAME "big" 1 "upload-1" BUCKET_NAME "big" 0 (PART_SIZE - 1);
      AbortMultipartUpload BUCKET_NAME "big" "upload-1";
      ListObjectVersions BUCKET_NAME "big";
      DeleteObject BUCKET_NAME "big" "v1" ] /\
  final (transition_key (H := broken_copy_service) "big" (6 * 1024 ^ 3) bucket_big) =
    [ {| VKey := "big"; VersionId := "v2"; IsLatest := true;
         VStorageClass := Some "GLACIER" |} ] /\
  calls (output (transition_key (H := broken_copy_service) "big" (5 * 1024 ^ 3) bucket_big)) =
    [ CopyObject BUCKET_NAME "big" BUCKET_NAME "big" "STANDARD" "COPY" ] /\
  final (transition_key (H := broken_copy_service) "big" (5 * 1024 ^ 3) bucket_big) =
    bucket_big.
Proof. by vm_compute. Qed.

(** On the bucket model, cleanup leaves the versions of every other key
    in place. *)
Lemma cleanup_keeps_other_keys (key : string) (b : list version) (v : version) :
  v ∈ b -> VKey v <> key ->
  v ∈ final (cleanup_glacier_versions (H := bucket_service) key b).
Proof.
  intros Hv Hne.
  assert (Hloop : forall vs b', v ∈ b' ->
            v ∈ final (for_each vs (cleanup_version (H := bucket_service) key) b')).
  { induction vs as [|v0 vs IH]; intros b' Hb'; [done |].
    cbn [for_each]. unfold bind, final.
    destruct (cleanup_version (H := bucket_service) key v0 b') as [[b1 o1] r] eqn:E.
    assert (v ∈ b1 /\ r = Ok tt) as [Hb1 ->].
    { unfold cleanup_version in E. destruct (IsLatest v0).
      { injection E as <- _ <-. done. }
      destruct (is_cold (VStorageClass v0)).
      2:{ injection E as <- _ <-. done. }
      unfold bind, request, logging in E. cbn in E. injection E as <- _ <-.
      split; [| done]. apply list_elem_of_filter. split; [| done].
      intros [Hk _]. done. }
    specialize (IH b1 Hb1). unfold final in IH.
    by destruct (for_each vs (cleanup_version key) b1) as [[b2 o2] r2]. }
  unfold cleanup_glacier_versions, try_except, list_object_versions, bind, request, final.
  cbn [perform bucket_service bucket_perform ret].
  match goal with
  | |- context [for_each ?vs ?f b] =>
      specialize (Hloop vs b Hv); unfold final in Hloop;
      destruct (for_each vs f b) as [[b2 o2] [[] | e]]
  end; done.
Qed.

(** C2. Cleanup of key ["a"] lists by prefix, so it also sees the cold
    non-current version of ["ab"] and deletes the version of ["a"] that
    bears the same version id: a non-current version of ["a"] in
    STANDARD.  The cold version of ["ab"] itself stays. *)
Theorem cleanup_deletes_non_cold_version :
  calls (output (cleanup_glacier_versions (H := bucket_service) "a" bucket_prefix_siblings)) =
    [ ListObjectVersions BUCKET_NAME "a";
      DeleteObject BUCKET_NAME "a" "v2";
      DeleteObject BUCKET_NAME "a" "null" ] /\
  {| VKey := "a"; VersionId := "null"; IsLatest := false;
     VStorageClass := Some "STANDARD" |} ∈ bucket_prefix_siblings /\
  final (cleanup_glacier_versions (H := bucket_service) "a" bucket_prefix_siblings) =
    [ {| VKey := "a"; VersionId := "v3"; IsLatest := true;
         VStorageClass := Some "STANDARD" |};
      {| VKey := "ab"; VersionId := "v5"; IsLatest := true;
         VStorageClass := Some "STANDARD" |};
      {| VKey := "ab"; VersionId := "null"; IsLatest := false;
         VStorageClass := Some "GLACIER" |} ].
Proof.
  split; [by vm_compute |]. split; [| by vm_compute].
  unfold bucket_prefix_siblings. do 2 right. left.
Qed.

(** ** The endpoint scan *)

(** Membership in a list written out. *)
Ltac in_list := rewrite ?elem_of_cons; auto 10.

Lemma elem_of_existsb (svc : string) (svcs : list string) :
  existsb (String.eqb svc) svcs = true <-> svc ∈ svcs.
Proof.
  rewrite existsb_exists, list_elem_of_In. split.
  - intros (x & Hx & ->%String.eqb_eq). done.
  - intros Hin. exists svc. by rewrite String.eqb_refl.
Qed.

Lemma scan_services_nonempty ep svcs d0 d svc :
  scan_services ep svcs d0 = Ok d -> svc ∈ svcs -> matches ep svc = true ->
  exists host rest, DnsEntries ep = host :: rest.
Proof.
  revert d0. induction svcs as [|svc0 svcs IH]; intros d0 Hscan Hin Hm.
  - by apply elem_of_nil in Hin.
  - cbn [scan_services] in Hscan. apply elem_of_cons in Hin as [-> | Hin].
    + rewrite Hm in Hscan. destruct (DnsEntries ep) as [|host rest]; [done |].
      by exists host, rest.
    + destruct (matches ep svc0); [| eauto].
      destruct (DnsEntries ep) as [|host rest]; [done |]. by exists host, rest.
Qed.

Lemma scan_services_get ep svcs d0 d svc :
  scan_services ep svcs d0 = Ok d ->
  dict_get svc d =
    if existsb (String.eqb svc) svcs && matches ep svc
    then hd_error (DnsEntries ep)
    else dict_get svc d0.
Proof.
  revert d0. induction svcs as [|svc0 svcs IH]; intros d0 Hscan.
  - by injection Hscan as <-.
  - cbn [scan_services existsb] in *.
    destruct (matches ep svc0) eqn:Em0.
    + destruct (DnsEntries ep) as [|host rest] eqn:Ed; [done |].
      rewrite (IH _ Hscan), dict_get_set. cbn [hd_error].
      destruct (String.eqb svc svc0) eqn:E.
      * apply String.eqb_eq in E as ->. rewrite Em0. cbn.
        by destruct (existsb _ svcs).
      * done.
    + rewrite (IH _ Hscan). destruct (String.eqb svc svc0) eqn:E; [| done].
      apply String.eqb_eq in E as ->. rewrite Em0, !andb_false_r. done.
Qed.

Lemma attributed_dec ep svc :
  String.eqb (VpcEndpointType ep) "Interface" = true ->
  existsb (String.eqb svc) services && matches ep svc = true <-> attributed ep svc.
Proof.
  intros Ht. apply String.eqb_eq in Ht. unfold attributed.
  rewrite andb_true_iff, elem_of_existsb. tauto.
Qed.

(** The dictionary after the scan: a service keeps its earlier entry
    when no endpoint is attributed to it, and else holds the first DNS
    name of the last endpoint attributed to it. *)
Lemma scan_endpoints_get eps d0 d svc :
  scan_endpoints eps d0 = Ok d ->
  (dict_get svc d = dict_get svc d0 /\ forall ep, ep ∈ eps -> ~ attributed ep svc) \/
  (exists pre ep post host rest,
     eps = pre ++ ep :: post /\ attributed ep svc /\
     DnsEntries ep = host :: rest /\ dict_get svc d = Some host /\
     forall ep', ep' ∈ post -> ~ attributed ep' svc).
Proof.
  revert d0. induction eps as [|ep eps IH]; intros d0 Hscan.
  - injection Hscan as <-. left. split; [done |]. by intros ep ?%elem_of_nil.
  - cbn [scan_endpoints] in Hscan.
    destruct (String.eqb (VpcEndpointType ep) "Interface") eqn:Et.
    + destruct (scan_services ep services d0) as [d1 | e] eqn:Es; [| done].
      destruct (IH _ Hscan) as [[Hget Hnone] | (pre & ep' & post & host & rest & -> & Hrest)].
      * pose proof (scan_services_get _ _ _ _ svc Es) as Hd1.
        destruct (existsb (String.eqb svc) services && matches ep svc) eqn:Ea.
        -- apply attributed_dec in Ea; [| done]. right.
           destruct Ea as (Hty & Hin & Hm).
           destruct (scan_services_nonempty _ _ _ _ _ Es Hin Hm) as (host & rest & Hdns).
           exists [], ep, eps, host, rest. rewrite Hdns in Hd1.
           cbn in Hd1. repeat split; try done. congruence.
        -- left. split; [congruence |]. intros ep' [-> | Hin]%elem_of_cons; [| auto].
           intros Ha. apply attributed_dec in Ha; [congruence | done].
      * right. by exists (ep :: pre), ep', post, host, rest.
    + destruct (IH _ Hscan) as [[Hget Hnone] | (pre & ep' & post & host & rest & -> & Hrest)].
      * left. split; [done |]. intros ep' [-> | Hin]%elem_of_cons; [| auto].
        intros (Hty & _). apply String.eqb_neq in Et. done.
      * right. by exists (ep :: pre), ep', post, host, rest.
Qed.

(** The test the scan makes: a service has an entry exactly when some
    endpoint of type "Interface" has a service name in which the
    service identifier is followed, as well as preceded, by a dot. *)
Lemma endpoint_attribution (eps : list vpc_endpoint) (d : list (string * string))
    (svc : string) :
  scan_endpoints eps [] = Ok d ->
  (is_Some (dict_get svc d) <->
   exists ep, ep ∈ eps /\ VpcEndpointType ep = "Interface" /\ svc ∈ services /\
              exists pre post, ServiceName ep = pre +:+ ("." +:+ svc +:+ ".") +:+ post).
Proof.
  intros Hscan. split.
  - intros [host Hhost].
    destruct (scan_endpoints_get _ _ _ svc Hscan)
      as [[Hget _] | (pre & ep & post & h & rest & -> & (Hty & Hin & Hm) & _)].
    + rewrite Hhost in Hget. done.
    + exists ep. split; [apply elem_of_app; right; left |].
      split; [done |]. split; [done |].
      by apply str_in_spec.
  - intros (ep & Hep & Hty & Hin & Hsub).
    destruct (scan_endpoints_get _ _ _ svc Hscan)
      as [[_ Hnone] | (pre & ep' & post & h & rest & _ & _ & _ & Hget & _)].
    + exfalso. apply (Hnone ep Hep). repeat split; try done.
      by apply str_in_spec.
    + by exists h.
Qed.

(** C7 (code bug). Interface endpoints of the three probed services
    under the names the provider gives them: each name contains the
    identifier of its service, and each endpoint has a DNS name, yet
    the scan records no entry at all, since no dot follows the
    identifier at the end of a name; the profile written from them has
    no endpoint override. *)
Theorem provider_names_get_no_entry :
  (forall svc, svc ∈ services ->
     exists ep, ep ∈ provider_endpoints /\ VpcEndpointType ep = "Interface" /\
                str_in svc (ServiceName ep) = true /\ DnsEntries ep <> []) /\
  scan_endpoints provider_endpoints [] = Ok [] /\
  match provision_profile (fun _ _ => Ok provider_endpoints) "prod" ∅ with
  | Ok config =>
      exists sec, config !! "profile prod" = Some sec /\
                  sec !! "s3" = None /\ sec !! "ec2" = None /\ sec !! "sts" = None
  | Raise _ => False
  end.
Proof.
  split; [| split].
  - intros svc. unfold services. rewrite !elem_of_cons, elem_of_nil.
    unfold provider_endpoints.
    intros [-> | [-> | [-> | []]]].
    + eexists. split; [left |]. by vm_compute.
    + eexists. split; [right; left |]. by vm_compute.
    + eexists. split; [right; right; left |]. by vm_compute.
  - reflexivity.
  - vm_compute. eexists. split; [reflexivity |]. by repeat split.
Qed.




(** ** The configuration file *)

Lemma config_set_Some section option value (config : gmap string (gmap string string)) sec :
  config !! section = Some sec ->
  config_set section option value config =
    Ok (<[section := <[optionxform option := value]> sec]> config).
Proof. intros Hs. unfold config_set. by rewrite Hs. Qed.

Lemma scan_endpoints_keys eps d k :
  scan_endpoints eps [] = Ok d -> k ∈ d.*1 -> k ∈ services.
Proof.
  intros Hscan Hk.
  destruct (scan_endpoints_get _ _ _ k Hscan)
    as [[Hget _] | (pre & ep & post & h & rest & _ & (_ & Hin & _) & _)]; [| done].
  cbn in Hget. by apply dict_get_None in Hget.
Qed.

(** The overrides only write options named after the scanned services,
    and only in the profile's section. *)
Lemma set_overrides_spec section items (config config' : gmap string (gmap string string)) sec :
  config !! section = Some sec ->
  set_overrides section items config = Ok config' ->
  exists sec',
    config' = <[section := sec']> config /\
    forall k, k ∉ optionxform <$> items.*1 -> sec' !! k = sec !! k.
Proof.
  revert config sec. induction items as [|[svc host] items IH]; intros config sec Hs Hset.
  - injection Hset as <-. exists sec. split; [by rewrite insert_id | done].
  - cbn [set_overrides] in Hset. rewrite (config_set_Some _ _ _ _ _ Hs) in Hset.
    eapply IH in Hset as (sec' & -> & Hframe); [| apply lookup_insert_eq].
    exists sec'. split; [by rewrite insert_insert_eq |].
    intros k Hk. cbn in Hk. apply not_elem_of_cons in Hk as [Hne Hk].
    rewrite (Hframe k Hk). by rewrite lookup_insert_ne.
Qed.

Section ProvisionerClaims.
Variable describe_vpc_endpoints : string -> string -> result (list vpc_endpoint).

(** One profile: its section holds the static parameters, no other
    section changes. *)
Lemma provision_profile_spec profile (config config' : gmap string (gmap string string)) :
  provision_profile describe_vpc_endpoints profile config = Ok config' ->
  (forall name, name <> "profile " +:+ profile -> config' !! name = config !! name) /\
  exists info sec,
    dict_get profile sso_info = Some info /\
    config' !! ("profile " +:+ profile) = Some sec /\
    sec !! "sso_start_url" = Some (sso_start_url info) /\
    sec !! "sso_region" = Some (sso_region info) /\
    sec !! "sso_account_id" = Some (sso_account_id info) /\
    sec !! "sso_role_name" = Some (sso_role_name info) /\
    sec !! "region" = Some (region info) /\
    sec !! "output" = Some "json".
Proof.
  unfold provision_profile. intros Hrun.
  destruct (dict_get profile sso_info) as [info|]; [| done].
  destruct (describe_vpc_endpoints profile (region info)) as [eps | e]; [| done].
  cbn [and_then] in Hrun.
  destruct (scan_endpoints eps []) as [overrides | e] eqn:Hscan; [| done].
  cbn [and_then] in Hrun.
  set (section := "profile " +:+ profile) in *.
  set (config0 := if has_section section config then config
                  else add_section section config) in *.
  assert (exists sec0, config0 !! section = Some sec0 /\
            forall name, name <> section -> config0 !! name = config !! name)
    as (sec0 & Hsec0 & Hframe0).
  { subst config0. unfold has_section, add_section.
    destruct (config !! section) as [sec0|] eqn:E.
    - by exists sec0.
    - exists ∅. split; [apply lookup_insert_eq |].
      intros name Hne. by rewrite lookup_insert_ne. }
  rewrite (config_set_Some _ _ _ _ _ Hsec0) in Hrun. cbn [and_then] in Hrun.
  repeat (erewrite config_set_Some in Hrun by apply lookup_insert_eq;
          cbn [and_then] in Hrun).
  rewrite !insert_insert_eq in Hrun.
  eapply set_overrides_spec in Hrun as (sec & -> & Hkeep); [| apply lookup_insert_eq].
  rewrite insert_insert_eq. split.
  - intros name Hne. rewrite lookup_insert_ne by done. by apply Hframe0.
  - exists info, sec. split; [done |]. split; [apply lookup_insert_eq |].
    assert (forall k, k ∉ ["s3"; "ec2"; "sts"] -> k ∉ optionxform <$> overrides.*1)
      as Hstatic.
    { intros k Hk [svc [-> Hsvc]]%list_elem_of_fmap. apply Hk.
      apply (scan_endpoints_keys eps overrides svc Hscan) in Hsvc.
      unfold services in Hsvc. rewrite !elem_of_cons, elem_of_nil in Hsvc.
      destruct Hsvc as [-> | [-> | [-> | []]]];
        match goal with
        | |- optionxform ?x ∈ _ =>
            let y := eval vm_compute in (optionxform x) in
            change (optionxform x) with y
        end; in_list. }

    repeat match goal with
           | |- context [optionxform ?x] =>
               let y := eval vm_compute in (optionxform x) in
               progress change (optionxform x) with y
           end.
    repeat split;
      (rewrite Hkeep;
       [ repeat (rewrite lookup_insert_ne by done); apply lookup_insert_eq
       | apply Hstatic; rewrite !not_elem_of_cons; repeat split; try done;
         apply not_elem_of_nil ]).
Qed.

Lemma provision_frame profiles (config config' : gmap string (gmap string string)) name :
  provision describe_vpc_endpoints profiles config = Ok config' ->
  (forall profile, profile ∈ profiles -> name <> "profile " +:+ profile) ->
  config' !! name = config !! name.
Proof.
  revert config. induction profiles as [|p profiles IH]; intros config Hrun Hname.
  - by injection Hrun as <-.
  - cbn [provision] in Hrun.
    destruct (provision_profile describe_vpc_endpoints p config) as [c1 | e] eqn:E;
      [| done].
    cbn [and_then] in Hrun. rewrite (IH c1 Hrun).
    + apply provision_profile_spec in E as [Hframe _]. apply Hframe, Hname. left.
    + intros q Hq. apply Hname. by right.
Qed.

(** C9. After a run that reaches the write, every section that is
    not "profile p" for a listed profile p is as it was read, and for
    every listed profile the section "profile p" exists and holds the
    profile's federation URL, federation region, account id, role
    name, region and the output format "json", whatever it held
    before. *)
Theorem static_sections_written (config config' : gmap string (gmap string string)) :
  generate describe_vpc_endpoints config = Ok config' ->
  (forall name,
     (forall profile, profile ∈ profile_names -> name <> "profile " +:+ profile) ->
     config' !! name = config !! name) /\
  (forall profile, profile ∈ profile_names ->
     exists info sec,
       dict_get profile sso_info = Some info /\
       config' !! ("profile " +:+ profile) = Some sec /\
       sec !! "sso_start_url" = Some (sso_start_url info) /\
       sec !! "sso_region" = Some (sso_region info) /\
       sec !! "sso_account_id" = Some (sso_account_id info) /\
       sec !! "sso_role_name" = Some (sso_role_name info) /\
       sec !! "region" = Some (region info) /\
       sec !! "output" = Some "json").
Proof.
  unfold generate. intros Hrun. split.
  - intros name Hname. by eapply provision_frame.
  - revert config Hrun.
    assert (Hnodup : NoDup profile_names).
    { unfold profile_names. repeat constructor; rewrite ?elem_of_cons, ?elem_of_nil;
        intros H; decompose [or] H; done. }
    induction profile_names as [|p profiles IH]; intros config Hrun profile Hin.
    + by apply elem_of_nil in Hin.
    + cbn [provision] in Hrun.
      destruct (provision_profile describe_vpc_endpoints p config) as [c1 | e] eqn:E;
        [| done].
      cbn [and_then] in Hrun. apply NoDup_cons in Hnodup as [Hp Hnodup].
      apply elem_of_cons in Hin as [-> | Hin]; [| by eapply IH].
      apply provision_profile_spec in E as [_ (info & sec & Hinfo & Hsec & Hvals)].
      exists info, sec. split; [done |]. split; [| done].
      rewrite <- Hsec. eapply provision_frame; [done |].
      intros q Hq Heq. apply append_cancel_l in Heq. congruence.
Qed.
End ProvisionerClaims.

Lemma static_sections_written_witness :
  (forall name,
     (forall profile, profile ∈ profile_names -> name <> "profile " +:+ profile) ->
     sample_written !! name = sample_config !! name) /\
  (forall profile, profile ∈ profile_names ->
     exists info sec,
       dict_get profile sso_info = Some info /\
       sample_written !! ("profile " +:+ profile) = Some sec /\
       sec !! "sso_start_url" = Some (sso_start_url info) /\
       sec !! "sso_region" = Some (sso_region info) /\
       sec !! "sso_account_id" = Some (sso_account_id info) /\
       sec !! "sso_role_name" = Some (sso_role_name info) /\
       sec !! "region" = Some (region info) /\
       sec !! "output" = Some "json").
Proof.
  apply (static_sections_written sample_endpoints sample_config sample_written).
  vm_compute. reflexivity.
Defined.

(** ** The part count: [math.ceil(size / PART_SIZE)] *)

Lemma round_half_even_bounds (n d : Z) :
  0 < d -> 0 <= n ->
  n / d <= round_half_even n d <= n / d + 1 /\
  (d < 2 * (n mod d) -> round_half_even n d = n / d + 1) /\
  (n mod d = 0 -> round_half_even n d = n / d).
Proof.
  intros Hd Hn. unfold round_half_even.
  pose proof (Z.mod_pos_bound n d Hd) as Hr.
  destruct (2 * (n mod d) <? d) eqn:E1; [apply Z.ltb_lt in E1 | apply Z.ltb_ge in E1].
  - repeat split; lia.
  - destruct (d <? 2 * (n mod d)) eqn:E2; [apply Z.ltb_lt in E2 | apply Z.ltb_ge in E2].
    + repeat split; lia.
    + destruct (Z.even (n / d)); repeat split; lia.
Qed.

Lemma ceil_of_rounded (S C P : Z) :
  0 < C -> 0 < P -> 0 <= S ->
  (S mod C <> 0 -> C < 2 * P) ->
  - ((- round_half_even (S * P) C) / P) = (S + C - 1) / C.
Proof.
  intros HC HP HS Hbig.
  pose proof (Z.div_mod S C ltac:(lia)) as HSdiv.
  pose proof (Z.mod_pos_bound S C HC) as Hr.
  set (q := S / C) in *. set (r := S mod C) in *.
  assert (0 <= q) as Hq by (apply Z.div_pos; lia).
  destruct (round_half_even_bounds (S * P) C HC ltac:(nia)) as (Hb & Hup & Hex).
  pose proof (Z.div_mod (S * P) C ltac:(lia)) as HNdiv.
  pose proof (Z.mod_pos_bound (S * P) C HC) as Hrem.
  set (m := round_half_even (S * P) C) in *.
  set (m0 := S * P / C) in *. set (rem := (S * P) mod C) in *.
  destruct (Z.eq_dec r 0) as [Hr0 | Hr0].
  - assert (m0 = q * P) as Hm0.
    { subst m0. rewrite HSdiv, Hr0, Z.add_0_r.
      replace (C * q * P) with (q * P * C) by ring. apply Z.div_mul. lia. }
    assert (rem = 0) as Hrem0 by nia.
    rewrite (Hex Hrem0), Hm0.
    replace (- (q * P)) with ((- q) * P) by ring. rewrite Z.div_mul by lia.
    rewrite Z.opp_involutive. apply Z.div_unique with (r := C - 1); lia.
  - specialize (Hbig Hr0).
    assert (q * P < m <= (q + 1) * P) as Hm.
    { assert (q * P <= m0) by (subst m0; apply Z.div_le_lower_bound; nia).
      assert (m0 < (q + 1) * P) by (subst m0; apply Z.div_lt_upper_bound; nia).
      split; [| lia].
      destruct (Z.eq_dec m0 (q * P)) as [Heq | Hne]; [| lia].
      assert (rem = r * P) by nia.
      rewrite Hup; nia. }
    transitivity (q + 1).
    + assert (- m / P = - (q + 1)) as ->; [| lia].
      symmetry. apply Z.div_unique with (r := (q + 1) * P - m); nia.
    + apply Z.div_unique with (r := r - 1); lia.
Qed.

Lemma PART_SIZE_bounds : 2 ^ 28 < PART_SIZE < 2 ^ 29 /\ Z.log2 PART_SIZE = 28.
Proof. by vm_compute. Qed.

Lemma floor_log2_ratio_bounds (S : Z) :
  0 < S <= 2 ^ 25 * PART_SIZE ->
  -29 <= floor_log2_ratio S PART_SIZE <= 25 /\
  (S mod PART_SIZE <> 0 -> floor_log2_ratio S PART_SIZE <= 24).
Proof.
  intros HS. destruct PART_SIZE_bounds as [HC Hlog].
  unfold floor_log2_ratio. rewrite Hlog.
  pose proof (Z.log2_nonneg S) as Hnn.
  assert (Z.log2 S <= 53) as Hle.
  { assert (Z.log2 S < 54); [| lia]. apply Z.log2_lt_pow2; [lia |].
    change (2 ^ 54) with (2 ^ 25 * 2 ^ 29). nia. }
  set (d := Z.log2 S - 28).
  destruct (PART_SIZE * 2 ^ Z.max d 0 <=? S * 2 ^ Z.max (- d) 0) eqn:E;
    [apply Z.leb_le in E | ]; split; try lia.
  intros Hmod. destruct (Z.eq_dec d 25) as [Hd | Hd]; [| lia].
  exfalso. apply Hmod. rewrite Hd in E. change (Z.max 25 0) with 25 in E.
  change (Z.max (- 25) 0) with 0 in E. rewrite Z.pow_0_r, Z.mul_1_r in E.
  assert (S = 2 ^ 25 * PART_SIZE) as -> by lia.
  apply Z.mod_mul. lia.
Qed.

Lemma part_count_exact (S : Z) :
  0 <= S <= 2 ^ 25 * PART_SIZE ->
  exists q, int_truediv S PART_SIZE = Ok q /\
            math_ceil q = (S + PART_SIZE - 1) / PART_SIZE.
Proof.
  intros HS. destruct PART_SIZE_bounds as [HC _].
  assert (0 < 2 ^ 28) as Hp28 by done.
  unfold int_truediv.
  destruct (PART_SIZE =? 0) eqn:E0; [apply Z.eqb_eq in E0; lia |].
  destruct (S =? 0) eqn:ES; [apply Z.eqb_eq in ES as -> | apply Z.eqb_neq in ES].
  { eexists. split; [done |]. by vm_compute. }
  rewrite (Z.abs_eq S), (Z.abs_eq PART_SIZE) by lia.
  destruct (floor_log2_ratio_bounds S ltac:(lia)) as [Hl Hl24].
  set (l := floor_log2_ratio S PART_SIZE) in *.
  rewrite (Z.max_l (l - 52) (-1074)) by lia.
  rewrite (Z.max_l (- (l - 52)) 0), (Z.max_r (l - 52) 0) by lia.
  destruct (0 <=? l - 52) eqn:Esh; [apply Z.leb_le in Esh; lia |].
  cbn [andb]. eexists. split; [reflexivity |].
  unfold math_ceil. cbn [fexp fmant]. rewrite Esh.
  rewrite (Z.sgn_pos S), (Z.sgn_pos PART_SIZE) by lia.
  rewrite Z.pow_0_r, !Z.mul_1_r, Z.mul_1_l.
  apply ceil_of_rounded; try lia; try (apply Z.pow_pos_nonneg; lia).
  intros Hmod. specialize (Hl24 Hmod).
  assert (2 ^ 28 <= 2 ^ (- (l - 52))) by (apply Z.pow_le_mono_r; lia).
  change (2 ^ 29) with (2 * 2 ^ 28) in HC. lia.
Qed.

(** ** The parts of a multipart copy *)

Lemma omap_none {A B} (f : A -> option B) (l : list A) :
  Forall (fun x => f x = None) l -> omap f l = [].
Proof. induction 1 as [|x l Hx _ IH]; cbn; [done |]. by rewrite Hx. Qed.

(** The byte ranges of the parts of an object of [S] bytes. *)
Lemma part_ranges (S i : Z) :
  0 <= S -> 0 <= i < (S + PART_SIZE - 1) / PART_SIZE ->
  let n := (S + PART_SIZE - 1) / PART_SIZE in
  let last := Z.min (i * PART_SIZE + PART_SIZE - 1) (S - 1) in
  last = Z.min ((i + 1) * PART_SIZE - 1) (S - 1) /\
  i * PART_SIZE <= last /\
  (i < n - 1 -> last - i * PART_SIZE + 1 = PART_SIZE) /\
  (i = n - 1 -> last = S - 1).
Proof.
  intros HS Hi n last. destruct PART_SIZE_bounds as [HC _].
  assert (0 < 2 ^ 28) as Hp28 by done.
  pose proof (Z.div_mod (S + PART_SIZE - 1) PART_SIZE ltac:(lia)) as Hdiv.
  pose proof (Z.mod_pos_bound (S + PART_SIZE - 1) PART_SIZE ltac:(lia)) as Hmod.
  fold n in Hdiv, Hi. subst last.
  split; [f_equal; ring |]. split; [nia |]. split; intros Hin; nia.
Qed.

Section MultipartParts.
Context {St : Type} `{Service St}.

Lemma multipart_failed_quiet key upload e :
  sat quiet (fun _ => True) (multipart_failed key upload e).
Proof.
  eapply sat_bind; [by apply sat_logging |].
  intros _ _. apply sat_try_except; [| intros; by apply sat_logging].
  destruct upload; [| apply sat_raise].
  eapply sat_bind; [| intros; by apply sat_ret].
  by apply sat_request.
Qed.

(** The loop issues the range copies of a prefix of its indices, in
    order; it returns the parts, tagged in that order, when all of
    them succeeded, and raises at the first that did not. *)
Lemma copy_parts_run key size u n idxs parts (s : St) :
  exists issued,
    issued `prefix_of` idxs /\
    part_calls (output (copy_parts key size u n idxs parts s)) =
      part_request key size u <$> issued /\
    completions (output (copy_parts key size u n idxs parts s)) = [] /\
    ((outcome (copy_parts key size u n idxs parts s) =
        Ok (parts ++ zip_with part_entry idxs
                       (etags (output (copy_parts key size u n idxs parts s)))) /\
      issued = idxs /\
      length (etags (output (copy_parts key size u n idxs parts s))) = length idxs) \/
     ((exists e, outcome (copy_parts key size u n idxs parts s) = Raise e) /\
      (length (etags (output (copy_parts key size u n idxs parts s))) < length idxs)%nat)).
Proof.
  revert parts s. induction idxs as [|i idxs IH]; intros parts s.
  - exists []. cbn. rewrite app_nil_r. split; [done |]. split; [done |].
    split; [done |]. by left.
  - cbn [copy_parts]. unfold upload_part_copy, bind, request, logging.
    destruct (perform _ s) as [s1 [p | e]].
    2:{ exists [i]. cbn. split; [by exists idxs |]. split; [done |].
        split; [done |]. right. split; [by eexists | lia]. }
    destruct p;
      try (exists [i]; cbn; split; [by exists idxs |]; split; [done |];
           split; [done |]; right; split; [by eexists | lia]).
    cbn [ret].
    destruct (IH (parts ++ [{| ETag := etag; PartNumber := i + 1 |}]) s1)
      as (issued & Hpre & Hcalls & Hcompl & Hres).
    destruct (copy_parts key size u n idxs _ s1) as [[s2 o2] r2].
    unfold output, outcome in *. cbn [fst snd] in *.
    exists (i :: issued). split; [by apply prefix_cons |].
    split; [cbn; by rewrite <- Hcalls |]. split; [done |].
    destruct Hres as [(-> & -> & Hlen) | [[e ->] Hlen]].
    + left. cbn. rewrite <- app_assoc. split; [done |]. split; [done |].
      unfold etags in Hlen. by rewrite Hlen.
    + right. cbn. split; [by eexists |]. unfold etags in Hlen. lia.
Qed.

Lemma multipart_copy_output key size u (s s1 : St) q :
  perform (CreateMultipartUpload BUCKET_NAME key "STANDARD" "COPY") s
    = (s1, Ok (PUpload u)) ->
  int_truediv size PART_SIZE = Ok q ->
  exists tail,
    output (multipart_copy key size s) =
      [Logged INFO (MsgMultipartCopying key size);
       Called (CreateMultipartUpload BUCKET_NAME key "STANDARD" "COPY") (Ok (PUpload u))]
      ++ output (copy_parts key size u (math_ceil q) (seqZ 0 (math_ceil q)) [] s1)
      ++ tail /\
    part_calls tail = [] /\ etags tail = [] /\
    match outcome (copy_parts key size u (math_ceil q) (seqZ 0 (math_ceil q)) [] s1) with
    | Ok parts => completions tail = [parts]
    | Raise _ => completions tail = []
    end.
Proof.
  intros Hcreate Hq.
  unfold multipart_copy, bind at 1, logging at 1, bind at 1, attempt,
    create_multipart_upload, bind at 1, request.
  rewrite Hcreate. cbn [ret].
  unfold try_except, multipart_body, bind at 1, lift. rewrite Hq.
  unfold bind at 1.
  destruct (copy_parts key size u (math_ceil q) (seqZ 0 (math_ceil q)) [] s1)
    as [[s2 o2] [parts | e]].
  - unfold bind at 1, request. destruct (perform _ s2) as [s3 [p | e]].
    + cbn [logging]. eexists. unfold output, outcome. cbn [fst snd].
      split; [reflexivity |]. by cbn.
    + destruct (multipart_failed_quiet key (Some u) e s3) as [Hq3 _].
      unfold output in *.
      destruct (multipart_failed key (Some u) e s3) as [[s4 o4] r4]. cbn [fst snd] in *.
      exists ([Called (CompleteMultipartUpload BUCKET_NAME key u parts) (Raise e)] ++ o4).
      split; [cbn [app]; by rewrite <- app_assoc |].
      unfold part_calls, etags, completions, outcome. rewrite !omap_app. cbn.
      rewrite !omap_none; [done | | |];
        eapply Forall_impl; try exact Hq3; by intros x (? & ? & ?).
  - destruct (multipart_failed_quiet key (Some u) e s2) as [Hq3 _].
    unfold output in *.
    destruct (multipart_failed key (Some u) e s2) as [[s4 o4] r4]. cbn [fst snd] in *.
    exists o4. split; [cbn [app]; by rewrite ?app_nil_r |].
    unfold part_calls, etags, completions, outcome. cbn.
    rewrite !omap_none; [done | | |];
      eapply Forall_impl; try exact Hq3; by intros x (? & ? & ?).
Qed.
End MultipartParts.

Section MultipartClaims.
Context {St : Type} `{Service St}.

(** The range copies of a multipart copy, whatever the size: at most
    [math.ceil(size / PART_SIZE)] of them, for the first indices. *)
Lemma multipart_copy_parts key size u (s s1 : St) q :
  perform (CreateMultipartUpload BUCKET_NAME key "STANDARD" "COPY") s
    = (s1, Ok (PUpload u)) ->
  int_truediv size PART_SIZE = Ok q ->
  part_calls (output (multipart_copy key size s)) `prefix_of`
    (part_request key size u <$> seqZ 0 (math_ceil q)) /\
  ((completions (output (multipart_copy key size s)) = [] /\
    (length (etags (output (multipart_copy key size s)))
       < length (seqZ 0 (math_ceil q)))%nat) \/
   (part_calls (output (multipart_copy key size s)) =
      part_request key size u <$> seqZ 0 (math_ceil q) /\
    length (etags (output (multipart_copy key size s))) = length (seqZ 0 (math_ceil q)) /\
    completions (output (multipart_copy key size s)) =
      [zip_with part_entry (seqZ 0 (math_ceil q))
         (etags (output (multipart_copy key size s)))])).
Proof.
  intros Hcreate Hq.
  destruct (multipart_copy_output key size u s s1 q Hcreate Hq)
    as (tail & -> & Hpc & Het & Hcompl).
  destruct (copy_parts_run key size u (math_ceil q) (seqZ 0 (math_ceil q)) [] s1)
    as (issued & Hpre & Hcalls & Hnone & Hres).
  set (o := output (copy_parts key size u (math_ceil q) (seqZ 0 (math_ceil q)) [] s1)) in *.
  assert (part_calls ([Logged INFO (MsgMultipartCopying key size);
                       Called (CreateMultipartUpload BUCKET_NAME key "STANDARD" "COPY")
                              (Ok (PUpload u))] ++ o ++ tail)
          = part_request key size u <$> issued) as Hparts.
  { unfold part_calls in *. rewrite !omap_app, Hpc, Hcalls. cbn.
    by rewrite app_nil_r. }
  assert (etags ([Logged INFO (MsgMultipartCopying key size);
                  Called (CreateMultipartUpload BUCKET_NAME key "STANDARD" "COPY")
                         (Ok (PUpload u))] ++ o ++ tail)
          = etags o) as Hetags.
  { unfold etags in *. rewrite !omap_app, Het. cbn. by rewrite app_nil_r. }
  assert (completions ([Logged INFO (MsgMultipartCopying key size);
                        Called (CreateMultipartUpload BUCKET_NAME key "STANDARD" "COPY")
                               (Ok (PUpload u))] ++ o ++ tail)
          = completions tail) as Hcompls.
  { unfold completions in *. rewrite !omap_app, Hnone. by cbn. }
  rewrite Hparts, Hetags, Hcompls. split.
  - destruct Hpre as [rest ->]. rewrite fmap_app. by eexists.
  - destruct Hres as [(Hok & -> & Hlen) | [[e He] Hlen]].
    + right. rewrite Hok in Hcompl. cbn in Hcompl. by rewrite Hcompl.
    + left. rewrite He in Hcompl. done.
Qed.

(** When the creation is accepted.  For an object of S bytes, S at most
    2^25 * PART_SIZE, whose multipart upload was created: the part
    count n is the ceiling of S / PART_SIZE; part i (from 0) covers the
    bytes from i * PART_SIZE to min((i+1) * PART_SIZE - 1, S - 1),
    which is PART_SIZE bytes for every part but the last and ends at
    byte S - 1 for the last; the range copies are issued in order,
    with part numbers 1, 2, ...; and the upload is completed only
    after all n returned a tag, with the tags in that order and the
    part numbers 1..n. *)
Lemma multipart_parts key S u (s s1 : St) :
  0 <= S <= 2 ^ 25 * PART_SIZE ->
  perform (CreateMultipartUpload BUCKET_NAME key "STANDARD" "COPY") s
    = (s1, Ok (PUpload u)) ->
  let n := (S + PART_SIZE - 1) / PART_SIZE in
  let out := output (multipart_copy key S s) in
  (n * PART_SIZE - PART_SIZE < S <= n * PART_SIZE) /\
  (forall i, 0 <= i < n ->
     part_request key S u i =
       UploadPartCopy BUCKET_NAME key (i + 1) u BUCKET_NAME key
         (i * PART_SIZE) (Z.min ((i + 1) * PART_SIZE - 1) (S - 1)) /\
     (i < n - 1 ->
        Z.min ((i + 1) * PART_SIZE - 1) (S - 1) - i * PART_SIZE + 1 = PART_SIZE) /\
     (i = n - 1 -> Z.min ((i + 1) * PART_SIZE - 1) (S - 1) = S - 1)) /\
  part_calls out `prefix_of` (part_request key S u <$> seqZ 0 n) /\
  ((completions out = [] /\ (length (etags out) < Z.to_nat n)%nat) \/
   (part_calls out = part_request key S u <$> seqZ 0 n /\
    length (etags out) = Z.to_nat n /\
    completions out = [zip_with part_entry (seqZ 0 n) (etags out)])).
Proof.
  intros HS Hcreate n out.
  destruct (part_count_exact S HS) as (q & Hq & Hceil). fold n in Hceil.
  destruct PART_SIZE_bounds as [HC _].
  assert (0 < 2 ^ 28) as Hp28 by done.
  split.
  { pose proof (Z.div_mod (S + PART_SIZE - 1) PART_SIZE ltac:(lia)) as Hdiv.
    pose proof (Z.mod_pos_bound (S + PART_SIZE - 1) PART_SIZE ltac:(lia)) as Hmod.
    fold n in Hdiv. lia. }
  split.
  { intros i Hi. destruct (part_ranges S i ltac:(lia) Hi) as (Heq & _ & Hfull & Hlast).
    fold n in Hfull, Hlast. unfold part_request. rewrite Heq.
    split; [done |]. split; [by rewrite <- Heq | by rewrite <- Heq]. }
  destruct (multipart_copy_parts key S u s s1 q Hcreate Hq) as [Hpre Hres].
  rewrite Hceil, ?length_seqZ in *. done.
Qed.
End MultipartClaims.

Lemma multipart_parts_witness :
  let S := 6 * 1024 ^ 3 in
  let n := (S + PART_SIZE - 1) / PART_SIZE in
  let out := output (multipart_copy (H := bucket_service) "k" S []) in
  (n * PART_SIZE - PART_SIZE < S <= n * PART_SIZE) /\
  (forall i, 0 <= i < n ->
     part_request "k" S "upload-1" i =
       UploadPartCopy BUCKET_NAME "k" (i + 1) "upload-1" BUCKET_NAME "k"
         (i * PART_SIZE) (Z.min ((i + 1) * PART_SIZE - 1) (S - 1)) /\
     (i < n - 1 ->
        Z.min ((i + 1) * PART_SIZE - 1) (S - 1) - i * PART_SIZE + 1 = PART_SIZE) /\
     (i = n - 1 -> Z.min ((i + 1) * PART_SIZE - 1) (S - 1) = S - 1)) /\
  part_calls out `prefix_of` (part_request "k" S "upload-1" <$> seqZ 0 n) /\
  ((completions out = [] /\ (length (etags out) < Z.to_nat n)%nat) \/
   (part_calls out = part_request "k" S "upload-1" <$> seqZ 0 n /\
    length (etags out) = Z.to_nat n /\
    completions out = [zip_with part_entry (seqZ 0 n) (etags out)])).
Proof.
  apply (multipart_parts (H := bucket_service) "k" (6 * 1024 ^ 3) "upload-1" [] []).
  - split; [by vm_compute | by vm_compute].
  - reflexivity.
Defined.

(** Above that size the quotient is rounded: for an object of
    2^25 * PART_SIZE + 1 bytes the quotient rounds to 2^25, so at most
    2^25 parts are issued where the ceiling is 2^25 + 1, and no range
    reaches the last byte. *)
Lemma part_count_short_of_ceiling :
  let S := 2 ^ 25 * PART_SIZE + 1 in
  let out := output (multipart_copy (H := bucket_service) "k" S []) in
  (S + PART_SIZE - 1) / PART_SIZE = 2 ^ 25 + 1 /\
  Z.of_nat (length (part_calls out)) <= 2 ^ 25 /\
  Forall (fun c => match c with
                   | UploadPartCopy _ _ _ _ _ _ _ last_byte => last_byte < S - 1
                   | _ => False
                   end) (part_calls out).
Proof.
  intros S out. split; [by vm_compute |].
  assert (int_truediv S PART_SIZE = Ok {| fmant := 2 ^ 52; fexp := -27 |}) as Hq
    by (by vm_compute).
  assert (math_ceil {| fmant := 2 ^ 52; fexp := -27 |} = 2 ^ 25) as Hceil
    by (by vm_compute).
  destruct (multipart_copy_parts (H := bucket_service) "k" S "upload-1" [] [] _
              eq_refl Hq) as [[rest Hpre] _].
  fold out in Hpre. rewrite Hceil in Hpre. clearbody out.
  assert (exists issued, issued `prefix_of` seqZ 0 (2 ^ 25) /\
            part_calls out = part_request "k" S "upload-1" <$> issued)
    as (issued & Hissued & Heq).
  { exists (take (length (part_calls out)) (seqZ 0 (2 ^ 25))).
    split; [apply prefix_take |].
    rewrite fmap_take, Hpre, take_app_length. done. }
  rewrite Heq. clear Hpre Heq out.
  split.
  - rewrite length_fmap. apply prefix_length in Hissued.
    rewrite length_seqZ in Hissued.
    assert (0 <= 2 ^ 25) by done. 
    apply Nat2Z.inj_le in Hissued. rewrite Z2Nat.id in Hissued by done. exact Hissued.
  - apply Forall_fmap, Forall_forall. intros i Hi. unfold part_request, compose.
    destruct Hissued as [more Hmore].
    assert (i ∈ seqZ 0 (2 ^ 25)) as Hin by (rewrite Hmore; apply elem_of_app; by left).
    apply elem_of_seqZ in Hin. subst S.
    destruct PART_SIZE_bounds as [HC _]. assert (0 < 2 ^ 28) as Hp28 by done.
    assert (0 < 2 ^ 25) as Hp25 by done.
    generalize dependent (2 ^ 25). generalize dependent (2 ^ 28). generalize dependent (2^29).
    intros. nia.
Qed.

(** C4 (code bug). Behind a client that checks the arguments of a
    request, the multipart copy of any object ends at its first
    request: the creation is refused, the failure is logged and,
    [upload] never having been bound, so is the warning that the upload
    could not be aborted.  No range copy is issued and nothing is
    completed, for an object of 6 GiB as for any other, where the part
    count the function would compute for 6 GiB is 13. *)
Theorem refused_creation_copies_no_part (key : string) (size : Z) (b : list version) :
  multipart_copy (H := validating_service) key size b =
    (b,
     [Logged INFO (MsgMultipartCopying key size);
      Called (CreateMultipartUpload BUCKET_NAME key "STANDARD" "COPY")
             (Raise unknown_parameter);
      Logged ERROR (MsgMultipartFailed key unknown_parameter);
      Logged WARNING (MsgCouldNotAbort key)],
     Ok tt) /\
  part_calls (output (multipart_copy (H := validating_service) key size b)) = [] /\
  completions (output (multipart_copy (H := validating_service) key size b)) = [] /\
  match int_truediv (6 * 1024 ^ 3) PART_SIZE with
  | Ok q => math_ceil q = 13
  | Raise _ => False
  end.
Proof.
  assert (Hrun : multipart_copy (H := validating_service) key size b =
    (b,
     [Logged INFO (MsgMultipartCopying key size);
      Called (CreateMultipartUpload BUCKET_NAME key "STANDARD" "COPY")
             (Raise unknown_parameter);
      Logged ERROR (MsgMultipartFailed key unknown_parameter);
      Logged WARNING (MsgCouldNotAbort key)],
     Ok tt)) by reflexivity.
  rewrite Hrun. split; [done |]. split; [done |]. split; [done |]. by vm_compute.
Qed.

(** ** Restore polling *)

Lemma dict_set_fresh {V} (k : string) (v : V) (d : list (string * V)) :
  k ∉ d.*1 -> dict_set k v d = d ++ [(k, v)].
Proof.
  induction d as [|[k0 v0] d IH]; cbn; [done |].
  rewrite not_elem_of_cons. intros [Hne Hk].
  destruct (String.eqb k k0) eqn:E; [by apply String.eqb_eq in E |].
  by rewrite IH.
Qed.

Lemma dict_get_is_Some {V} (k : string) (d : list (string * V)) :
  k ∈ d.*1 -> exists v, dict_get k d = Some v.
Proof.
  intros Hk. destruct (dict_get k d) as [v|] eqn:E; [by exists v |].
  by apply dict_get_None in E.
Qed.

Lemma dict_mem_false {V} (k : string) (d : list (string * V)) :
  dict_mem k d = false <-> k ∉ d.*1.
Proof. rewrite <- dict_mem_true. by destruct (dict_mem k d). Qed.

(** A duplicate-free list inside another list that is no longer holds
    all of it. *)
Lemma full_of_length {A} (l1 l2 : list A) :
  NoDup l1 -> (forall x, x ∈ l1 -> x ∈ l2) -> (length l2 <= length l1)%nat ->
  forall x, x ∈ l2 -> x ∈ l1.
Proof.
  intros Hnd Hsub Hlen x Hx.
  pose proof (NoDup_submseteq _ _ Hnd Hsub) as Hms.
  apply submseteq_length_Permutation in Hms; [| done].
  by rewrite Hms.
Qed.

Section Run.
Context {St : Type} `{Service St}.

Lemma runs_bind {A B} (m : M A) (f : A -> M B) (s s1 s2 : St) a b :
  runs m s s1 a -> runs (f a) s1 s2 b -> runs (bind m f) s s2 b.
Proof.
  unfold runs. intros [<- Ha] [<- Hb]. unfold bind, final, outcome in *.
  destruct (m s) as [[s1' o1] r]; cbn in *. rewrite Ha.
  by destruct (f a s1') as [[s2' o2] r2].
Qed.

Lemma runs_ret {A} (a : A) (s : St) : runs (ret a) s s a.
Proof. done. Qed.

Lemma runs_logging l m (s : St) : runs (logging l m) s s tt.
Proof. done. Qed.

Lemma outcome_bind_runs {A B} (m : M A) (f : A -> M B) (s s1 : St) a :
  runs m s s1 a -> outcome (bind m f s) = outcome (f a s1).
Proof.
  unfold runs. intros [<- Ha]. unfold bind, final, outcome in *.
  destruct (m s) as [[s1' o1] r]; cbn in *. rewrite Ha.
  by destruct (f a s1') as [[s2' o2] r2].
Qed.
End Run.

Section Polling.
Variable stream : string -> nat -> result payload.

Abbreviation polling := (poll_service stream).

Lemma poll_key_skip key restored polls :
  dict_mem key restored = true ->
  runs (poll_key (H := polling) key restored) polls polls restored.
Proof. intros Hm. unfold poll_key. rewrite Hm. done. Qed.

(** One status check: the key is recorded, with the size of that very
    response, exactly when the response shows a completed restore. *)
Lemma poll_key_check key restored polls :
  dict_mem key restored = false ->
  runs (poll_key (H := polling) key restored) polls (checked key polls)
    (if completed (stream key (polls key))
     then dict_set key (size_of (stream key (polls key))) restored
     else restored).
Proof.
  intros Hm. unfold poll_key. rewrite Hm.
  unfold runs, try_except, head_object, bind, request, logging, ret, raise,
    final, outcome.
  cbn [perform poll_service poll_perform].
  destruct (stream key (polls key)) as [[ | | h | | | ] | e];
    cbn -[ONGOING_FALSE]; try done.
  by destruct (restore_has ONGOING_FALSE h).
Qed.

Lemma recorded_keys key v (restored : list (string * Z)) k :
  key ∉ restored.*1 ->
  k ∈ (dict_set key v restored).*1 <-> k ∈ restored.*1 \/ k = key.
Proof.
  intros Hfresh. rewrite (dict_set_fresh _ _ _ Hfresh), fmap_app, elem_of_app.
  cbn. by rewrite list_elem_of_singleton.
Qed.

Lemma recorded_NoDup key v (restored : list (string * Z)) :
  key ∉ restored.*1 -> NoDup restored.*1 -> NoDup (dict_set key v restored).*1.
Proof.
  intros Hfresh Hnd. rewrite (dict_set_fresh _ _ _ Hfresh), fmap_app.
  apply NoDup_app. split; [done |]. split; [| apply NoDup_singleton].
  intros x Hx ->%list_elem_of_singleton. done.
Qed.

(** One sweep, whatever the key list: the recorded keys stay
    confirmed, and none is forgotten. *)
Lemma sweep_confirmed keys ks restored polls :
  (forall k, k ∈ ks -> k ∈ keys) ->
  confirmed stream keys restored ->
  exists polls' restored',
    runs (sweep (H := polling) ks restored) polls polls' restored' /\
    confirmed stream keys restored' /\
    (forall k, k ∈ restored.*1 -> k ∈ restored'.*1).
Proof.
  revert restored polls. induction ks as [|k0 ks IH]; intros restored polls Hsub Hconf.
  - exists polls, restored. split; [apply runs_ret |]. split; [exact Hconf | auto].
  - cbn [sweep]. destruct (dict_mem k0 restored) eqn:Hm.
    + destruct (IH restored polls) as (polls' & restored' & Hrun & Hconf' & Hmono);
        [intros; apply Hsub; by right | done |].
      exists polls', restored'. split; [| done].
      eapply runs_bind; [by apply poll_key_skip | exact Hrun].
    + pose proof (poll_key_check k0 restored polls Hm) as Hcheck.
      apply dict_mem_false in Hm.
      set (restored1 := if completed (stream k0 (polls k0))
                        then dict_set k0 (size_of (stream k0 (polls k0))) restored
                        else restored) in *.
      assert (confirmed stream keys restored1 /\
              forall k, k ∈ restored.*1 -> k ∈ restored1.*1) as [Hconf1 Hmono1].
      { subst restored1. destruct (completed (stream k0 (polls k0))) eqn:Hc; [| done].
        destruct Hconf as [Hnd Hall]. split; [split |].
        - by apply recorded_NoDup.
        - intros k v. rewrite dict_get_set. destruct (String.eqb k k0) eqn:E.
          + apply String.eqb_eq in E as ->. intros [= <-].
            split; [apply Hsub; left | by exists (polls k0)].
          + apply Hall.
        - intros k Hk. apply recorded_keys; auto. }
      destruct (IH restored1 (checked k0 polls)) as (polls' & restored' & Hrun & Hconf' & Hmono);
        [intros; apply Hsub; by right | done |].
      exists polls', restored'.
      split; [eapply runs_bind; [exact Hcheck | exact Hrun] |]. split; [done | auto].
Qed.

(** The loop returns a mapping only when it holds every candidate,
    each confirmed by a completed check; it never raises. *)
Lemma wait_loop_confirmed keys fuel restored polls :
  confirmed stream keys restored ->
  exists polled,
    outcome (wait_loop (H := polling) fuel keys restored polls) = Ok polled /\
    forall restored', polled = Some restored' ->
      confirmed stream keys restored' /\ (length keys <= length restored')%nat.
Proof.
  revert restored polls. induction fuel as [|fuel IH]; intros restored polls Hconf;
    cbn [wait_loop]; destruct (length restored <? length keys)%nat eqn:Hlen.
  - exists None. by split.
  - exists (Some restored). apply Nat.ltb_ge in Hlen. split; [done |]. by intros ? [= <-].
  - destruct (sweep_confirmed keys keys restored polls) as
      (polls' & restored' & Hrun & Hconf' & _); [done | done |].
    rewrite (outcome_bind_runs _ _ _ _ _ Hrun).
    rewrite (outcome_bind_runs _ _ _ polls' tt (runs_logging _ _ _)).
    destruct (IH restored' polls' Hconf') as (polled & Hout & Hres).
    exists polled. split; [| done].
    rewrite (outcome_bind_runs _ _ _ polls' tt); [exact Hout |].
    destruct (length restored' <? length keys)%nat; by split.
  - exists (Some restored). apply Nat.ltb_ge in Hlen. split; [done |]. by intros ? [= <-].
Qed.

(** One sweep over candidates without duplicates: every key still
    unrestored gets exactly one more check. *)
Lemma sweep_pending j ks restored polls :
  NoDup ks -> NoDup restored.*1 -> captured stream restored ->
  (forall k, k ∈ ks -> pending stream j polls restored k) ->
  exists polls' restored',
    runs (sweep (H := polling) ks restored) polls polls' restored' /\
    NoDup restored'.*1 /\ captured stream restored' /\
    (forall k, k ∈ ks -> pending stream (S j) polls' restored' k) /\
    (forall k, k ∉ ks -> polls' k = polls k) /\
    (forall k, k ∈ restored'.*1 -> k ∈ restored.*1 \/ k ∈ ks) /\
    (forall k, k ∈ restored.*1 -> k ∈ restored'.*1).
Proof.
  revert restored polls.
  induction ks as [|k0 ks IH]; intros restored polls Hks Hnd Hcap Hpend.
  - exists polls, restored. split; [apply runs_ret |].
    split; [done |]. split; [done |]. split; [by intros k ?%elem_of_nil |].
    split; [done |]. split; [auto | auto].
  - apply NoDup_cons in Hks as [Hk0 Hks]. cbn [sweep].
    destruct (dict_mem k0 restored) eqn:Hm.
    + destruct (IH restored polls Hks Hnd Hcap)
        as (polls' & restored' & Hrun & Hnd' & Hcap' & Hpend' & Hsame & Hnew & Hmono).
      { intros k Hk. apply Hpend. by right. }
      exists polls', restored'.
      split; [eapply runs_bind; [by apply poll_key_skip | exact Hrun] |].
      split; [done |]. split; [done |]. apply dict_mem_true in Hm.
      split; [| split; [| split; [| done]]].
      * intros k [-> | Hk]%elem_of_cons; [| auto]. intros Hnot. by destruct Hnot; auto.
      * intros k [Hne Hk]%not_elem_of_cons. auto.
      * intros k Hk. destruct (Hnew k Hk); [by left | right; by right].
    + pose proof (poll_key_check k0 restored polls Hm) as Hcheck.
      apply dict_mem_false in Hm.
      destruct (Hpend k0 ltac:(left) Hm) as [Hj Hbefore].
      rewrite Hj in Hcheck.
      set (restored1 := if completed (stream k0 j)
                        then dict_set k0 (size_of (stream k0 j)) restored
                        else restored) in *.
      assert (NoDup restored1.*1 /\ captured stream restored1 /\
              (forall k, k ∈ restored.*1 -> k ∈ restored1.*1) /\
              (forall k, k ∈ restored1.*1 ->
                 k ∈ restored.*1 \/ (k = k0 /\ completed (stream k0 j) = true)))
        as (Hnd1 & Hcap1 & Hmono1 & Hnew1).
      { subst restored1. destruct (completed (stream k0 j)) eqn:Hc;
          [| by repeat split; auto].
        split; [by apply recorded_NoDup |]. split; [| split].
        - intros k v. rewrite dict_get_set. destruct (String.eqb k k0) eqn:E; [| apply Hcap].
          apply String.eqb_eq in E as ->. intros [= <-]. by exists j.
        - intros k Hk. apply recorded_keys; auto.
        - intros k Hk. apply recorded_keys in Hk as [Hk | ->]; auto. }
      destruct (IH restored1 (checked k0 polls) Hks Hnd1 Hcap1)
        as (polls' & restored' & Hrun & Hnd' & Hcap' & Hpend' & Hsame & Hnew & Hmono).
      { intros k Hk Hnot.
        assert (k <> k0) as Hne by (by intros ->).
        destruct (Hpend k ltac:(by right) ltac:(auto)) as [Hpk Hbk].
        split; [| done]. unfold checked.
        by apply String.eqb_neq in Hne as ->. }
      exists polls', restored'.
      split; [eapply runs_bind; [exact Hcheck | exact Hrun] |].
      split; [done |]. split; [done |].
      split; [| split; [| split; [| auto]]].
      * intros k [-> | Hk]%elem_of_cons; [| auto]. intros Hnot.
        rewrite (Hsame k0 Hk0). unfold checked. rewrite String.eqb_refl, Hj.
        split; [done |]. intros n Hn.
        destruct (decide (n = j)) as [-> | Hnj]; [| apply Hbefore; lia].
        destruct (completed (stream k0 j)) eqn:Hc; [| done].
        exfalso. apply Hnot, Hmono. subst restored1. cbn.
        apply recorded_keys; auto.
      * intros k [Hne Hk]%not_elem_of_cons. rewrite (Hsame k Hk). unfold checked.
        by apply String.eqb_neq in Hne as ->.
      * intros k Hk. destruct (Hnew k Hk) as [Hk1 | Hk1]; [| right; by right].
        destruct (Hnew1 k Hk1) as [? | [-> _]]; [by left | right; left].
Qed.

(** With every candidate's restore completed by its [N]-th check, the
    loop is done after at most [N] sweeps. *)
Lemma wait_loop_terminates keys N fuel j restored polls :
  NoDup keys ->
  (forall k, k ∈ keys -> exists n, (n < N)%nat /\ completed (stream k n) = true) ->
  NoDup restored.*1 -> captured stream restored ->
  (forall k, k ∈ restored.*1 -> k ∈ keys) ->
  (forall k, k ∈ keys -> pending stream j polls restored k) ->
  (N <= j + fuel)%nat ->
  exists restored',
    outcome (wait_loop (H := polling) fuel keys restored polls) = Ok (Some restored') /\
    captured stream restored' /\
    (forall k, k ∈ keys <-> k ∈ restored'.*1).
Proof.
  intros Hkeys HN. revert j restored polls.
  induction fuel as [|fuel IH]; intros j restored polls Hnd Hcap Hsub Hpend Hfuel.
  all: cbn [wait_loop]; destruct (length restored <? length keys)%nat eqn:Hlen.
  all: try (apply Nat.ltb_ge in Hlen; exists restored; split; [done |];
            split; [done |]; intros k; split; [| by auto];
            apply full_of_length; rewrite ?length_fmap; done).
  - apply Nat.ltb_lt in Hlen. exfalso.
    assert (forall k, k ∈ keys -> k ∈ restored.*1) as Hall.
    { intros k Hk. destruct (decide (k ∈ restored.*1)) as [|Hnot]; [done |].
      destruct (Hpend k Hk Hnot) as [_ Hbefore].
      destruct (HN k Hk) as (n & Hn & Hc). rewrite Hbefore in Hc by lia. done. }
    pose proof (submseteq_length _ _ (NoDup_submseteq _ _ Hkeys Hall)) as Hle.
    rewrite length_fmap in Hle. lia.
  - destruct (sweep_pending j keys restored polls Hkeys Hnd Hcap Hpend)
      as (polls' & restored' & Hrun & Hnd' & Hcap' & Hpend' & _ & Hnew & _).
    rewrite (outcome_bind_runs _ _ _ _ _ Hrun).
    rewrite (outcome_bind_runs _ _ _ polls' tt (runs_logging _ _ _)).
    assert (N <= S j + fuel)%nat as Hfuel'.
    { destruct (decide (N <= j)%nat) as [Hle |]; [| lia]. lia. }
    destruct (IH (S j) restored' polls' Hnd' Hcap') as (final_map & Hout & Hres); auto.
    { intros k Hk. destruct (Hnew k Hk); auto. }
    exists final_map. split; [| done].
    rewrite (outcome_bind_runs _ _ _ polls' tt); [exact Hout |].
    destruct (length restored' <? length keys)%nat; by split.
Qed.

Lemma completed_bound (keys : list string) :
  (forall k, k ∈ keys -> exists n, completed (stream k n) = true) ->
  exists N, forall k, k ∈ keys -> exists n, (n < N)%nat /\ completed (stream k n) = true.
Proof.
  induction keys as [|k0 keys IH]; intros Hall.
  - exists O. by intros k ?%elem_of_nil.
  - destruct IH as [N HN]; [intros; apply Hall; by right |].
    destruct (Hall k0 ltac:(left)) as [n0 Hn0].
    exists (Nat.max N (S n0)). intros k [-> | Hk]%elem_of_cons.
    + exists n0. split; [lia | done].
    + destruct (HN k Hk) as (n & Hn & Hc). exists n. split; [lia | done].
Qed.

(** C5. The polling loop has no bound of its own.  For candidates
    without duplicates each of whose restores is reported completed
    at some status check, the loop ends, for every iteration
    allowance from some number of sweeps on, and returns a mapping
    whose keys are the candidates, each with the size read off the
    first check that showed its restore completed.  Whenever the loop
    returns, every candidate was seen completed and is in the mapping
    with the size of that check.  When some candidate is never
    reported completed, the loop is still running after any number
    of sweeps. *)
Theorem restore_polling (keys : list string) :
  (NoDup keys ->
   (forall k, k ∈ keys -> exists n, completed (stream k n) = true) ->
   exists sweeps, forall fuel, (sweeps <= fuel)%nat ->
     exists restored,
       outcome (wait_for_restore (H := polling) fuel keys (fun _ => O))
         = Ok (Some restored) /\
       (forall k, k ∈ keys <-> k ∈ restored.*1) /\
       (forall k, k ∈ keys ->
          exists n, first_completed stream k n /\
                    dict_get k restored = Some (size_of (stream k n)))) /\
  (forall fuel restored,
     outcome (wait_for_restore (H := polling) fuel keys (fun _ => O))
       = Ok (Some restored) ->
     forall k, k ∈ keys ->
       exists n, completed (stream k n) = true /\
                 dict_get k restored = Some (size_of (stream k n))) /\
  ((exists k, k ∈ keys /\ forall n, completed (stream k n) = false) ->
   forall fuel,
     outcome (wait_for_restore (H := polling) fuel keys (fun _ => O)) = Ok None).
Proof.
  assert (Hstart : forall fuel,
    outcome (wait_for_restore (H := polling) fuel keys (fun _ => O)) =
    outcome (wait_loop (H := polling) fuel keys [] (fun _ => O))).
  { intros fuel. unfold wait_for_restore.
    exact (outcome_bind_runs (logging INFO MsgWaiting)
             (fun _ => wait_loop (H := polling) fuel keys []) _ _ tt
             (runs_logging _ _ _)). }
  assert (Hempty : confirmed stream keys []).
  { split; [constructor | by intros k v [=]]. }
  assert (Hreturned : forall fuel restored,
    outcome (wait_for_restore (H := polling) fuel keys (fun _ => O))
      = Ok (Some restored) ->
    forall k, k ∈ keys ->
      exists n, completed (stream k n) = true /\
                dict_get k restored = Some (size_of (stream k n))).
  { intros fuel restored Hout k Hk. rewrite Hstart in Hout.
    destruct (wait_loop_confirmed keys fuel [] (fun _ => O) Hempty)
      as (polled & Hout' & Hres).
    rewrite Hout in Hout'. injection Hout' as <-.
    destruct (Hres restored eq_refl) as [[Hnd Hall] Hlen].
    assert (k ∈ restored.*1) as Hin.
    { apply (full_of_length restored.*1 keys); [done | | by rewrite length_fmap | done].
      intros x Hx. apply dict_get_is_Some in Hx as [v Hv]. by apply (Hall x v). }
    apply dict_get_is_Some in Hin as [v Hv].
    destruct (Hall k v Hv) as [_ (n & Hc & ->)]. by exists n. }
  split; [| split; [exact Hreturned |]].
  - intros Hkeys Hall. destruct (completed_bound keys Hall) as [N HN].
    exists N. intros fuel Hfuel.
    assert (NoDup ([] : list (string * Z)).*1) as Hnd0 by constructor.
    assert (captured stream []) as Hcap0 by (by intros k v [=]).
    assert (forall k, k ∈ ([] : list (string * Z)).*1 -> k ∈ keys) as Hsub0
      by (by intros k ?%elem_of_nil).
    assert (forall k, k ∈ keys -> pending stream O (fun _ => O) [] k) as Hpend0.
    { intros k Hk _. split; [done | intros n Hn; lia]. }
    destruct (wait_loop_terminates keys N fuel O [] (fun _ => O)
                Hkeys HN Hnd0 Hcap0 Hsub0 Hpend0 Hfuel)
      as (restored & Hout & Hcap & Hdom).
    exists restored. rewrite Hstart. split; [done |]. split; [done |].
    intros k Hk. apply Hdom, dict_get_is_Some in Hk as [v Hv].
    destruct (Hcap k v Hv) as (n & Hfirst & ->). by exists n.
  - intros (k & Hk & Hnever) fuel.
    destruct (wait_loop_confirmed keys fuel [] (fun _ => O) Hempty)
      as (polled & Hout & _).
    rewrite Hstart, Hout. destruct polled as [restored|]; [| done].
    rewrite <- Hstart in Hout.
    destruct (Hreturned fuel restored Hout k Hk) as (n & Hc & _).
    by rewrite Hnever in Hc.
Qed.
End Polling.

(** A run of the loop: ["a"] is restored at its second check, ["b"] at
    its fourth, after three failed checks. *)
Example wait_for_restore_sample :
  outcome (wait_for_restore (H := poll_service stream_restoring) 4 ["a"; "b"] (fun _ => O))
    = Ok (Some [("a", 10); ("b", 20)]) /\
  outcome (wait_for_restore (H := poll_service stream_restoring) 3 ["a"; "b"] (fun _ => O))
    = Ok None /\
  outcome (wait_for_restore (H := poll_service stream_stalled) 50 ["a"; "b"] (fun _ => O))
    = Ok None.
Proof. by vm_compute. Qed.

Lemma restore_polling_witness :
  (exists sweeps, forall fuel, (sweeps <= fuel)%nat ->
     exists restored,
       outcome (wait_for_restore (H := poll_service stream_restoring) fuel ["a"; "b"]
                  (fun _ => O)) = Ok (Some restored) /\
       (forall k, k ∈ ["a"; "b"] <-> k ∈ restored.*1) /\
       (forall k, k ∈ ["a"; "b"] ->
          exists n, first_completed stream_restoring k n /\
                    dict_get k restored = Some (size_of (stream_restoring k n)))) /\
  (forall fuel,
     outcome (wait_for_restore (H := poll_service stream_stalled) fuel ["a"; "b"]
                (fun _ => O)) = Ok None).
Proof.
  split.
  - apply (restore_polling stream_restoring ["a"; "b"]).
    + repeat constructor; rewrite ?elem_of_cons, ?elem_of_nil; intros Hin;
        decompose [or] Hin; done.
    + intros k Hk. rewrite !elem_of_cons, elem_of_nil in Hk.
      destruct Hk as [-> | [-> | []]]; [by exists 1%nat | by exists 3%nat].
  - apply (restore_polling stream_stalled ["a"; "b"]).
    exists "b". split; [in_list |]. intros n. reflexivity.
Defined.

(** ** The controller *)

Lemma scan_contents_order (objs : list s3_object) (acc : list string) :
  scan_contents objs acc =
  acc ++ flat_map (fun obj => if is_glacier (StorageClass obj) then [Key obj] else []) objs.
Proof.
  revert acc. induction objs as [|obj objs IH]; intros acc; cbn [scan_contents flat_map].
  - by rewrite app_nil_r.
  - rewrite IH. destruct (is_glacier (StorageClass obj)); [| done].
    by rewrite <- app_assoc.
Qed.

Lemma scan_pages_order (pages : list page) (acc : list string) :
  scan_pages pages acc = acc ++ glacier_keys_of pages.
Proof.
  revert acc. induction pages as [|p pages IH]; intros acc; cbn [scan_pages].
  - unfold glacier_keys_of. cbn. by rewrite app_nil_r.
  - rewrite IH, scan_contents_order. unfold glacier_keys_of. cbn [flat_map].
    by rewrite <- app_assoc.
Qed.

Section Controller.
Context {St : Type} `{Service St}.

Lemma outcome_bind {A B} (m : M A) (f : A -> M B) (s : St) :
  outcome (bind m f s) =
  match outcome (m s) with
  | Ok a => outcome (f a (final (m s)))
  | Raise e => Raise e
  end.
Proof.
  unfold bind, outcome, final.
  destruct (m s) as [[s1 o1] [a | e]]; simpl; [| done].
  by destruct (f a s1) as [[s2 o2] r].
Qed.

Lemma final_bind {A B} (m : M A) (f : A -> M B) (s : St) :
  final (bind m f s) =
  match outcome (m s) with
  | Ok a => final (f a (final (m s)))
  | Raise e => final (m s)
  end.
Proof.
  unfold bind, outcome, final.
  destruct (m s) as [[s1 o1] [a | e]]; simpl; [| done].
  by destruct (f a s1) as [[s2 o2] r].
Qed.

Lemma try_except_total {A} (m : M A) (h : exn -> M A) (s : St) :
  (forall e s', exists a, outcome (h e s') = Ok a) ->
  exists a, outcome (try_except m h s) = Ok a.
Proof.
  intros Hh. unfold try_except, outcome.
  destruct (m s) as [[s1 o1] [a | e]]; cbn; [by exists a |].
  destruct (Hh e s1) as [a Ha]. unfold outcome in Ha.
  destruct (h e s1) as [[s2 o2] r]. by exists a.
Qed.

Lemma poll_key_total key restored (s : St) :
  exists r, outcome (poll_key key restored s) = Ok r.
Proof.
  unfold poll_key. destruct (dict_mem key restored); [by exists restored |].
  apply try_except_total. intros e s'. by exists restored.
Qed.

Lemma sweep_total keys restored (s : St) :
  exists r, outcome (sweep keys restored s) = Ok r.
Proof.
  revert restored s. induction keys as [|key keys IH]; intros restored s; cbn [sweep].
  - by exists restored.
  - rewrite outcome_bind. destruct (poll_key_total key restored s) as [r ->]. apply IH.
Qed.

Lemma wait_loop_total fuel keys restored (s : St) :
  exists polled, outcome (wait_loop fuel keys restored s) = Ok polled.
Proof.
  revert restored s. induction fuel as [|fuel IH]; intros restored s; cbn [wait_loop];
    destruct (length restored <? length keys)%nat; try by eexists.
  rewrite outcome_bind. destruct (sweep_total keys restored s) as [r ->].
  rewrite outcome_bind. cbn [logging outcome snd].
  rewrite outcome_bind.
  assert (outcome ((if (length r <? length keys)%nat then time_sleep 60 else ret tt)
                     (final (logging INFO (MsgProgress (length r) (length keys))
                                     (final (sweep keys restored s))))) = Ok tt) as ->.
  { by destruct (length r <? length keys)%nat. }
  apply IH.
Qed.

Lemma transition_to_standard_ok restored (s : St) :
  outcome (transition_to_standard restored s) = Ok tt.
Proof.
  unfold transition_to_standard. rewrite outcome_bind. cbn [logging outcome snd].
  apply for_each_ok. intros item s'. apply transition_key_ok.
Qed.

Lemma initiate_restore_ok keys (s : St) : outcome (initiate_restore keys s) = Ok tt.
Proof. apply for_each_ok, initiate_restore_key_ok. Qed.

(** X3. The candidates are the keys of the GLACIER objects in listing
    order, page by page and object by object, appended to what was
    collected before; the count that is logged is their number. *)
Theorem candidates_in_listing_order :
  (forall pages acc, scan_pages pages acc = acc ++ glacier_keys_of pages) /\
  (forall (s : St) keys,
     outcome (get_glacier_objects s) = Ok keys ->
     exists pages,
       (perform (ListObjectsV2 BUCKET_NAME) s).2 = Ok (PPages pages) /\
       keys = glacier_keys_of pages /\
       Logged INFO (MsgFound (length (glacier_keys_of pages)))
         ∈ output (get_glacier_objects s)).
Proof.
  split; [apply scan_pages_order |].
  intros s keys Hok. destruct (get_glacier_objects_run s) as (s1 & r & Hp & Hrun).
  rewrite Hp. cbn [snd].
  destruct r as [[ | pages | | | | ] | e]; rewrite Hrun in Hok |- *;
    cbn [outcome snd] in Hok; try done.
  injection Hok as <-. exists pages. rewrite scan_pages_order. cbn [app].
  split; [done |]. split; [done |]. cbn [output fst snd]. do 2 right. left.
Qed.

(** X1. When the listing succeeds and none of the listed objects is in
    class GLACIER, [main] logs the start, the scan, a count of zero and
    that nothing was found, and returns: the listing is its only
    request and the state is the one the listing left. *)
Theorem nothing_to_migrate fuel (s s1 : St) pages :
  perform (ListObjectsV2 BUCKET_NAME) s = (s1, Ok (PPages pages)) ->
  (forall p obj, p ∈ pages -> obj ∈ default [] (Contents p) ->
                 StorageClass obj <> Some "GLACIER") ->
  main fuel s =
    (s1,
     [Logged INFO (MsgStarting BUCKET_NAME);
      Logged INFO MsgScanning;
      Called (ListObjectsV2 BUCKET_NAME) (Ok (PPages pages));
      Logged INFO (MsgFound 0);
      Logged INFO MsgNoGlacier],
     Ok (Some tt)).
Proof.
  intros Hp Hnone.
  assert (scan_pages pages [] = []) as Hempty.
  { destruct (scan_pages pages []) as [|k ks] eqn:E; [done |]. exfalso.
    assert (k ∈ scan_pages pages []) as Hk by (rewrite E; left).
    apply scan_pages_elem in Hk as [Hk | (p & obj & Hpin & Ho & _ & Hg)].
    - by apply elem_of_nil in Hk.
    - by apply (Hnone p obj). }
  destruct (get_glacier_objects_run s) as (s1' & r & Hp' & Hrun).
  rewrite Hp in Hp'. injection Hp' as <- <-. rewrite Hempty in Hrun.
  unfold main, bind at 1, logging at 1, bind at 1. rewrite Hrun. done.
Qed.

(** X2. [main] raises only from the listing.  An exception of the
    listing request ends the run with that exception and without any
    other request; once the listing has returned its pages the run ends
    normally (or is still polling when the fuel is used up), whatever
    the later requests answer. *)
Theorem main_raises_only_from_listing fuel (s : St) :
  match (perform (ListObjectsV2 BUCKET_NAME) s).2 with
  | Raise e =>
      outcome (main fuel s) = Raise e /\
      calls (output (main fuel s)) = [ListObjectsV2 BUCKET_NAME]
  | Ok (PPages _) => exists result, outcome (main fuel s) = Ok result
  | Ok _ => outcome (main fuel s) = Raise (KeyError "Contents")
  end.
Proof.
  destruct (get_glacier_objects_run s) as (s1 & r & Hp & Hrun).
  rewrite Hp. cbn [snd]. unfold main.
  rewrite output_bind, outcome_bind. cbn [logging output outcome final fst snd].
  rewrite output_bind, outcome_bind.
  destruct r as [[ | pages | | | | ] | e]; rewrite Hrun;
    cbn [output outcome final fst snd]; try done.
  destruct (scan_pages pages []) as [|k0 ks]; [by eexists |].
  rewrite outcome_bind, initiate_restore_ok, outcome_bind.
  unfold wait_for_restore at 1. rewrite outcome_bind. cbn [logging outcome snd].
  match goal with
  | |- context [outcome (wait_loop ?f ?k ?r ?st)] =>
      destruct (wait_loop_total f k r st) as [polled ->]
  end.
  destruct polled as [restored|]; [| by eexists].
  rewrite outcome_bind, transition_to_standard_ok, outcome_bind. by eexists.
Qed.
End Controller.

Lemma nothing_to_migrate_witness :
  main (H := scenario_service) 3 scenario_standard_only =
    (scenario_standard_only,
     [Logged INFO (MsgStarting BUCKET_NAME);
      Logged INFO MsgScanning;
      Called (ListObjectsV2 BUCKET_NAME)
             (Ok (PPages [{| Contents := Some [{| Key := "doc";
                                                  StorageClass := Some "STANDARD" |}] |}]));
      Logged INFO (MsgFound 0);
      Logged INFO MsgNoGlacier],
     Ok (Some tt)).
Proof.
  apply (nothing_to_migrate (H := scenario_service) 3
           scenario_standard_only scenario_standard_only).
  - reflexivity.
  - intros p obj Hp Hobj. apply list_elem_of_singleton in Hp as ->.
    cbn in Hobj. apply list_elem_of_singleton in Hobj as ->. done.
Defined.

(** ** Aborting a failed multipart copy, and the requests of the cleanup *)

Section MultipartAbort.
Context {St : Type} `{Service St}.

Lemma copy_parts_no_abort key size u n idxs parts :
  sat (fun e => abort_of e = None /\ e <> Logged INFO (MsgCompletedMultipart key))
      (fun _ => True) (copy_parts key size u n idxs parts).
Proof.
  revert parts. induction idxs as [|i idxs IH]; intros parts; cbn [copy_parts].
  - by apply sat_ret.
  - eapply sat_bind; [apply sat_upload_part_copy; by intros r |].
    intros etag _. eapply sat_bind; [by apply sat_logging |].
    intros _ _. apply IH.
Qed.

Lemma multipart_failed_created key u e (s : St) :
  aborts (output (multipart_failed key (Some u) e s)) =
    [AbortMultipartUpload BUCKET_NAME key u] /\
  (Logged INFO (MsgCompletedMultipart key) ∉ output (multipart_failed key (Some u) e s)).
Proof.
  unfold multipart_failed, try_except, bind, request, logging, ret, output.
  destruct (perform _ s) as [s1 [p | e1]]; cbn.
  - split; [done |]. rewrite !not_elem_of_cons. repeat split; try done. apply not_elem_of_nil.
  - split; [done |]. rewrite !not_elem_of_cons. repeat split; try done. apply not_elem_of_nil.
Qed.

(** X4. [multipart_copy] never raises.  Once the upload has been
    created, its output either holds the completion log line and no
    abort request, or no completion line and exactly one abort request,
    for this key and the upload id that was returned.  When the
    creation itself fails no abort request and no part copy is made,
    and the warning that the upload could not be aborted is logged
    (the handler reads [upload], which was never bound). *)
Theorem multipart_abort key size (s : St) :
  outcome (multipart_copy key size s) = Ok tt /\
  match (perform (CreateMultipartUpload BUCKET_NAME key "STANDARD" "COPY") s).2 with
  | Ok (PUpload u) =>
      (Logged INFO (MsgCompletedMultipart key) ∈ output (multipart_copy key size s) /\
       aborts (output (multipart_copy key size s)) = []) \/
      ((Logged INFO (MsgCompletedMultipart key) ∉ output (multipart_copy key size s)) /\
       aborts (output (multipart_copy key size s)) =
         [AbortMultipartUpload BUCKET_NAME key u])
  | _ =>
      aborts (output (multipart_copy key size s)) = [] /\
      part_calls (output (multipart_copy key size s)) = [] /\
      Logged WARNING (MsgCouldNotAbort key) ∈ output (multipart_copy key size s)
  end.
Proof.
  split; [apply multipart_copy_ok |].
  destruct (perform (CreateMultipartUpload BUCKET_NAME key "STANDARD" "COPY") s)
    as [s1 r] eqn:Hcreate. cbn [snd].
  assert (Hfailed :
    (forall u, r <> Ok (PUpload u)) ->
    output (multipart_copy key size s) =
      [Logged INFO (MsgMultipartCopying key size);
       Called (CreateMultipartUpload BUCKET_NAME key "STANDARD" "COPY") r;
       Logged ERROR (MsgMultipartFailed key
                       match r with Ok _ => KeyError "UploadId" | Raise e => e end);
       Logged WARNING (MsgCouldNotAbort key)]).
  { intros Hnot.
    unfold multipart_copy, multipart_failed, create_multipart_upload, attempt,
      try_except, bind, request, logging, raise, ret, output.
    rewrite Hcreate. destruct r as [[ | | | u | | ] | e']; try done.
    by destruct (Hnot u). }
  destruct r as [[ | | | u | | ] | e];
    try (rewrite Hfailed by done; cbn; repeat split; try done; do 3 right; left).
  clear Hfailed.
  assert (output (multipart_copy key size s) =
            [Logged INFO (MsgMultipartCopying key size);
             Called (CreateMultipartUpload BUCKET_NAME key "STANDARD" "COPY")
                    (Ok (PUpload u))]
            ++ output (try_except (multipart_body key size u)
                                  (multipart_failed key (Some u)) s1)) as ->.
  { unfold multipart_copy, bind at 1, logging at 1, bind at 1, attempt,
      create_multipart_upload, bind at 1, request, output.
    rewrite Hcreate. cbn [ret].
    by destruct (try_except _ _ s1) as [[s2 o2] r2]. }
  assert (Hlift : forall o,
    (Logged INFO (MsgCompletedMultipart key) ∈ o /\ aborts o = []) \/
    ((Logged INFO (MsgCompletedMultipart key) ∉ o) /\
     aborts o = [AbortMultipartUpload BUCKET_NAME key u]) ->
    (Logged INFO (MsgCompletedMultipart key)
       ∈ [Logged INFO (MsgMultipartCopying key size);
          Called (CreateMultipartUpload BUCKET_NAME key "STANDARD" "COPY")
                 (Ok (PUpload u))] ++ o /\
     aborts ([Logged INFO (MsgMultipartCopying key size);
              Called (CreateMultipartUpload BUCKET_NAME key "STANDARD" "COPY")
                     (Ok (PUpload u))] ++ o) = []) \/
    ((Logged INFO (MsgCompletedMultipart key)
        ∉ [Logged INFO (MsgMultipartCopying key size);
           Called (CreateMultipartUpload BUCKET_NAME key "STANDARD" "COPY")
                  (Ok (PUpload u))] ++ o) /\
     aborts ([Logged INFO (MsgMultipartCopying key size);
              Called (CreateMultipartUpload BUCKET_NAME key "STANDARD" "COPY")
                     (Ok (PUpload u))] ++ o) =
       [AbortMultipartUpload BUCKET_NAME key u])).
  { intros o [[Hin Hab] | [Hnot Hab]]; [left | right]; cbn [app]; (split; [| exact Hab]).
    - by do 2 right.
    - rewrite !not_elem_of_cons. by repeat split. }
  apply Hlift. clear Hlift.
  assert (Hhandled : forall (o2 : list entry) e (s2 : St),
    Forall (fun e => abort_of e = None /\ e <> Logged INFO (MsgCompletedMultipart key)) o2 ->
    (Logged INFO (MsgCompletedMultipart key)
       ∉ o2 ++ output (multipart_failed key (Some u) e s2)) /\
    aborts (o2 ++ output (multipart_failed key (Some u) e s2)) =
      [AbortMultipartUpload BUCKET_NAME key u]).
  { intros o2 e s2 Ho2. destruct (multipart_failed_created key u e s2) as [Hab Hno].
    split.
    - rewrite not_elem_of_app. split; [| done].
      intros Hin. rewrite Forall_forall in Ho2. by destruct (Ho2 _ Hin).
    - unfold aborts in *. rewrite omap_app, Hab, (omap_none _ o2); [reflexivity |].
      eapply Forall_impl; [exact Ho2 | by intros x [? _]]. }
  rewrite output_try_except. unfold multipart_body at 1 2 3 4.
  rewrite !output_bind.
  unfold multipart_body, outcome, final, output, bind, lift, request, logging in *.
  destruct (int_truediv size PART_SIZE) as [q | e0]; cbn [fst snd app].
  2:{ right. apply (Hhandled [] e0 s1). constructor. }
  destruct (copy_parts_no_abort key size u (math_ceil q) (seqZ 0 (math_ceil q)) [] s1)
    as [Hparts _]. unfold output in Hparts.
  destruct (copy_parts key size u (math_ceil q) (seqZ 0 (math_ceil q)) [] s1)
    as [[s2 o2] [parts | e]]; cbn [fst snd app] in *.
  - destruct (perform _ s2) as [s3 [p | e]]; cbn [fst snd app].
    + left. rewrite ?app_nil_r. split.
      * rewrite !elem_of_app. right. right. left.
      * unfold aborts. rewrite !omap_app, (omap_none _ o2); [done |].
        eapply Forall_impl; [exact Hparts | by intros x [? _]].
    + right. rewrite ?app_nil_r.
      assert (Forall (fun e => abort_of e = None /\ e <> Logged INFO (MsgCompletedMultipart key))
                (o2 ++ [Called (CompleteMultipartUpload BUCKET_NAME key u parts) (Raise e)]))
        as Ho by (apply Forall_app; split; [done | by repeat constructor]).
      apply (Hhandled _ e s3 Ho).
  - right. rewrite ?app_nil_r. apply (Hhandled o2 e s2 Hparts).
Qed.
End MultipartAbort.

Section CleanupRequests.
Context {St : Type} `{Service St}.

Lemma cleanup_loop key vs (s : St) :
  exists gone,
    (output (for_each vs (cleanup_version key) s) = concat (deleted key <$> gone) /\
     outcome (for_each vs (cleanup_version key) s) = Ok tt /\
     gone.*1 = filter (fun v => eligible v = true) vs) \/
    (exists v e rest,
       filter (fun v => eligible v = true) vs = gone.*1 ++ v :: rest /\
       output (for_each vs (cleanup_version key) s) =
         concat (deleted key <$> gone) ++
         [Called (DeleteObject BUCKET_NAME key (VersionId v)) (Raise e)] /\
       outcome (for_each vs (cleanup_version key) s) = Raise e).
Proof.
  revert s. induction vs as [|v vs IH]; intros s.
  - exists []. left. by repeat split.
  - cbn [for_each].
    assert (Hskip : eligible v = false ->
              cleanup_version key v s = (s, [], Ok tt)).
    { unfold eligible, cleanup_version. destruct (IsLatest v); [done |].
      cbn. by intros ->. }
    destruct (eligible v) eqn:Hel.
    + rewrite filter_cons_True by done.
      assert (exists s1 r,
        perform (DeleteObject BUCKET_NAME key (VersionId v)) s = (s1, r) /\
        cleanup_version key v s =
          (s1, Called (DeleteObject BUCKET_NAME key (VersionId v)) r ::
               match r with
               | Ok _ => [Logged INFO (MsgDeletedVersion key (VersionId v))]
               | Raise _ => []
               end,
           match r with Ok _ => Ok tt | Raise e => Raise e end))
        as (s1 & r & Hp & Hrun).
      { unfold eligible in Hel. apply andb_true_iff in Hel as [Hl Hc].
        apply negb_true_iff in Hl. unfold cleanup_version, bind, request, logging.
        rewrite Hl, Hc. destruct (perform _ s) as [s1 r]. exists s1, r.
        split; [done |]. by destruct r. }
      unfold bind. rewrite Hrun. destruct r as [p | e].
      * destruct (IH s1) as (gone & Hres). exists ((v, p) :: gone).
        unfold outcome, output in *.
        destruct (for_each vs (cleanup_version key) s1) as [[s2 o2] r2].
        cbn [fst snd] in *.
        destruct Hres as [(-> & -> & Hall) | (w & e & rest & Hsplit & -> & ->)].
        -- left. split; [done |]. split; [done |]. cbn. by rewrite Hall.
        -- right. exists w, e, rest. split; [cbn; by rewrite Hsplit |]. by split.
      * exists []. right. exists v, e, (filter (fun v => eligible v = true) vs).
        by repeat split.
    + rewrite filter_cons_False by (by rewrite Hel).
      unfold bind. rewrite (Hskip eq_refl).
      destruct (IH s) as (gone & Hres). exists gone.
      unfold outcome, output in *.
      destruct (for_each vs (cleanup_version key) s) as [[s2 o2] r2].
      cbn [fst snd app] in *. exact Hres.
Qed.

(** X5. [cleanup_glacier_versions] never raises, and its output is
    exact.  When the listing raises: the listing and the error line
    with its exception.  Else: the listing, then for the listed
    versions that are not the latest and are in a cold class, in
    listing order, a delete for the key given (not the version's own
    key) and the version's id, with its log line; this goes on through
    all of them with nothing after, or up to the first delete that
    raises, which is followed by the error line with that exception
    and by nothing else. *)
Theorem cleanup_requests key (s : St) :
  outcome (cleanup_glacier_versions key s) = Ok tt /\
  match (perform (ListObjectVersions BUCKET_NAME key) s).2 with
  | Raise e =>
      output (cleanup_glacier_versions key s) =
        [Called (ListObjectVersions BUCKET_NAME key) (Raise e);
         Logged ERROR (MsgErrorCleaning key e)]
  | Ok p =>
      exists gone,
        (gone.*1 = filter (fun v => eligible v = true) (listed_versions (Ok p)) /\
         output (cleanup_glacier_versions key s) =
           Called (ListObjectVersions BUCKET_NAME key) (Ok p) ::
           concat (deleted key <$> gone)) \/
        (exists v e rest,
           filter (fun v => eligible v = true) (listed_versions (Ok p)) =
             gone.*1 ++ v :: rest /\
           output (cleanup_glacier_versions key s) =
             Called (ListObjectVersions BUCKET_NAME key) (Ok p) ::
             concat (deleted key <$> gone) ++
             [Called (DeleteObject BUCKET_NAME key (VersionId v)) (Raise e);
              Logged ERROR (MsgErrorCleaning key e)])
  end.
Proof.
  split; [apply cleanup_ok |].
  assert (Hrun :
    cleanup_glacier_versions key s =
    (let '(s1, r) := perform (ListObjectVersions BUCKET_NAME key) s in
     match r with
     | Raise e =>
         (s1, [Called (ListObjectVersions BUCKET_NAME key) r;
               Logged ERROR (MsgErrorCleaning key e)], Ok tt)
     | Ok _ =>
         let '(s2, o2, r2) := for_each (listed_versions r) (cleanup_version key) s1 in
         (s2,
          Called (ListObjectVersions BUCKET_NAME key) r ::
            o2 ++ match r2 with
                  | Ok _ => []
                  | Raise e => [Logged ERROR (MsgErrorCleaning key e)]
                  end,
          Ok tt)
     end)).
  { unfold cleanup_glacier_versions, try_except, list_object_versions, bind, request,
      logging, ret.
    destruct (perform (ListObjectVersions BUCKET_NAME key) s) as [s1 [p | e]]; [| done].
    destruct p as [ | | | | | [vs|]]; cbn [listed_versions from_option id];
      match goal with
      | |- context [for_each ?l ?f s1] => destruct (for_each l f s1) as [[s2 o2] [[] | e]]
      end; cbn [app]; rewrite ?app_nil_r; reflexivity. }
  rewrite Hrun. clear Hrun.
  destruct (perform (ListObjectVersions BUCKET_NAME key) s) as [s1 r]. cbn [snd].
  destruct r as [p | e]; [| done].
  destruct (cleanup_loop key (listed_versions (Ok p)) s1) as (gone & Hres).
  exists gone. unfold outcome, output in *.
  destruct (for_each (listed_versions (Ok p)) (cleanup_version key) s1) as [[s2 o2] r2].
  cbn [fst snd] in *.
  destruct Hres as [(-> & -> & Hall) | (v & e & rest & Hsplit & -> & ->)].
  - left. split; [done |]. by rewrite app_nil_r.
  - right. exists v, e, rest. split; [done |]. by rewrite <- app_assoc.
Qed.
End CleanupRequests.

Lemma prefix_refl_string (a : string) : String.prefix a a = true.
Proof.
  induction a as [|c a IH]; cbn; [done |].
  destruct (ascii_dec c c); [done | congruence].
Qed.

Lemma cleanup_loop_bucket key vs (b : list version) :
  outcome (for_each vs (cleanup_version (H := bucket_service) key) b) = Ok tt /\
  forall v,
    v ∈ final (for_each vs (cleanup_version (H := bucket_service) key) b) <->
    v ∈ b /\
    ~ (VKey v = key /\
       exists w, w ∈ vs /\ eligible w = true /\ VersionId w = VersionId v).
Proof.
  revert b. induction vs as [|w0 vs IH]; intros b.
  - split; [done |]. intros v. cbn. split; [| tauto].
    intros Hv. split; [done |]. intros (_ & w & Hw & _). by apply elem_of_nil in Hw.
  - cbn [for_each].
    assert (exists b1,
      cleanup_version (H := bucket_service) key w0 b = (b1.1, b1.2, Ok tt) /\
      forall v, v ∈ b1.1 <->
        v ∈ b /\ ~ (VKey v = key /\ eligible w0 = true /\ VersionId w0 = VersionId v))
      as ([b1 o1] & Hrun & Hb1).
    { unfold cleanup_version, eligible. destruct (IsLatest w0).
      { exists (b, []). split; [done |]. intros v. cbn. split; [| tauto].
        intros ?. split; [done |]. by intros (_ & ? & _). }
      destruct (is_cold (VStorageClass w0)).
      2:{ exists (b, []). split; [done |]. intros v. cbn. split; [| tauto].
          intros ?. split; [done |]. by intros (_ & ? & _). }
      eexists (_, _). unfold bind, request, logging. cbn -[filter]. split; [reflexivity |].
      intros v. rewrite list_elem_of_filter. cbn. split.
      - intros [Hne Hv]. split; [done |]. intros (Hk & _ & Hid). by apply Hne.
      - intros [Hv Hne]. split; [| done]. intros [Hk Hid]. by apply Hne. }
    cbn [fst snd] in *. unfold bind, outcome, final. rewrite Hrun.
    destruct (IH b1) as [Hok Hall]. unfold outcome, final in Hok, Hall.
    destruct (for_each vs (cleanup_version key) b1) as [[b2 o2] r2]. cbn [fst snd] in *.
    split; [done |]. intros v. rewrite Hall, Hb1. split.
    + intros [[Hv Hn0] Hn]. split; [done |]. intros (Hk & w & [-> | Hw]%elem_of_cons & Hel & Hid).
      * by apply Hn0.
      * apply Hn. split; [done |]. by exists w.
    + intros [Hv Hn]. split; [split; [done |] |].
      * intros (Hk & Hel & Hid). apply Hn. split; [done |]. exists w0. split; [left | done].
      * intros (Hk & w & Hw & Hel & Hid). apply Hn. split; [done |]. exists w.
        split; [by right | done].
Qed.

(** X6. On the bucket model, a version is left after the cleanup of
    [key] exactly when it was there and is not a version of [key] whose
    id is the id of some non-latest cold version under the prefix
    [key].  So no non-latest cold version of [key] is left, and the
    versions of every other key stay. *)
Theorem cleanup_effect_on_bucket key (b : list version) :
  (forall v,
     v ∈ final (cleanup_glacier_versions (H := bucket_service) key b) <->
     v ∈ b /\
     ~ (VKey v = key /\
        exists w, w ∈ b /\ String.prefix key (VKey w) = true /\
                  eligible w = true /\ VersionId w = VersionId v)) /\
  (forall v, v ∈ final (cleanup_glacier_versions (H := bucket_service) key b) ->
             VKey v = key -> eligible v = false) /\
  (forall v, v ∈ b -> VKey v <> key ->
             v ∈ final (cleanup_glacier_versions (H := bucket_service) key b)).
Proof.
  assert (Heffect : forall v,
     v ∈ final (cleanup_glacier_versions (H := bucket_service) key b) <->
     v ∈ b /\
     ~ (VKey v = key /\
        exists w, w ∈ b /\ String.prefix key (VKey w) = true /\
                  eligible w = true /\ VersionId w = VersionId v)).
  { intros v.
    unfold cleanup_glacier_versions, try_except, list_object_versions, bind at 1,
      bind at 1, request.
    cbn [perform bucket_service bucket_perform ret default].
    destruct (cleanup_loop_bucket key
                (filter (fun v => String.prefix key (VKey v) = true) b) b) as [Hok Hall].
    specialize (Hall v). unfold outcome, final in *.
    destruct (for_each _ (cleanup_version key) b) as [[b2 o2] r2]. cbn [fst snd] in *.
    subst r2. cbn [fst snd]. rewrite Hall. split.
    - intros [Hv Hn]. split; [done |]. intros (Hk & w & Hw & Hp & Hel & Hid).
      apply Hn. split; [done |]. exists w. split; [| done].
      apply list_elem_of_filter. done.
    - intros [Hv Hn]. split; [done |]. intros (Hk & w & Hw & Hel & Hid).
      apply list_elem_of_filter in Hw as [Hp Hw].
      apply Hn. split; [done |]. by exists w. }
  split; [exact Heffect |]. split.
  - intros v Hv Hk. apply Heffect in Hv as [Hv Hn].
    destruct (eligible v) eqn:Hel; [| done]. exfalso. apply Hn. split; [done |].
    exists v. rewrite Hk. split; [done |]. split; [apply prefix_refl_string | done].
  - intros v Hv Hne. apply Heffect. split; [done |]. by intros [Hk _].
Qed.

(** ** The ranges of the parts *)

(** X10. The ranges of the parts tile the object: for an object of at
    most 2^25 parts, every byte offset below the size lies in the range
    of exactly one part index of the loop. *)
Theorem parts_tile_object (size b : Z) :
  0 <= b < size -> size <= 2 ^ 25 * PART_SIZE ->
  exists q i,
    int_truediv size PART_SIZE = Ok q /\
    i ∈ seqZ 0 (math_ceil q) /\ part_covers size i b /\
    forall j, j ∈ seqZ 0 (math_ceil q) -> part_covers size j b -> j = i.
Proof.
  intros Hb Hsize. destruct (part_count_exact size ltac:(lia)) as (q & Hq & Hceil).
  destruct PART_SIZE_bounds as [HC _]. assert (0 < 2 ^ 28) as Hp28 by done.
  exists q, (b / PART_SIZE). split; [done |]. rewrite Hceil.
  pose proof (Z.div_mod b PART_SIZE ltac:(lia)) as Hdiv.
  pose proof (Z.mod_pos_bound b PART_SIZE ltac:(lia)) as Hmod.
  pose proof (Z.div_mod (size + PART_SIZE - 1) PART_SIZE ltac:(lia)) as Hdiv'.
  pose proof (Z.mod_pos_bound (size + PART_SIZE - 1) PART_SIZE ltac:(lia)) as Hmod'.
  set (i := b / PART_SIZE) in *. set (n := (size + PART_SIZE - 1) / PART_SIZE) in *.
  assert (0 <= i) as Hi by (apply Z.div_pos; lia).
  unfold part_covers, part_request. split; [| split].
  - apply elem_of_seqZ. split; [lia |]. nia.
  - lia.
  - intros j Hj Hcov. apply elem_of_seqZ in Hj. nia.
Qed.

Lemma parts_tile_object_witness :
  exists q i,
    int_truediv 1258291200 PART_SIZE = Ok q /\
    i ∈ seqZ 0 (math_ceil q) /\ part_covers 1258291200 i 524288000 /\
    forall j, j ∈ seqZ 0 (math_ceil q) -> part_covers 1258291200 j 524288000 -> j = i.
Proof.
  apply (parts_tile_object 1258291200 524288000); [lia | unfold PART_SIZE; lia].
Defined.

(** ** The polling phase, and the order of the phases *)

Lemma settled_app (o1 o2 : list entry) :
  settled o1 -> settled o2 ->
  (forall k size, Logged INFO (MsgRestored k size) ∈ o1 ->
                  HeadObject BUCKET_NAME k ∉ calls o2) ->
  settled (o1 ++ o2).
Proof.
  induction o1 as [|e o1 IH]; intros H1 H2 Hcross; [done |].
  destruct H1 as [He H1]. cbn [app settled]. split.
  - destruct e as [c r | l m | n]; try done. destruct l; try done.
    destruct m; try done. unfold calls. rewrite omap_app, not_elem_of_app.
    split; [done |]. apply (Hcross key size). left.
  - apply IH; [done | done |]. intros k size Hin. apply (Hcross k size). by right.
Qed.

Lemma settled_split (out pre post : list entry) k size :
  settled out -> out = pre ++ Logged INFO (MsgRestored k size) :: post ->
  HeadObject BUCKET_NAME k ∉ calls post.
Proof.
  intros Hs ->. induction pre as [|e pre IH]; cbn in Hs; [by destruct Hs |].
  apply IH. by destruct Hs.
Qed.

Section PollingRequests.
Context {St : Type} `{Service St}.

Lemma poll_key_cases key restored (s : St) :
  (dict_mem key restored = true /\ poll_key key restored s = (s, [], Ok restored)) \/
  (dict_mem key restored = false /\
   exists s1 r,
     perform (HeadObject BUCKET_NAME key) s = (s1, r) /\
     ((exists h, r = Ok (PHead h) /\ restore_has ONGOING_FALSE h = true /\
                 poll_key key restored s =
                   (s1, [Called (HeadObject BUCKET_NAME key) r;
                         Logged INFO (MsgRestored key (ContentLength h))],
                    Ok (dict_set key (ContentLength h) restored))) \/
      (completed r = false /\
       exists rest,
         poll_key key restored s =
           (s1, Called (HeadObject BUCKET_NAME key) r :: rest, Ok restored) /\
         Forall (fun e => exists e', e = Logged ERROR (MsgErrorChecking key e')) rest))).
Proof.
  unfold poll_key. destruct (dict_mem key restored); [by left | right].
  split; [done |].
  unfold try_except, head_object, bind, request, logging, ret, raise.
  destruct (perform (HeadObject BUCKET_NAME key) s) as [s1 r]. exists s1, r.
  split; [done |].
  destruct r as [[ | | h | | | ] | e]; cbn -[ONGOING_FALSE];
    try (right; split; [done |]; eexists; split; [reflexivity |];
         repeat constructor; by eexists).
  destruct (restore_has ONGOING_FALSE h) eqn:E.
  - left. by exists h.
  - right. split; [done |]. exists []. by split.
Qed.

Lemma dict_set_keys_mono {V} (k k' : string) (v : V) (d : list (string * V)) :
  k ∈ d.*1 -> k ∈ (dict_set k' v d).*1.
Proof.
  induction d as [|[k0 v0] d IH]; cbn; [by intros ?%elem_of_nil |].
  destruct (String.eqb k' k0) eqn:E; cbn; rewrite !elem_of_cons; [tauto |].
  intros [-> | Hk]; auto.
Qed.

Lemma dict_set_keys_new {V} (k : string) (v : V) (d : list (string * V)) :
  k ∈ (dict_set k v d).*1.
Proof.
  induction d as [|[k0 v0] d IH]; cbn; [left |].
  destruct (String.eqb k k0) eqn:E; cbn.
  - apply String.eqb_eq in E as ->. left.
  - by right.
Qed.

(** One sweep: what it puts out and what it records. *)
Lemma sweep_tracked keys ks restored (s : St) :
  (forall k, k ∈ ks -> k ∈ keys) ->
  exists r,
    outcome (sweep ks restored s) = Ok r /\
    Forall (is_status_check keys) (output (sweep ks restored s)) /\
    settled (output (sweep ks restored s)) /\
    (forall k size, Logged INFO (MsgRestored k size) ∈ output (sweep ks restored s) ->
                    k ∈ r.*1) /\
    (forall k, k ∈ restored.*1 ->
               (HeadObject BUCKET_NAME k ∉ calls (output (sweep ks restored s))) /\ k ∈ r.*1) /\
    (forall k, k ∈ r.*1 -> k ∈ restored.*1 \/ observed (output (sweep ks restored s)) k).
Proof.
  revert restored s. induction ks as [|key ks IH]; intros restored s Hsub.
  - exists restored. cbn. repeat split; try done; try (by intros ? ? ?%elem_of_nil).
    + apply not_elem_of_nil.
    + auto.
  - cbn [sweep]. rewrite output_bind, outcome_bind.
    assert (forall k, k ∈ ks -> k ∈ keys) as Hsub' by (intros; apply Hsub; by right).
    destruct (poll_key_cases key restored s)
      as [[Hm Hrun] | (Hm & s1 & r0 & Hp & [(h & -> & Hc & Hrun) | (Hc & rest & Hrun & Hrest)])];
      rewrite Hrun; cbn [output outcome final fst snd app].
    + exact (IH restored s Hsub').
    + destruct (IH (dict_set key (ContentLength h) restored) s1 Hsub')
        as (r & Hok & Hchk & Hset & Hlog & Hold & Hobs).
      apply dict_mem_false in Hm.
      exists r. split; [done |]. split; [| split; [| split; [| split]]].
      * constructor; [exists key; split; [done | apply Hsub; left] |].
        constructor; [done | done].
      * cbn [settled]. split; [done |]. split; [| done].
        apply (Hold key), dict_set_keys_new.
      * intros k size [[=] | [[= -> _] | Hin]%elem_of_cons]%elem_of_cons.
        -- apply (Hold key), dict_set_keys_new.
        -- by apply (Hlog k size).
      * intros k Hk.
        destruct (Hold k (dict_set_keys_mono k key _ _ Hk)) as [Hno Hin].
        split; [| done]. cbn. rewrite not_elem_of_cons. split; [| done].
        intros [= ->]. done.
      * intros k Hk. destruct (Hobs k Hk) as [Hin | (h' & Hin & Hc')].
        -- apply dict_set_keys in Hin as [-> | Hin]; [| by left].
           right. exists h. split; [left | done].
        -- right. exists h'. split; [by do 2 right | done].
    + destruct (IH restored s1 Hsub') as (r & Hok & Hchk & Hset & Hlog & Hold & Hobs).
      exists r. split; [done |]. split; [| split; [| split; [| split]]].
      * constructor; [exists key; split; [done | apply Hsub; left] |].
        apply Forall_app. split; [| done].
        eapply Forall_impl; [exact Hrest | by intros e [e' ->]].
      * cbn [settled]. split; [done |]. apply settled_app; [| done |].
        -- clear -Hrest. induction Hrest as [|e rest [e' ->] _ IH']; [done | by split].
        -- intros k size Hin. rewrite Forall_forall in Hrest.
           by destruct (Hrest _ Hin) as [e' [=]].
      * intros k size [[=] | [Hin | Hin]%elem_of_app]%elem_of_cons.
        -- rewrite Forall_forall in Hrest. by destruct (Hrest _ Hin) as [e' [=]].
        -- by apply (Hlog k size).
      * intros k Hk. destruct (Hold k Hk) as [Hno Hin]. split; [| done].
        apply dict_mem_false in Hm. unfold calls in *. cbn.
        rewrite omap_app, not_elem_of_cons, not_elem_of_app.
        split; [by intros [= ->] |]. split; [| done].
        rewrite omap_none; [apply not_elem_of_nil |].
        eapply Forall_impl; [exact Hrest | by intros e [e' ->]].
      * intros k Hk. destruct (Hobs k Hk) as [Hin | (h' & Hin & Hc')]; [by left |].
        right. exists h'. split; [| done]. right. apply elem_of_app. by right.
Qed.

Lemma wait_loop_step fuel keys restored (s : St) :
  (length restored <? length keys)%nat = true ->
  exists r s',
    outcome (sweep keys restored s) = Ok r /\
    output (wait_loop (S fuel) keys restored s) =
      output (sweep keys restored s) ++
      Logged INFO (MsgProgress (length r) (length keys)) ::
      (if (length r <? length keys)%nat then [Slept 60] else []) ++
      output (wait_loop fuel keys r s') /\
    outcome (wait_loop (S fuel) keys restored s) = outcome (wait_loop fuel keys r s').
Proof.
  intros Hlt. destruct (sweep_total keys restored s) as [r Hr].
  cbn [wait_loop]. rewrite Hlt. unfold bind, logging, time_sleep, ret.
  unfold outcome in Hr. destruct (sweep keys restored s) as [[s1 o1] r1].
  cbn in Hr. subst r1. exists r.
  destruct (length r <? length keys)%nat.
  - exists (sleep 60 s1). split; [done |].
    by destruct (wait_loop fuel keys r (sleep 60 s1)) as [[s2 o2] r2].
  - exists s1. split; [done |].
    by destruct (wait_loop fuel keys r s1) as [[s2 o2] r2].
Qed.

Lemma wait_loop_tracked fuel keys restored (s : St) :
  Forall (is_status_check keys) (output (wait_loop fuel keys restored s)) /\
  settled (output (wait_loop fuel keys restored s)) /\
  (forall k, k ∈ restored.*1 ->
             HeadObject BUCKET_NAME k ∉ calls (output (wait_loop fuel keys restored s))) /\
  (forall r, outcome (wait_loop fuel keys restored s) = Ok (Some r) ->
     (forall k, k ∈ r.*1 ->
        k ∈ restored.*1 \/ observed (output (wait_loop fuel keys restored s)) k) /\
     (length keys <= length r)%nat /\
     (output (wait_loop fuel keys restored s) = [] /\ r = restored \/
      exists pre, output (wait_loop fuel keys restored s) =
                  pre ++ [Logged INFO (MsgProgress (length r) (length keys))])).
Proof.
  revert restored s. induction fuel as [|fuel IH]; intros restored s.
  - cbn [wait_loop]. destruct (length restored <? length keys)%nat eqn:Hlt; cbn.
    + repeat split; try done. intros k _. apply not_elem_of_nil.
    + apply Nat.ltb_ge in Hlt. repeat split; try done.
      * intros k _. apply not_elem_of_nil.
      * intros k Hk. left. congruence.
      * congruence.
      * left. split; [done | congruence].
  - destruct (length restored <? length keys)%nat eqn:Hlt.
    2:{ cbn [wait_loop]. rewrite Hlt. cbn. apply Nat.ltb_ge in Hlt.
        repeat split; try done.
        * intros k _. apply not_elem_of_nil.
        * intros k Hk. left. congruence.
        * congruence.
        * left. split; [done | congruence]. }
    destruct (wait_loop_step fuel keys restored s Hlt) as (r1 & s' & Hr1 & -> & ->).
    destruct (sweep_tracked keys keys restored s (fun k Hk => Hk))
      as (r1' & Hr1' & Hchk & Hset & Hlog & Hold & Hobs).
    assert (r1' = r1) as -> by congruence.
    destruct (IH r1 s') as (Hchk2 & Hset2 & Hold2 & Hret2).
    set (mid := if (length r1 <? length keys)%nat then [Slept 60] else []).
    assert (Hmid : omap call_of mid = []) by (subst mid; by case_match).
    split; [| split; [| split]].
    + apply Forall_app. split; [done |]. constructor; [done |].
      apply Forall_app. split; [| done]. subst mid. case_match; by repeat constructor.
    + apply settled_app; [done | |].
      * split; [done |]. apply settled_app; [| done |].
        -- subst mid. by case_match.
        -- intros k size Hin. subst mid. case_match.
           ++ by apply list_elem_of_singleton in Hin.
           ++ by apply elem_of_nil in Hin.
      * intros k size Hin. unfold calls. cbn. rewrite omap_app, Hmid. cbn.
        apply Hold2. by apply (Hlog k size).
    + intros k Hk. destruct (Hold k Hk) as [Hno Hin].
      unfold calls in *. rewrite omap_app. cbn. rewrite omap_app, Hmid. cbn.
      rewrite not_elem_of_app. split; [done |]. by apply Hold2.
    + intros r Hr. destruct (Hret2 r Hr) as (Hobs2 & Hlen & Hend).
      split; [| split; [done |]].
      * intros k Hk. destruct (Hobs2 k Hk) as [Hin | (h & Hin & Hc)].
        -- destruct (Hobs k Hin) as [? | (h & Hin' & Hc)]; [by left |].
           right. exists h. split; [| done]. apply elem_of_app. by left.
        -- right. exists h. split; [| done].
           apply elem_of_app. right. right. apply elem_of_app. by right.
      * right. destruct Hend as [[-> ->] | [pre ->]].
        -- exists (output (sweep keys restored s)). subst mid.
           apply Nat.leb_le in Hlen. rewrite Nat.leb_antisym in Hlen.
           apply negb_true_iff in Hlen. rewrite Hlen. done.
        -- exists (output (sweep keys restored s) ++
                   Logged INFO (MsgProgress (length r1) (length keys)) :: mid ++ pre).
           by rewrite <- !app_assoc, <- app_comm_cons, <- app_assoc.
Qed.

(** X7. The polling phase puts out only status checks of candidate
    keys, log lines and sleeps of 60 seconds; and once a key is logged
    as restored it is never checked again. *)
Theorem polling_requests fuel keys (s : St) :
  Forall (is_status_check keys) (output (wait_for_restore fuel keys s)) /\
  forall pre k size post,
    output (wait_for_restore fuel keys s) =
      pre ++ Logged INFO (MsgRestored k size) :: post ->
    HeadObject BUCKET_NAME k ∉ calls post.
Proof.
  unfold wait_for_restore. rewrite output_bind. cbn [logging output outcome final fst snd].
  destruct (wait_loop_tracked fuel keys [] s) as (Hchk & Hset & _).
  split; [by constructor |].
  intros pre k size post Heq. eapply settled_split; [| exact Heq]. by split.
Qed.

(** X9. When the polling returns, every candidate is accounted for,
    and the output ends with the progress line of the last sweep: no
    sleep follows it.  With no candidates at all only the opening line
    is logged. *)
Theorem polling_ends_with_progress fuel keys (s : St) restored :
  outcome (wait_for_restore fuel keys s) = Ok (Some restored) ->
  (length keys <= length restored)%nat /\
  (keys = [] /\ restored = [] /\
   output (wait_for_restore fuel keys s) = [Logged INFO MsgWaiting] \/
   exists pre,
     output (wait_for_restore fuel keys s) =
       pre ++ [Logged INFO (MsgProgress (length restored) (length keys))]).
Proof.
  unfold wait_for_restore. rewrite output_bind, outcome_bind.
  cbn [logging output outcome final fst snd]. intros Hr.
  destruct (wait_loop_tracked fuel keys [] s) as (_ & _ & _ & Hret).
  destruct (Hret restored Hr) as (_ & Hlen & Hend). split; [done |].
  destruct Hend as [[-> ->] | [pre ->]].
  - left. destruct keys; [done | cbn in Hlen; lia].
  - right. by exists (Logged INFO MsgWaiting :: pre).
Qed.
End PollingRequests.

Section Phases.
Context {St : Type} `{Service St}.

(** The transition of one key puts out log lines and transition
    requests for that key only. *)
Lemma transition_key_sat (P : entry -> Prop) key size :
  (forall l m, P (Logged l m)) ->
  (forall c r, is_transition_call c = true -> call_key c = Some key -> P (Called c r)) ->
  sat P (fun _ => True) (transition_key key size).
Proof.
  intros Hlog Hcall.
  assert (Hfailed : forall upload e, sat P (fun _ => True) (multipart_failed key upload e)).
  { intros upload e. eapply sat_bind; [apply sat_logging, Hlog |].
    intros _ _. apply sat_try_except; [| intros; apply sat_logging, Hlog].
    destruct upload as [u|]; [| apply sat_raise].
    eapply sat_bind; [| intros; by apply sat_ret].
    apply sat_request. intros r. by apply Hcall. }
  assert (Hparts : forall u n idxs parts,
             sat P (fun _ => True) (copy_parts key size u n idxs parts)).
  { intros u n idxs. induction idxs as [|i idxs IH]; intros parts; simpl.
    - by apply sat_ret.
    - eapply sat_bind.
      { apply sat_upload_part_copy. intros r. by apply Hcall. }
      intros etag _. eapply sat_bind; [apply sat_logging, Hlog |].
      intros _ _. apply IH. }
  apply sat_try_except; [| intros; apply sat_logging, Hlog].
  eapply sat_bind.
  { instantiate (1 := fun _ => True). case_match.
    - eapply sat_bind; [apply sat_logging, Hlog |].
      intros _ _. eapply sat_bind.
      { apply sat_attempt, sat_create_multipart_upload. intros r. by apply Hcall. }
      intros [u | e] _; [| by apply Hfailed].
      apply sat_try_except; [| intros; by apply Hfailed].
      eapply sat_bind; [by apply (sat_lift _ (fun _ => True)) |].
      intros q _. eapply sat_bind; [by apply Hparts |].
      intros parts _. eapply sat_bind; [| intros; apply sat_logging, Hlog].
      apply sat_request. intros r. by apply Hcall.
    - eapply sat_bind; [| intros; apply sat_logging, Hlog].
      apply sat_request. intros r. by apply Hcall. }
  intros _ _. apply sat_try_except; [| intros; apply sat_logging, Hlog].
  eapply sat_bind.
  { apply sat_list_object_versions. intros r. by apply Hcall. }
  intros vs _. apply sat_for_each. intros v _. unfold cleanup_version.
  repeat case_match; try by apply sat_ret.
  eapply sat_bind; [| intros; apply sat_logging, Hlog].
  apply sat_request. intros r. by apply Hcall.
Qed.

Lemma transition_calls restored (s : St) c :
  c ∈ calls (output (transition_to_standard restored s)) ->
  is_transition_call c = true /\ exists k, call_key c = Some k /\ k ∈ restored.*1.
Proof.
  set (P := fun e => forall c, call_of e = Some c ->
              is_transition_call c = true /\ exists k, call_key c = Some k /\ k ∈ restored.*1).
  assert (Hsat : sat P (fun _ => True) (transition_to_standard restored)).
  { eapply sat_bind; [by apply sat_logging |].
    intros _ _. apply sat_for_each. intros [k v] Hin. apply transition_key_sat; [done |].
    intros c' r Ht Hk c'' [= <-]. split; [done |]. exists k. split; [done |].
    apply list_elem_of_fmap. by exists (k, v). }
  intros Hc. apply list_elem_of_omap in Hc as (e & He & Hce).
  destruct (Hsat s) as [Hall _]. rewrite Forall_forall in Hall. by apply (Hall e He).
Qed.

Lemma initiate_restore_calls keys (s : St) c :
  c ∈ calls (output (initiate_restore keys s)) -> is_transition_call c = false.
Proof.
  set (P := fun e => forall c, call_of e = Some c -> is_transition_call c = false).
  assert (Hsat : sat P (fun _ => True) (initiate_restore keys)).
  { apply sat_for_each. intros key Hkey.
    apply sat_try_except; [| intros e; by apply sat_logging].
    eapply sat_bind.
    { apply sat_head_object. by intros r c' [= <-]. }
    intros h _. repeat case_match; try (by apply sat_logging).
    eapply sat_bind; [| intros; by apply sat_logging].
    apply sat_request. by intros r c' [= <-]. }
  intros Hc. apply list_elem_of_omap in Hc as (e & He & Hce).
  destruct (Hsat s) as [Hall _]. rewrite Forall_forall in Hall. by apply (Hall e He).
Qed.

Lemma wait_for_restore_calls fuel keys (s : St) :
  (forall c, c ∈ calls (output (wait_for_restore fuel keys s)) ->
             is_transition_call c = false) /\
  (forall r, outcome (wait_for_restore fuel keys s) = Ok (Some r) ->
             forall k, k ∈ r.*1 -> observed (output (wait_for_restore fuel keys s)) k).
Proof.
  unfold wait_for_restore. rewrite output_bind, outcome_bind.
  cbn [logging output outcome final fst snd].
  destruct (wait_loop_tracked fuel keys [] s) as (Hchk & _ & _ & Hret). split.
  - intros c Hc. apply list_elem_of_omap in Hc as (e & He & Hce).
    apply elem_of_cons in He as [-> | He]; [done |].
    rewrite Forall_forall in Hchk. specialize (Hchk e He).
    destruct e as [c' r | |]; try done. injection Hce as <-.
    by destruct Hchk as (k & -> & _).
  - intros r Hr k Hk. destruct (Hret r Hr) as (Hobs & _).
    destruct (Hobs k Hk) as [Hin | (h & Hin & Hc)]; [by apply elem_of_nil in Hin |].
    exists h. split; [by right | done].
Qed.

Lemma get_glacier_objects_calls (s : St) c :
  c ∈ calls (output (get_glacier_objects s)) -> is_transition_call c = false.
Proof.
  destruct (get_glacier_objects_run s) as (s1 & r & Hp & Hrun).
  destruct r as [[]|]; rewrite Hrun; cbn;
    rewrite ?elem_of_cons, ?elem_of_nil; intros Hc; decompose [or] Hc; by subst.
Qed.

(** X8. The output of [main] splits in two: a first part without any
    copy, multipart, version listing or delete request, and a second
    part in which every request is one of these, for a key that a
    status check of the first part has shown restored. *)
Theorem copies_follow_completed_checks fuel (s : St) :
  exists before after,
    output (main fuel s) = before ++ after /\
    (forall c, c ∈ calls before -> is_transition_call c = false) /\
    (forall c, c ∈ calls after ->
       is_transition_call c = true /\
       exists k, call_key c = Some k /\ observed before k).
Proof.
  unfold main. rewrite output_bind. cbn [logging output outcome final fst snd].
  rewrite output_bind.
  pose proof (get_glacier_objects_calls s) as Hget.
  destruct (get_glacier_objects s) as [[s1 o1] [keys | e]];
    cbn [output outcome final fst snd] in *.
  2:{ exists (Logged INFO (MsgStarting BUCKET_NAME) :: o1), [].
      split; [cbn; by rewrite !app_nil_r |]. split; [| by intros c ?%elem_of_nil].
      intros c Hc. by apply Hget. }
  destruct keys as [|k0 keys0].
  { exists ([Logged INFO (MsgStarting BUCKET_NAME)] ++ o1 ++ [Logged INFO MsgNoGlacier]), [].
    split; [by rewrite !app_nil_r |]. split; [| by intros c ?%elem_of_nil].
    intros c Hc. apply Hget. unfold calls in *. cbn in Hc.
    by rewrite omap_app, app_nil_r in Hc. }
  set (keys := k0 :: keys0).
  rewrite output_bind, initiate_restore_ok. rewrite output_bind.
  pose proof (initiate_restore_calls keys s1) as Hinit.
  set (s2 := final (initiate_restore keys s1)).
  destruct (wait_for_restore_calls fuel keys s2) as [Hwait Hobs].
  set (front := [Logged INFO (MsgStarting BUCKET_NAME)] ++ o1 ++
                output (initiate_restore keys s1) ++ output (wait_for_restore fuel keys s2)).
  assert (Hfront : forall c, c ∈ calls front -> is_transition_call c = false).
  { intros c Hc. subst front. unfold calls in *. cbn in Hc. rewrite !omap_app in Hc.
    apply elem_of_app in Hc as [Hc | [Hc | Hc]%elem_of_app]; auto. }
  destruct (outcome (wait_for_restore fuel keys s2)) as [[r |] | e] eqn:Hpolled.
  - rewrite output_bind, transition_to_standard_ok.
    cbn [logging ret bind output outcome final fst snd].
    set (s3 := final (wait_for_restore fuel keys s2)).
    exists front, (output (transition_to_standard r s3) ++ [Logged INFO MsgAllDone]).
    split; [subst front; by rewrite <- !app_assoc |]. split; [done |].
    intros c Hc. unfold calls in Hc. rewrite omap_app in Hc. cbn in Hc.
    rewrite app_nil_r in Hc.
    destruct (transition_calls r s3 c Hc) as (Ht & k & Hk & Hin).
    split; [done |]. exists k. split; [done |].
    destruct (Hobs r eq_refl k Hin) as (h & Hh & Hc').
    exists h. split; [| done]. subst front.
    right. apply elem_of_app. right. apply elem_of_app. by right.
  - exists front, []. split; [subst front; cbn; by rewrite <- !app_assoc |].
    split; [done | by intros c ?%elem_of_nil].
  - exists front, []. split; [subst front; cbn; by rewrite <- !app_assoc |].
    split; [done | by intros c ?%elem_of_nil].
Qed.
End Phases.

Lemma polling_ends_with_progress_witness :
  (length ["a"; "b"] <= length [("a", 10); ("b", 20)])%nat /\
  (["a"; "b"] = [] /\ [("a", 10); ("b", 20)] = [] /\
   output (wait_for_restore (H := poll_service stream_restoring) 4 ["a"; "b"]
             (fun _ => O)) = [Logged INFO MsgWaiting] \/
   exists pre,
     output (wait_for_restore (H := poll_service stream_restoring) 4 ["a"; "b"]
               (fun _ => O)) =
       pre ++ [Logged INFO (MsgProgress (length [("a", 10); ("b", 20)])
                                        (length ["a"; "b"]))]).
Proof.
  apply (polling_ends_with_progress (H := poll_service stream_restoring) 4 ["a"; "b"]
           (fun _ => O) [("a", 10); ("b", 20)]).
  vm_compute. reflexivity.
Defined.

(** ** Failures of the provisioner, and the content of a section *)

Lemma scan_services_raise ep svcs d0 e :
  scan_services ep svcs d0 = Raise e <->
  e = IndexError /\ DnsEntries ep = [] /\ exists svc, svc ∈ svcs /\ matches ep svc = true.
Proof.
  revert d0. induction svcs as [|svc0 svcs IH]; intros d0; cbn [scan_services].
  - split; [done |]. by intros (_ & _ & svc & ?%elem_of_nil & _).
  - destruct (matches ep svc0) eqn:Em.
    + destruct (DnsEntries ep) as [|host rest] eqn:Ed.
      * split; [intros [= <-] | by intros [-> _]]. split; [done |]. split; [done |].
        exists svc0. split; [left | done].
      * rewrite IH. split; by intros (_ & ? & _).
    + rewrite IH. split; intros (-> & Hd & svc & Hin & Hm); repeat split; try done.
      * exists svc. split; [by right | done].
      * apply elem_of_cons in Hin as [-> | Hin]; [congruence |]. by exists svc.
Qed.

Lemma scan_endpoints_raise (eps : list vpc_endpoint) (d0 : list (string * string))
    (e : exn) :
  scan_endpoints eps d0 = Raise e <->
  e = IndexError /\
  exists ep svc, ep ∈ eps /\ attributed ep svc /\ DnsEntries ep = [].
Proof.
  revert d0. induction eps as [|ep eps IH]; intros d0; cbn [scan_endpoints].
  - split; [done |]. by intros (_ & ep & svc & ?%elem_of_nil & _).
  - destruct (String.eqb (VpcEndpointType ep) "Interface") eqn:Et.
    + apply String.eqb_eq in Et.
      destruct (scan_services ep services d0) as [d1 | e1] eqn:Es.
      * rewrite IH. split; intros (-> & ep' & svc & Hin & Ha & Hd); (split; [done |]).
        -- exists ep', svc. split; [by right | done].
        -- apply elem_of_cons in Hin as [-> | Hin]; [| by exists ep', svc].
           destruct Ha as (_ & Hsvc & Hm).
           destruct (scan_services_nonempty _ _ _ _ _ Es Hsvc Hm) as (h & r & Hdns).
           congruence.
      * apply scan_services_raise in Es as (-> & Hd & svc & Hin & Hm). split.
        -- intros [= <-]. split; [done |]. exists ep, svc. split; [left | done].
        -- by intros [-> _].
    + apply String.eqb_neq in Et. rewrite IH.
      split; intros (-> & ep' & svc & Hin & Ha & Hd); (split; [done |]).
      * exists ep', svc. split; [by right | done].
      * apply elem_of_cons in Hin as [-> | Hin]; [by destruct Ha | by exists ep', svc].
Qed.

(** X11. The endpoint scan raises exactly when some endpoint attributed
    to a probed service has no DNS entry, and the exception is then
    [IndexError]: endpoints that are not attributed may have an empty
    list. *)
Theorem scan_raises (eps : list vpc_endpoint) (d0 : list (string * string)) :
  match scan_endpoints eps d0 with
  | Raise e =>
      e = IndexError /\
      exists ep svc, ep ∈ eps /\ attributed ep svc /\ DnsEntries ep = []
  | Ok _ =>
      forall ep svc, ep ∈ eps -> attributed ep svc -> DnsEntries ep <> []
  end.
Proof.
  destruct (scan_endpoints eps d0) as [d | e] eqn:Hscan.
  - intros ep svc Hep Ha Hd.
    assert (scan_endpoints eps d0 = Raise IndexError) as Hr; [| congruence].
    apply scan_endpoints_raise. split; [done |]. by exists ep, svc.
  - by apply scan_endpoints_raise in Hscan.
Qed.

Lemma dict_set_NoDup {V} (k : string) (v : V) (d : list (string * V)) :
  NoDup d.*1 -> NoDup (dict_set k v d).*1.
Proof.
  induction d as [|[k0 v0] d IH]; cbn; [intros _; apply NoDup_singleton |].
  intros [Hk0 Hd]%NoDup_cons. destruct (String.eqb k k0) eqn:E; cbn.
  - by apply NoDup_cons.
  - apply NoDup_cons. split; [| by apply IH].
    intros [-> | Hin]%dict_set_keys; [| done]. by rewrite String.eqb_refl in E.
Qed.

Lemma scan_services_NoDup ep svcs d0 d :
  scan_services ep svcs d0 = Ok d -> NoDup d0.*1 -> NoDup d.*1.
Proof.
  revert d0. induction svcs as [|svc svcs IH]; intros d0; cbn [scan_services].
  - by intros [= <-].
  - destruct (matches ep svc); [| apply IH].
    destruct (DnsEntries ep) as [|host rest]; [done |].
    intros Hscan Hd. eapply IH; [done |]. by apply dict_set_NoDup.
Qed.

Lemma scan_endpoints_NoDup eps d0 d :
  scan_endpoints eps d0 = Ok d -> NoDup d0.*1 -> NoDup d.*1.
Proof.
  revert d0. induction eps as [|ep eps IH]; intros d0; cbn [scan_endpoints].
  - by intros [= <-].
  - destruct (String.eqb (VpcEndpointType ep) "Interface"); [| apply IH].
    destruct (scan_services ep services d0) as [d1 | e] eqn:Es; [| done].
    intros Hscan Hd. eapply IH; [done |]. by eapply scan_services_NoDup.
Qed.

Lemma optionxform_services svc : svc ∈ services -> optionxform svc = svc.
Proof.
  unfold services. rewrite !elem_of_cons, elem_of_nil.
  intros [-> | [-> | [-> | []]]]; reflexivity.
Qed.

(** The section after the overrides: an option named after a scanned
    service holds the override, every other option is as before. *)
Lemma set_overrides_lookup section items
    (config config' : gmap string (gmap string string)) sec :
  config !! section = Some sec ->
  NoDup items.*1 -> (forall k, k ∈ items.*1 -> optionxform k = k) ->
  set_overrides section items config = Ok config' ->
  exists sec',
    config' = <[section := sec']> config /\
    forall k, sec' !! k =
              match dict_get k items with
              | Some host => Some (newline +:+ "    endpoint_url = https://" +:+ host)
              | None => sec !! k
              end.
Proof.
  revert config sec. induction items as [|[svc host] items IH];
    intros config sec Hs Hnd Hlow Hset.
  - injection Hset as <-. exists sec. split; [by rewrite insert_id | done].
  - cbn [set_overrides] in Hset. rewrite (config_set_Some _ _ _ _ _ Hs) in Hset.
    cbn in Hnd. apply NoDup_cons in Hnd as [Hsvc Hnd].
    rewrite (Hlow svc) in Hset by left.
    eapply IH in Hset as (sec' & -> & Hget); [| apply lookup_insert_eq | done |].
    2:{ intros k Hk. apply Hlow. by right. }
    exists sec'. split; [by rewrite insert_insert_eq |].
    intros k. rewrite Hget. cbn [dict_get].
    destruct (String.eqb k svc) eqn:E.
    + apply String.eqb_eq in E as ->. apply dict_get_None in Hsvc. rewrite Hsvc.
      apply lookup_insert_eq.
    + apply String.eqb_neq in E. destruct (dict_get k items); [done |].
      by rewrite lookup_insert_ne.
Qed.

Lemma set_overrides_total section items (config : gmap string (gmap string string)) sec :
  config !! section = Some sec ->
  exists config', set_overrides section items config = Ok config'.
Proof.
  revert config sec. induction items as [|[svc host] items IH]; intros config sec Hs.
  - by exists config.
  - cbn [set_overrides]. rewrite (config_set_Some _ _ _ _ _ Hs).
    eapply IH, lookup_insert_eq.
Qed.

Section ProvisionerRuns.
Variable describe_vpc_endpoints : string -> string -> result (list vpc_endpoint).

Lemma provision_profile_inputs profile (config config' : gmap string (gmap string string)) :
  provision_profile describe_vpc_endpoints profile config = Ok config' ->
  exists info eps d,
    dict_get profile sso_info = Some info /\
    describe_vpc_endpoints profile (region info) = Ok eps /\
    scan_endpoints eps [] = Ok d.
Proof.
  unfold provision_profile. intros Hrun.
  destruct (dict_get profile sso_info) as [info|] eqn:Hinfo; [| done].
  destruct (describe_vpc_endpoints profile (region info)) as [eps | e] eqn:Hdesc; [| done].
  cbn [and_then] in Hrun.
  destruct (scan_endpoints eps []) as [d | e] eqn:Hscan; [| done].
  by exists info, eps, d.
Qed.

(** X12. The section of a profile after its iteration, option by
    option: an option named after a service with a recorded hostname
    holds the endpoint override for that hostname; else one of the six
    static options holds its static value; every other option is as it
    was read, which includes the override of a service whose endpoint
    is no longer found.  No other section changes. *)
Theorem section_content profile (config config' : gmap string (gmap string string)) :
  provision_profile describe_vpc_endpoints profile config = Ok config' ->
  exists info eps d sec,
    dict_get profile sso_info = Some info /\
    describe_vpc_endpoints profile (region info) = Ok eps /\
    scan_endpoints eps [] = Ok d /\
    config' = <["profile " +:+ profile := sec]> config /\
    forall k,
      sec !! k =
      match dict_get k d with
      | Some host => Some (newline +:+ "    endpoint_url = https://" +:+ host)
      | None =>
          match static_value info k with
          | Some v => Some v
          | None => default ∅ (config !! ("profile " +:+ profile)) !! k
          end
      end.
Proof.
  unfold provision_profile. intros Hrun.
  destruct (dict_get profile sso_info) as [info|] eqn:Hinfo; [| done].
  destruct (describe_vpc_endpoints profile (region info)) as [eps | e] eqn:Hdesc; [| done].
  cbn [and_then] in Hrun.
  destruct (scan_endpoints eps []) as [d | e] eqn:Hscan; [| done].
  cbn [and_then] in Hrun.
  set (section := "profile " +:+ profile) in *.
  set (config0 := if has_section section config then config
                  else add_section section config) in *.
  assert (config0 !! section = Some (default ∅ (config !! section)) /\
          forall sec, <[section := sec]> config0 = <[section := sec]> config)
    as (Hsec0 & Hins).
  { subst config0. unfold has_section, add_section.
    destruct (config !! section) as [sec0|] eqn:E; [done |].
    split; [apply lookup_insert_eq |]. intros sec. apply insert_insert_eq. }
  set (sec0 := default ∅ (config !! section)) in *.
  rewrite (config_set_Some _ _ _ _ _ Hsec0) in Hrun. cbn [and_then] in Hrun.
  repeat (erewrite config_set_Some in Hrun by apply lookup_insert_eq;
          cbn [and_then] in Hrun).
  rewrite !insert_insert_eq in Hrun.
  eapply set_overrides_lookup in Hrun as (sec & -> & Hget); [| apply lookup_insert_eq | |].
  2:{ eapply scan_endpoints_NoDup; [done | apply NoDup_nil_2]. }
  2:{ intros k Hk. apply optionxform_services. by eapply scan_endpoints_keys. }
  exists info, eps, d, sec. repeat (split; [done |]).
  split; [by rewrite insert_insert_eq, Hins |].
  intros k. rewrite Hget. destruct (dict_get k d); [done |].
  repeat match goal with
         | |- context [optionxform ?x] =>
             let y := eval vm_compute in (optionxform x) in
             progress change (optionxform x) with y
         end.
  unfold static_value.
  repeat match goal with
         | |- context [String.eqb k ?x] =>
             destruct (String.eqb_spec k x) as [-> | ?];
             [ repeat (rewrite lookup_insert_ne by done); apply lookup_insert_eq | ]
         end.
  by repeat (rewrite lookup_insert_ne by done).
Qed.

Lemma provision_profile_runs profile info eps d (config : gmap string (gmap string string)) :
  dict_get profile sso_info = Some info ->
  describe_vpc_endpoints profile (region info) = Ok eps ->
  scan_endpoints eps [] = Ok d ->
  exists config', provision_profile describe_vpc_endpoints profile config = Ok config'.
Proof.
  intros Hinfo Hdesc Hscan. unfold provision_profile.
  rewrite Hinfo, Hdesc. cbn [and_then]. rewrite Hscan. cbn [and_then].
  set (section := "profile " +:+ profile).
  set (config0 := if has_section section config then config
                  else add_section section config).
  assert (exists sec0, config0 !! section = Some sec0) as [sec0 Hsec0].
  { subst config0. unfold has_section, add_section.
    destruct (config !! section) as [sec0|] eqn:E; [by exists sec0 |].
    exists ∅. apply lookup_insert_eq. }
  rewrite (config_set_Some _ _ _ _ _ Hsec0). cbn [and_then].
  repeat (erewrite config_set_Some by apply lookup_insert_eq; cbn [and_then]).
  eapply set_overrides_total, lookup_insert_eq.
Qed.

Lemma provision_profile_raises profile (config : gmap string (gmap string string)) e :
  provision_profile describe_vpc_endpoints profile config = Raise e ->
  (dict_get profile sso_info = None /\ e = KeyError profile) \/
  exists info,
    dict_get profile sso_info = Some info /\
    (describe_vpc_endpoints profile (region info) = Raise e \/
     exists eps, describe_vpc_endpoints profile (region info) = Ok eps /\
                 scan_endpoints eps [] = Raise e).
Proof.
  intros Hrun.
  destruct (dict_get profile sso_info) as [info|] eqn:Hinfo.
  2:{ left. unfold provision_profile in Hrun. rewrite Hinfo in Hrun.
      split; [done | congruence]. }
  right. exists info. split; [done |].
  destruct (describe_vpc_endpoints profile (region info)) as [eps | e1] eqn:Hdesc.
  2:{ left. unfold provision_profile in Hrun. rewrite Hinfo, Hdesc in Hrun.
      cbn in Hrun. congruence. }
  right. exists eps. split; [done |].
  destruct (scan_endpoints eps []) as [d | e1] eqn:Hscan.
  - destruct (provision_profile_runs profile info eps d config Hinfo Hdesc Hscan)
      as [config' Hok]. congruence.
  - unfold provision_profile in Hrun. rewrite Hinfo, Hdesc in Hrun.
    cbn [and_then] in Hrun. rewrite Hscan in Hrun. cbn in Hrun. congruence.
Qed.

(** X13. The run reaches the write exactly when, for every profile,
    the endpoint enumeration succeeds and every endpoint attributed to
    a probed service has a DNS entry: setting the options never
    fails, whatever configuration was read. *)
Theorem generate_succeeds (config : gmap string (gmap string string)) :
  (exists config', generate describe_vpc_endpoints config = Ok config') <->
  forall profile info,
    profile ∈ profile_names -> dict_get profile sso_info = Some info ->
    exists eps,
      describe_vpc_endpoints profile (region info) = Ok eps /\
      forall ep svc, ep ∈ eps -> attributed ep svc -> DnsEntries ep <> [].
Proof.
  unfold generate.
  assert (Hinfo : forall p, p ∈ profile_names -> is_Some (dict_get p sso_info)).
  { intros p. unfold profile_names. rewrite !elem_of_cons, elem_of_nil.
    intros [-> | [-> | []]]; by eexists. }
  revert config Hinfo. induction profile_names as [|p profiles IH]; intros config Hinfo.
  - split; [by intros _ ? ? ?%elem_of_nil | by exists config].
  - cbn [provision]. split.
    + intros [config' Hrun].
      destruct (provision_profile describe_vpc_endpoints p config) as [c1 | e] eqn:E;
        [| done].
      cbn [and_then] in Hrun.
      intros profile info [-> | Hin]%elem_of_cons Hi.
      * apply provision_profile_inputs in E as (info' & eps & d & Hi' & Hdesc & Hscan).
        assert (info' = info) as -> by congruence.
        exists eps. split; [done |]. intros ep svc Hep Ha Hd.
        assert (scan_endpoints eps [] = Raise IndexError) as Hr; [| congruence].
        apply scan_endpoints_raise. split; [done |]. by exists ep, svc.
      * eapply IH; [| by exists config' | done | done].
        intros q Hq. apply Hinfo. by right.
    + intros Hall. destruct (Hinfo p) as [info Hi]; [left |].
      destruct (Hall p info) as (eps & Hdesc & Hdns); [left | done |].
      destruct (scan_endpoints eps []) as [d | e] eqn:Hscan.
      2:{ apply scan_endpoints_raise in Hscan as (_ & ep & svc & Hep & Ha & Hd).
          by destruct (Hdns ep svc). }
      destruct (provision_profile_runs p info eps d config Hi Hdesc Hscan) as [c1 ->].
      cbn [and_then]. apply IH.
      * intros q Hq. apply Hinfo. by right.
      * intros q info' Hq. apply Hall. by right.
Qed.

End ProvisionerRuns.

Lemma section_content_witness :
  exists info eps d sec,
    dict_get "prod" sso_info = Some info /\
    sample_endpoints "prod" (region info) = Ok eps /\
    scan_endpoints eps [] = Ok d /\
    sample_prod_written = <["profile " +:+ "prod" := sec]> sample_config /\
    forall k,
      sec !! k =
      match dict_get k d with
      | Some host => Some (newline +:+ "    endpoint_url = https://" +:+ host)
      | None =>
          match static_value info k with
          | Some v => Some v
          | None => default ∅ (sample_config !! ("profile " +:+ "prod")) !! k
          end
      end.
Proof.
  apply (section_content sample_endpoints "prod" sample_config sample_prod_written).
  vm_compute. reflexivity.
Defined.
